(** * CodingSim: request guards, execution gateway, exercise repair, editor reset

  A shallow embedding of the JavaScript sources of the CodingSim
  repository:

  - [app/lib/limiter.js]            ([rateLimit], [validateDocsUrl]),
  - [app/api/run/route.js]          ([normalizeOutput], [POST]),
  - [app/api/generate-questions/route.js] (the question repair pass),
  - the workbench page              ([starterMatchesLanguage], the
                                     starter-code effect).

  JavaScript strings are sequences of UTF-16 code units; numbers that
  count things (bucket counts, lengths, timestamps in milliseconds) are
  integers; the values decoded from request bodies and model replies are
  JSON trees.  Effects (the bucket map, the clock, the sandbox) are
  threaded explicitly. *)

From Stdlib Require Import ZArith NArith QArith Qpower Qround List String Ascii Lia Bool.
From stdpp Require Import base option list gmap.
Import ListNotations.

Open Scope Z_scope.

(** ** Strings *)

(** A JavaScript string is a list of 16-bit code units.  [length] of the
  list is the [.length] of the string. *)
Definition jsstring := list N.

(** ASCII literals. *)
Definition lit (s : string) : jsstring :=
map N_of_ascii (list_ascii_of_string s).

Definition str_eqb (a b : jsstring) : bool := bool_decide (a = b).

(** [WhiteSpace] and [LineTerminator] code points of ECMAScript, the set
  that [String.prototype.trim] strips. *)
Definition isWhiteSpace (c : N) : bool :=
  existsb (N.eqb c)
    [9; 10; 11; 12; 13; 32; 160; 5760;
     8192; 8193; 8194; 8195; 8196; 8197; 8198; 8199; 8200; 8201; 8202;
     8232; 8233; 8239; 8287; 12288; 65279]%N.

Fixpoint trimStart (s : jsstring) : jsstring :=
match s with
| c :: r => if isWhiteSpace c then trimStart r else s
| [] => []
end.

Definition trimEnd (s : jsstring) : jsstring := rev (trimStart (rev s)).

(** [s.trim()] *)
Definition trim (s : jsstring) : jsstring := trimEnd (trimStart s).

(** [s.startsWith(p)] *)
Fixpoint startsWith (p s : jsstring) : bool :=
match p, s with
| [], _ => true
| a :: p', b :: s' => (a =? b)%N && startsWith p' s'
| _ :: _, [] => false
end.

(** [s.endsWith(p)] *)
Definition endsWith (p s : jsstring) : bool := startsWith (rev p) (rev s).

(** [s.includes(p)] *)
Fixpoint includes (p s : jsstring) : bool :=
startsWith p s ||
match s with
| [] => false
| _ :: s' => includes p s'
end.

(** ** The rate limiter ([app/lib/limiter.js]) *)

Module Limiter.

(** One bucket per key: [{ count, resetAt }]. *)
Record Bucket := mkBucket { count : Z; resetAt : Z }.

(** The module-level [buckets] map. *)
Abbreviation Buckets := (gmap jsstring Bucket).

Record RateResult := mkRate {
  allowed : bool;
  remaining : Z;
  rl_resetAt : Z
}.

(** [rateLimit({ key, limit, windowMs })], with [now] the value
    [Date.now()] returns inside the call.  The bucket object fetched from
    the map is mutated and stored back under the same key. *)
Definition rateLimit (buckets : Buckets) (now : Z)
    (key : jsstring) (limit windowMs : Z) : RateResult * Buckets :=
  let bucket :=
    match buckets !! key with
    | Some b => b
    | None => mkBucket 0 (now + windowMs)
    end in
  let bucket :=
    if now >? resetAt bucket then mkBucket 0 (now + windowMs) else bucket in
  let bucket := mkBucket (count bucket + 1) (resetAt bucket) in
  (mkRate (count bucket <=? limit)
          (Z.max 0 (limit - count bucket))
          (resetAt bucket),
   <[key := bucket]> buckets).

(** A client issuing one call after another on the same key, at the
    given clock readings. *)
Fixpoint calls (buckets : Buckets) (key : jsstring) (limit windowMs : Z)
    (times : list Z) : list RateResult * Buckets :=
  match times with
  | [] => ([], buckets)
  | now :: rest =>
      let '(r, b1) := rateLimit buckets now key limit windowMs in
      let '(rs, b2) := calls b1 key limit windowMs rest in
      (r :: rs, b2)
  end.

(** The keys the two gateways use: [`run:${ip}`] and [`gen:${ip}`]. *)
Definition runKey (ip : jsstring) : jsstring := lit "run:" ++ ip.
Definition genKey (ip : jsstring) : jsstring := lit "gen:" ++ ip.

End Limiter.


(** ** Errors *)

(** What a JavaScript expression can raise in the code below. *)
Inductive JsError :=
| TypeError
| SyntaxError
| RunnerError (message : jsstring).

Inductive Result (A : Type) :=
| Ok (a : A)
| Throw (e : JsError).
Arguments Ok {A} a.
Arguments Throw {A} e.

Definition rbind {A B} (m : Result A) (k : A -> Result B) : Result B :=
  match m with
  | Ok a => k a
  | Throw e => Throw e
  end.

Notation "'do' x <- m ; k" := (rbind m (fun x => k))
  (at level 10, x name, m at level 100, k at level 200).

(** ** Decimal digits *)

Definition isDigit (c : N) : bool := ((48 <=? c) && (c <=? 57))%N.

(** Digits of [n], least significant first. *)
Fixpoint digits_le (fuel : nat) (n : N) : jsstring :=
  match fuel with
  | O => []
  | S f =>
      if (n <? 10)%N then [48 + n]%N
      else (48 + n mod 10)%N :: digits_le f (n / 10)%N
  end.

(** Decimal numeral of a natural number, without leading zeros. *)
Definition digits (n : N) : jsstring :=
  rev (digits_le (S (N.to_nat (N.log2 n))) n).

(** Value of a little-endian digit string. *)
Fixpoint le_val (ds : jsstring) : N :=
  match ds with
  | [] => 0
  | c :: r => (c - 48) + 10 * le_val r
  end%N.

(** Value of a decimal numeral. *)
Definition digits_val (ds : jsstring) : N := le_val (rev ds).

(** Longest prefix of digits, and what follows it. *)
Fixpoint span_digits (s : jsstring) : jsstring * jsstring :=
  match s with
  | c :: r =>
      if isDigit c then let '(ds, rest) := span_digits r in (c :: ds, rest)
      else ([], s)
  | [] => ([], [])
  end.

(** A string that is empty or starts with something else than a digit. *)
Definition notDigitHead (s : jsstring) : Prop :=
  match s with
  | [] => True
  | c :: _ => isDigit c = false
  end.

(** A string that cannot continue a number. *)
Definition numEnd (rest : jsstring) : Prop :=
  match rest with
  | [] => True
  | c :: _ => isDigit c = false /\ c <> 46%N /\ c <> 101%N /\ c <> 69%N
  end.

(** A string that cannot continue the digits or open a fraction. *)
Definition fracEnd (tail : jsstring) : Prop :=
  match tail with
  | [] => True
  | c :: _ => isDigit c = false /\ c <> 46%N
  end.

(** The characters from [!] to [~]. *)
Definition printable (c : N) : Prop := (33 <= c <= 126)%N.

(** ** Numbers: IEEE 754 binary64 *)

(** The Number values: not-a-number, the two zeros, the two infinities and
    the finite non-zero values [(-1)^neg * m * 2^e] with [m] odd. *)
Inductive F64 :=
| FNaN
| FZero (neg : bool)
| FFin (neg : bool) (m : positive) (e : Z)
| FInf (neg : bool).

Global Instance F64_eq_dec : EqDecision F64.
Proof. solve_decision. Defined.

(** [m * 10^e] as a rational. *)
Definition decQ (m : Z) (e : Z) : Q := inject_Z m * Qpower (10 # 1) e.

(** The [d] with [2^d <= p/q < 2^(d+1)], for positive [p] and [q]. *)
Definition floor_log2 (p q : Z) : Z :=
  let d0 := Z.log2 p - Z.log2 q in
  if p * 2 ^ Z.max 0 (- d0) <? q * 2 ^ Z.max 0 d0 then d0 - 1 else d0.

(** Nearest integer to [num / den], ties to even. *)
Definition round_half_even (num den : Z) : Z :=
  let m := num / den in
  match 2 * (num mod den) ?= den with
  | Lt => m
  | Gt => m + 1
  | Eq => if Z.even m then m else m + 1
  end.

(** Strip the trailing zero bits of a significand. *)
Fixpoint strip2 (m : positive) (e : Z) : positive * Z :=
  match m with
  | xO m' => strip2 m' (e + 1)
  | _ => (m, e)
  end.

(** Round a non-negative rational to the nearest binary64 value, ties to
    even: 53 significant bits, least exponent -1074, overflow to infinity
    from [2^1024 - 2^970] on. *)
Definition roundQ (neg : bool) (v : Q) : F64 :=
  let v := Qred v in
  let p := Qnum v in
  let q := Zpos (Qden v) in
  if p <=? 0 then FZero neg
  else
    let d := floor_log2 p q in
    let e := Z.max (d - 52) (-1074) in
    let m := round_half_even (p * 2 ^ Z.max 0 (- e)) (q * 2 ^ Z.max 0 e) in
    if m =? 0 then FZero neg
    else if (971 <? e) || ((e =? 971) && (m =? 2 ^ 53)) then FInf neg
    else let '(m', e') := strip2 (Z.to_pos m) e in FFin neg m' e'.

(** A value with its sign replaced. *)
Definition withSign (neg : bool) (x : F64) : F64 :=
  match x with
  | FNaN => FNaN
  | FZero _ => FZero neg
  | FFin _ m e => FFin neg m e
  | FInf _ => FInf neg
  end.

(** The exact value of a finite magnitude. *)
Definition magQ (m : positive) (e : Z) : Q := inject_Z (Zpos m) * Qpower (2 # 1) e.

(** The [n] with [10^(n-1) <= v < 10^n], for positive [v]. *)
Definition dec_exponent (v : Q) : Z :=
  let p := Qnum v in
  let q := Zpos (Qden v) in
  if q <=? p then Z.of_nat (length (digits (Z.to_N (p / q))))
  else
    let dw := Z.of_nat (length (digits (Z.to_N (q / p)))) in
    if p * 10 ^ (dw - 1) =? q then 2 - dw else 1 - dw.

(** A candidate [(s, n)] stands for the decimal [s * 10^(n - k)], [k] the
    number of digits of [s]; it is good for [m * 2^e] when it rounds back
    to it. *)
Definition roundsTo (m : positive) (e : Z) (c : Z * Z) : bool :=
  let k := Z.of_nat (length (digits (Z.to_N c.1))) in
  bool_decide (roundQ false (decQ c.1 (c.2 - k)) = FFin false m e).

(** The good [k]-digit candidate nearest to [v = m * 2^e], if any. *)
Definition tryDigits (m : positive) (e : Z) (n k : Z) : option (Z * Z) :=
  let t := Qred (magQ m e * Qpower (10 # 1) (k - n)) in
  let lo := Qfloor t in
  let hi := lo + 1 in
  let c_lo := (lo, n) in
  let c_hi := if hi =? 10 ^ k then (10 ^ (k - 1), n + 1) else (hi, n) in
  match roundsTo m e c_lo, roundsTo m e c_hi with
  | true, true =>
      match Qcompare (t - inject_Z lo) (inject_Z hi - t) with
      | Lt => Some c_lo
      | Gt => Some c_hi
      | Eq => if Z.even lo then Some c_lo else Some c_hi
      end
  | true, false => Some c_lo
  | false, true => Some c_hi
  | false, false => None
  end.

Fixpoint findDigits (m : positive) (e : Z) (n : Z) (fuel : nat) (k : Z)
    : option (Z * Z) :=
  match fuel with
  | O => None
  | S f =>
      match tryDigits m e n k with
      | Some c => Some c
      | None => findDigits m e n f (k + 1)
      end
  end.

(** The digits [s] and the exponent [n] of Number::toString: the fewest
    digits such that [s * 10^(n-k)] rounds to the value, nearest to it
    among those.  Seventeen digits always suffice for binary64, so the
    search stops there. *)
Definition shortest (m : positive) (e : Z) : option (Z * Z) :=
  findDigits m e (dec_exponent (Qred (magQ m e))) 17 1.

Definition zeros (n : Z) : jsstring := repeat 48%N (Z.to_nat n).

(** Digits before and after the point, the point being there only when
    digits follow it. *)
Definition decimalString (ip fp : jsstring) : jsstring :=
  ip ++ match fp with
        | [] => []
        | _ :: _ => 46%N :: fp
        end.

(** Number::toString for a positive finite value with digits [ds] and
    exponent [n]. *)
Definition formatNumber (ds : jsstring) (n : Z) : jsstring :=
  let k := Z.of_nat (length ds) in
  if (k <=? n) && (n <=? 21) then decimalString (ds ++ zeros (n - k)) []
  else if (0 <? n) && (n <=? 21) then
    decimalString (take (Z.to_nat n) ds) (drop (Z.to_nat n) ds)
  else if (-6 <? n) && (n <=? 0) then
    decimalString [48%N] (zeros (- n) ++ ds)
  else
    match ds with
    | d :: r =>
        decimalString [d] r ++ [101%N] ++
        (if n - 1 <? 0 then [45%N] else [43%N]) ++
        digits (Z.to_N (Z.abs (n - 1)))
    | [] => []
    end.

Definition signStr (neg : bool) : jsstring := if neg then [45%N] else [].

(** [String(x)] for a Number [x]. *)
Definition numberToString (x : F64) : jsstring :=
  match x with
  | FNaN => lit "NaN"
  | FZero _ => lit "0"
  | FInf neg => signStr neg ++ lit "Infinity"
  | FFin neg m e =>
      match shortest m e with
      | Some (s, n) => signStr neg ++ formatNumber (digits (Z.to_N s)) n
      | None => lit "NaN"
      end
  end.

(** ** JSON values *)

(** The values [JSON.parse] produces.  An object lists its own properties
    in the order [JSON.stringify] and [Object.keys] enumerate them. *)
#[warnings="-register-all"]
Inductive json :=
| JNull
| JBool (b : bool)
| JNum (x : F64)
| JStr (s : jsstring)
| JArr (items : list json)
| JObj (props : list (jsstring * json)).

(** A value read from a property that may be absent: [None] is
    [undefined]. *)
Definition jsval := option json.

(** ToBoolean. *)
Definition truthy (v : jsval) : bool :=
  match v with
  | None | Some JNull => false
  | Some (JBool b) => b
  | Some (JNum (FZero _)) | Some (JNum FNaN) => false
  | Some (JNum _) => true
  | Some (JStr s) => negb (str_eqb s [])
  | Some (JArr _) | Some (JObj _) => true
  end.

Fixpoint assoc {A} (k : jsstring) (o : list (jsstring * A)) : option A :=
  match o with
  | [] => None
  | (k', v) :: r => if str_eqb k k' then Some v else assoc k r
  end.

(** [v.key] for the property names used in this code base, none of which
    a built-in prototype defines: an own property of an object, and
    [undefined] on every other value. *)
Definition getProp (v : json) (key : jsstring) : jsval :=
  match v with
  | JObj o => assoc key o
  | _ => None
  end.

(** [v?.key] *)
Definition getPropOpt (v : jsval) (key : jsstring) : jsval :=
  match v with
  | None | Some JNull => None
  | Some w => getProp w key
  end.

(** [a ?? b] *)
Definition nullish (a : jsval) (b : json) : json :=
  match a with
  | None | Some JNull => b
  | Some w => w
  end.

(** An array index: the canonical numeral of an integer below [2^32 - 1]. *)
Definition arrayIndex (k : jsstring) : option N :=
  match k with
  | [] => None
  | c :: r =>
      if forallb isDigit k && ((negb (c =? 48)%N) || str_eqb r []) then
        let n := digits_val k in
        if (n <=? 4294967294)%N then Some n else None
      else None
  end.

Fixpoint obj_replace (k : jsstring) (v : json) (o : list (jsstring * json))
    : option (list (jsstring * json)) :=
  match o with
  | [] => None
  | (k', v') :: r =>
      if str_eqb k k' then Some ((k', v) :: r)
      else match obj_replace k v r with
           | Some r' => Some ((k', v') :: r')
           | None => None
           end
  end.

Fixpoint obj_insert_index (n : N) (k : jsstring) (v : json)
    (o : list (jsstring * json)) : list (jsstring * json) :=
  match o with
  | [] => [(k, v)]
  | (k', v') :: r =>
      match arrayIndex k' with
      | Some n' =>
          if (n' <=? n)%N then (k', v') :: obj_insert_index n k v r
          else (k, v) :: o
      | None => (k, v) :: o
      end
  end.

(** [o[k] = v] on an ordinary object: an existing property keeps its
    place; a new array index goes among the indices in ascending order,
    ahead of the names; a new name goes last.  (Two different keys never
    stand for the same index, so the comparison could as well be
    strict.) *)
Definition obj_set (k : jsstring) (v : json) (o : list (jsstring * json))
    : list (jsstring * json) :=
  match obj_replace k v o with
  | Some o' => o'
  | None =>
      match arrayIndex k with
      | Some n => obj_insert_index n k v o
      | None => o ++ [(k, v)]
      end
  end.

Definition build_obj (members : list (jsstring * json)) : list (jsstring * json) :=
  fold_left (fun o kv => obj_set kv.1 kv.2 o) members [].

(** ** [JSON.stringify] *)

Definition hexDigit (n : N) : N := (if n <? 10 then 48 + n else 87 + n)%N.

(** [\uXXXX] with lower-case hexadecimal digits. *)
Definition uescape (c : N) : jsstring :=
  [92; 117; hexDigit ((c / 4096) mod 16); hexDigit ((c / 256) mod 16);
   hexDigit ((c / 16) mod 16); hexDigit (c mod 16)]%N.

Definition isLeadSurrogate (c : N) : bool := ((55296 <=? c) && (c <=? 56319))%N.
Definition isTrailSurrogate (c : N) : bool := ((56320 <=? c) && (c <=? 57343))%N.

Definition escapeUnit (c : N) : jsstring :=
  (if c =? 8 then [92; 98]
   else if c =? 9 then [92; 116]
   else if c =? 10 then [92; 110]
   else if c =? 12 then [92; 102]
   else if c =? 13 then [92; 114]
   else if c =? 34 then [92; 34]
   else if c =? 92 then [92; 92]
   else if c <? 32 then uescape c
   else [c])%N.

(** The characters of QuoteJSONString between the quotes: the string is
    read by code points, so a surrogate pair goes through unchanged and a
    lone surrogate is escaped. *)
Fixpoint quoteBody (s : jsstring) : jsstring :=
  match s with
  | [] => []
  | c :: r =>
      if isLeadSurrogate c then
        match r with
        | c2 :: r2 =>
            if isTrailSurrogate c2 then c :: c2 :: quoteBody r2
            else uescape c ++ quoteBody r
        | [] => uescape c
        end
      else if isTrailSurrogate c then uescape c ++ quoteBody r
      else escapeUnit c ++ quoteBody r
  end.

Definition quoteJSON (s : jsstring) : jsstring := [34%N] ++ quoteBody s ++ [34%N].

Definition isFinite (x : F64) : bool :=
  match x with
  | FZero _ | FFin _ _ _ => true
  | FNaN | FInf _ => false
  end.

(** [JSON.stringify(v)] without indentation. *)
Fixpoint stringify (v : json) : jsstring :=
  match v with
  | JNull => lit "null"
  | JBool true => lit "true"
  | JBool false => lit "false"
  | JNum x => if isFinite x then numberToString x else lit "null"
  | JStr s => quoteJSON s
  | JArr items =>
      [91%N] ++
      (fix go (l : list json) : jsstring :=
         match l with
         | [] => []
         | x :: r =>
             match r with
             | [] => stringify x
             | _ :: _ => stringify x ++ [44%N] ++ go r
             end
         end) items ++ [93%N]
  | JObj props =>
      [123%N] ++
      (fix go (l : list (jsstring * json)) : jsstring :=
         match l with
         | [] => []
         | (k, x) :: r =>
             match r with
             | [] => quoteJSON k ++ [58%N] ++ stringify x
             | _ :: _ => quoteJSON k ++ [58%N] ++ stringify x ++ [44%N] ++ go r
             end
         end) props ++ [125%N]
  end.

(** The comma-separated elements of an array, as [stringify] prints
    them. *)
Definition stringifyItems : list json -> jsstring :=
  fix go (l : list json) : jsstring :=
    match l with
    | [] => []
    | x :: r =>
        match r with
        | [] => stringify x
        | _ :: _ => stringify x ++ [44%N] ++ go r
        end
    end.

(** The comma-separated members of an object, as [stringify] prints
    them. *)
Definition stringifyProps : list (jsstring * json) -> jsstring :=
  fix go (l : list (jsstring * json)) : jsstring :=
    match l with
    | [] => []
    | (k, x) :: r =>
        match r with
        | [] => quoteJSON k ++ [58%N] ++ stringify x
        | _ :: _ => quoteJSON k ++ [58%N] ++ stringify x ++ [44%N] ++ go r
        end
    end.

(** What a value becomes when it is printed and read again: a number
    that is not finite is printed as [null], and the sign of zero is
    not printed. *)
Fixpoint normJson (v : json) : json :=
  match v with
  | JNum FNaN | JNum (FInf _) => JNull
  | JNum (FZero _) => JNum (FZero false)
  | JArr items => JArr (map normJson items)
  | JObj props => JObj (map (fun kv => (kv.1, normJson kv.2)) props)
  | _ => v
  end.

(** Property names in the order of an ordinary object: no name twice;
    after an array index only names and indices that are not smaller;
    after a name only names. *)
Fixpoint orderedKeys (ks : list jsstring) : Prop :=
  match ks with
  | [] => True
  | k :: r =>
      ~ In k r /\ orderedKeys r /\
      match arrayIndex k with
      | Some n => forall k' n', In k' r -> arrayIndex k' = Some n' -> (n <= n')%N
      | None => forall k', In k' r -> arrayIndex k' = None
      end
  end.

(** A value all of whose objects list their properties in that order. *)
Fixpoint wellFormed (v : json) : Prop :=
  match v with
  | JArr items =>
      (fix all (l : list json) : Prop :=
         match l with
         | [] => True
         | x :: r => wellFormed x /\ all r
         end) items
  | JObj props =>
      orderedKeys (map fst props) /\
      (fix all (l : list (jsstring * json)) : Prop :=
         match l with
         | [] => True
         | kv :: r => wellFormed kv.2 /\ all r
         end) props
  | _ => True
  end.

(** What may follow a value inside an array or an object, or at the end
    of the text. *)
Definition valEnd (rest : jsstring) : Prop :=
  match rest with
  | [] => True
  | c :: _ => c = 44%N \/ c = 93%N \/ c = 125%N
  end.

(** A reader that, when it accepts, returns [a] and leaves [rest]. *)
Definition readsAs {A} (r : option (A * jsstring)) (a : A) (rest : jsstring) : Prop :=
  r = None \/ r = Some (a, rest).

(** ** [JSON.parse] *)

Definition isJsonWs (c : N) : bool :=
  ((c =? 9) || (c =? 10) || (c =? 13) || (c =? 32))%N.

Fixpoint skip_ws (s : jsstring) : jsstring :=
  match s with
  | c :: r => if isJsonWs c then skip_ws r else s
  | [] => []
  end.

Definition hexVal (c : N) : option N :=
  (if isDigit c then Some (c - 48)
   else if (97 <=? c) && (c <=? 102) then Some (c - 87)
   else if (65 <=? c) && (c <=? 70) then Some (c - 55)
   else None)%N.

Definition hex4 (a b c d : N) : option N :=
  match hexVal a, hexVal b, hexVal c, hexVal d with
  | Some x, Some y, Some z, Some w => Some (x * 4096 + y * 256 + z * 16 + w)%N
  | _, _, _, _ => None
  end.

Definition simpleEscape (c : N) : option N :=
  (if c =? 34 then Some 34
   else if c =? 92 then Some 92
   else if c =? 47 then Some 47
   else if c =? 98 then Some 8
   else if c =? 102 then Some 12
   else if c =? 110 then Some 10
   else if c =? 114 then Some 13
   else if c =? 116 then Some 9
   else None)%N.

Definition consFst {A B} (a : A) (r : option (list A * B)) : option (list A * B) :=
  match r with
  | Some (l, b) => Some (a :: l, b)
  | None => None
  end.

(** The characters of a JSON string after the opening quote, up to and
    including the closing quote. *)
Fixpoint parse_string (s : jsstring) : option (jsstring * jsstring) :=
  match s with
  | [] => None
  | c :: r =>
      if (c =? 34)%N then Some ([], r)
      else if (c =? 92)%N then
        match r with
        | e :: r1 =>
            match simpleEscape e with
            | Some x => consFst x (parse_string r1)
            | None =>
                if (e =? 117)%N then
                  match r1 with
                  | h1 :: h2 :: h3 :: h4 :: r2 =>
                      match hex4 h1 h2 h3 h4 with
                      | Some x => consFst x (parse_string r2)
                      | None => None
                      end
                  | _ => None
                  end
                else None
            end
        | [] => None
        end
      else if (c <? 32)%N then None
      else consFst c (parse_string r)
  end.

(** The exponent part [e], [e+] or [e-] and digits, when present. *)
Definition parse_exponent (s : jsstring) : option (Z * jsstring) :=
  match s with
  | c :: r =>
      if (c =? 101)%N || (c =? 69)%N then
        let '(neg, r1) :=
          match r with
          | x :: r' =>
              if (x =? 45)%N then (true, r')
              else if (x =? 43)%N then (false, r')
              else (false, r)
          | [] => (false, r)
          end in
        match span_digits r1 with
        | ([], _) => None
        | (ds, rest) =>
            let x := Z.of_N (digits_val ds) in
            Some (if neg then - x else x, rest)
        end
      else Some (0, s)
  | [] => Some (0, [])
  end.

(** The fraction part [.] and digits, when present. *)
Definition parse_fraction (s : jsstring) : option (jsstring * jsstring) :=
  match s with
  | c :: r =>
      if (c =? 46)%N then
        match span_digits r with
        | ([], _) => None
        | (ds, rest) => Some (ds, rest)
        end
      else Some ([], s)
  | [] => Some ([], s)
  end.

(** A decimal with sign [neg], digits [ip.fp] and exponent [ex]. *)
Definition decimalValue (neg : bool) (ip fp : jsstring) (ex : Z) : F64 :=
  roundQ neg (decQ (Z.of_N (digits_val (ip ++ fp))) (ex - Z.of_nat (length fp))).

(** A JSON number: an optional minus sign, an integer part that is [0] or
    starts with a non-zero digit, an optional fraction and an optional
    exponent. *)
Definition stripMinus (s : jsstring) : bool * jsstring :=
  match s with
  | c :: r => if (c =? 45)%N then (true, r) else (false, s)
  | [] => (false, s)
  end.

Definition parse_number (s : jsstring) : option (F64 * jsstring) :=
  let '(neg, s1) := stripMinus s in
  let ip_rest :=
    match s1 with
    | c :: r =>
        if (c =? 48)%N then Some ([48%N], r)
        else match span_digits s1 with
             | ([], _) => None
             | (ds, rest) => Some (ds, rest)
             end
    | [] => None
    end in
  match ip_rest with
  | None => None
  | Some (ip, s2) =>
      match parse_fraction s2 with
      | None => None
      | Some (fp, s3) =>
          match parse_exponent s3 with
          | None => None
          | Some (ex, s4) => Some (decimalValue neg ip fp ex, s4)
          end
      end
  end.

Definition mapFst {A B C} (f : A -> C) (r : option (A * B)) : option (C * B) :=
  match r with
  | Some (a, b) => Some (f a, b)
  | None => None
  end.

(** Recursive descent over the JSON grammar.  [fuel] bounds the number of
    nested calls; [JSON_parse] below supplies more than any input can
    use. *)
Fixpoint parse_value (fuel : nat) (s : jsstring) : option (json * jsstring) :=
  match fuel with
  | O => None
  | S f =>
      match skip_ws s with
      | [] => None
      | c :: r =>
          if (c =? 123)%N then
            if startsWith [125%N] (skip_ws r) then Some (JObj [], drop 1 (skip_ws r))
            else mapFst (fun ms => JObj (build_obj ms)) (parse_members f r)
          else if (c =? 91)%N then
            if startsWith [93%N] (skip_ws r) then Some (JArr [], drop 1 (skip_ws r))
            else mapFst JArr (parse_elements f r)
          else if (c =? 34)%N then mapFst JStr (parse_string r)
          else if startsWith (lit "null") (c :: r) then Some (JNull, drop 4 (c :: r))
          else if startsWith (lit "true") (c :: r) then Some (JBool true, drop 4 (c :: r))
          else if startsWith (lit "false") (c :: r) then Some (JBool false, drop 5 (c :: r))
          else mapFst JNum (parse_number (c :: r))
      end
  end
with parse_elements (fuel : nat) (s : jsstring) : option (list json * jsstring) :=
  match fuel with
  | O => None
  | S f =>
      match parse_value f s with
      | Some (v, r) =>
          match skip_ws r with
          | c :: r' =>
              if (c =? 44)%N then consFst v (parse_elements f r')
              else if (c =? 93)%N then Some ([v], r')
              else None
          | [] => None
          end
      | None => None
      end
  end
with parse_members (fuel : nat) (s : jsstring)
    : option (list (jsstring * json) * jsstring) :=
  match fuel with
  | O => None
  | S f =>
      if startsWith [34%N] (skip_ws s) then
        match parse_string (drop 1 (skip_ws s)) with
        | Some (k, r1) =>
            if startsWith [58%N] (skip_ws r1) then
              match parse_value f (drop 1 (skip_ws r1)) with
              | Some (v, r3) =>
                  match skip_ws r3 with
                  | c :: r4 =>
                      if (c =? 44)%N then consFst (k, v) (parse_members f r4)
                      else if (c =? 125)%N then Some ([(k, v)], r4)
                      else None
                  | [] => None
                  end
              | None => None
              end
            else None
        | None => None
        end
      else None
  end.

(** [JSON.parse(s)]; [None] when it throws a SyntaxError. *)
Definition JSON_parse (s : jsstring) : option json :=
  match parse_value (2 * length s + 2) s with
  | Some (v, rest) =>
      match skip_ws rest with
      | [] => Some v
      | _ :: _ => None
      end
  | None => None
  end.

(** Reading a printed value back: after the printed form of an ordinary
    value [v], a reader that accepts has read [normJson v] and stands at
    what follows. *)
Definition readsBack (v : json) : Prop :=
  wellFormed v -> forall fuel rest, valEnd rest ->
  readsAs (parse_value fuel (stringify v ++ rest)) (normJson v) rest.

(** ** ToString *)

Definition hasOwn (k : jsstring) (o : list (jsstring * json)) : bool :=
  match assoc k o with
  | Some _ => true
  | None => false
  end.

(** [String(v)] on a JSON value.  An array joins its elements with commas,
    [null] elements giving the empty string.  An ordinary object gives
    [[object Object]], unless it has an own [toString] property: no JSON
    value is callable, so OrdinaryToPrimitive finds nothing to call that
    returns a primitive and throws a TypeError. *)
Fixpoint ToString (v : json) : Result jsstring :=
  match v with
  | JNull => Ok (lit "null")
  | JBool true => Ok (lit "true")
  | JBool false => Ok (lit "false")
  | JNum x => Ok (numberToString x)
  | JStr s => Ok s
  | JArr items =>
      (fix join (l : list json) : Result jsstring :=
         match l with
         | [] => Ok []
         | x :: r =>
             do sx <- match x with
                      | JNull => Ok []
                      | _ => ToString x
                      end;
             match r with
             | [] => Ok sx
             | _ :: _ => do sr <- join r; Ok (sx ++ [44%N] ++ sr)
             end
         end) items
  | JObj o =>
      if hasOwn (lit "toString") o then Throw TypeError
      else Ok (lit "[object Object]")
  end.

(** [String(v)] where [v] may be [undefined]. *)
Definition ToStringV (v : jsval) : Result jsstring :=
  match v with
  | None => Ok (lit "undefined")
  | Some w => ToString w
  end.

(** ** [Number(s)] on strings *)

Definition isNaN (x : F64) : bool :=
  match x with
  | FNaN => true
  | _ => false
  end.

Definition splitSign (s : jsstring) : bool * jsstring :=
  match s with
  | c :: r =>
      if (c =? 45)%N then (true, r)
      else if (c =? 43)%N then (false, r)
      else (false, s)
  | [] => (false, s)
  end.

(** Digits of a [0x], [0o] or [0b] literal. *)
Fixpoint radixVal (base : N) (digit : N -> option N) (acc : N) (s : jsstring)
    : option N :=
  match s with
  | [] => Some acc
  | c :: r =>
      match digit c with
      | Some d => if (d <? base)%N then radixVal base digit (acc * base + d)%N r else None
      | None => None
      end
  end.

Definition nonDecimalLiteral (s : jsstring) : option N :=
  match s with
  | z :: x :: d :: r =>
      if negb (z =? 48)%N then None
      else if (x =? 120)%N || (x =? 88)%N then radixVal 16 hexVal 0 (d :: r)
      else if (x =? 111)%N || (x =? 79)%N then radixVal 8 hexVal 0 (d :: r)
      else if (x =? 98)%N || (x =? 66)%N then radixVal 2 hexVal 0 (d :: r)
      else None
  | _ => None
  end.

(** StrUnsignedDecimalLiteral, read to the end of the string: digits with
    an optional fraction, or a fraction alone, and an optional exponent. *)
Definition strDecimal (neg : bool) (s : jsstring) : F64 :=
  let '(ip, r1) := span_digits s in
  let '(fp, r2) :=
    match r1 with
    | c :: r => if (c =? 46)%N then span_digits r else ([], r1)
    | [] => ([], r1)
    end in
  match ip, fp with
  | [], [] => FNaN
  | _, _ =>
      match r2 with
      | [] => decimalValue neg ip fp 0
      | c :: _ =>
          if (c =? 101)%N || (c =? 69)%N then
            match parse_exponent r2 with
            | Some (ex, []) => decimalValue neg ip fp ex
            | _ => FNaN
            end
          else FNaN
      end
  end.

(** StringToNumber: [Number(s)] for a string [s]. *)
Definition StringToNumber (s : jsstring) : F64 :=
  let t := trim s in
  match t with
  | [] => FZero false
  | _ =>
      match nonDecimalLiteral t with
      | Some n => roundQ false (inject_Z (Z.of_N n))
      | None =>
          let '(neg, u) := splitSign t in
          if str_eqb u (lit "Infinity") then FInf neg
          else strDecimal neg u
      end
  end.

(** ** The platform and the outside world *)

(** A sandbox runtime: [{ language, version }]. *)
Record Runtime := mkRuntime { language : jsstring; version : jsstring }.

(** What a call to the sandbox comes to: the text the gateway reports
    when [runOnPiston] throws, or the decoded reply. *)
Inductive PistonOutcome :=
| PistonThrows (message : jsstring)
| PistonReturns (reply : json).

(** What a call to the hosted model comes to: an exception, or the
    [content] of the first choice, [None] when there is none. *)
Inductive ModelOutcome :=
| ModelThrows
| ModelContent (raw : option jsstring).

(** What the platform and the outside world supply: Unicode lower-casing,
    the URL parser, the sandbox, the model and the clock.  [protocolOf s]
    is the [protocol] of [new URL(s)], [None] when the constructor
    throws.  The sandbox answers the call number [n] of the process after
    [elapsed] milliseconds.  The model is asked with the prompt built
    from the validated URL and the language.  [clockAfter t] is what
    [Date.now()] returns when a handler that has read [t] inside
    [rateLimit] reads the clock again to fill [Retry-After]. *)
Class Platform := {
  toLowerCase : jsstring -> jsstring;
  protocolOf : jsstring -> option jsstring;
  sandbox : nat -> Runtime -> jsstring -> PistonOutcome * Z;
  completion : jsstring -> jsstring -> ModelOutcome;
  clockAfter : Z -> Z
}.

(** The process-wide state a request reads and writes: the limiter's
    buckets, the clock, and the sandbox calls made so far. *)
Record World := mkWorld {
  buckets : Limiter.Buckets;
  now : Z;
  sandboxCalls : list (Runtime * jsstring)
}.

(** The request as a handler sees it: the two headers [getClientIp]
    reads and the decoded body, [None] when [req.json()] rejects. *)
Record Request := mkRequest {
  xForwardedFor : option jsstring;
  xRealIp : option jsstring;
  jsonBody : option json
}.

Fixpoint upToComma (s : jsstring) : jsstring :=
  match s with
  | [] => []
  | c :: r => if (c =? 44)%N then [] else c :: upToComma r
  end.

(** [getClientIp(req)] *)
Definition getClientIp (req : Request) : jsstring :=
  match xForwardedFor req with
  | Some (c :: xf) => trim (upToComma (c :: xf))
  | _ =>
      match xRealIp req with
      | Some (c :: xr) => trim (c :: xr)
      | _ => lit "unknown"
      end
  end.

Definition intToString (z : Z) : jsstring :=
  if z <? 0 then 45%N :: digits (Z.to_N (- z)) else digits (Z.to_N z).

(** [Math.ceil(ms / 1000)] *)
Definition ceilSeconds (ms : Z) : Z := - ((- ms) / 1000).

(** [Array.isArray(v) ? v : []] *)
Definition arrayOrEmpty (v : jsval) : list json :=
  match v with
  | Some (JArr l) => l
  | _ => []
  end.

(** Text of the templates: in these literals a backquote stands for the
    double quote of the JavaScript source. *)
Definition tq (s : string) : jsstring :=
  map (fun c => if (c =? 96)%N then 34%N else c) (lit s).

Definition joinLines (ls : list jsstring) : jsstring :=
  match ls with
  | [] => []
  | l :: r => l ++ concat (map (fun x => 10%N :: x) r)
  end.

(** [`Case ${i + 1}`] and the like. *)
Definition caseLabel (prefix : string) (i : nat) : jsstring :=
  lit prefix ++ digits (N.of_nat (i + 1)).

(** ** The docs-URL validator ([app/lib/limiter.js]) *)

Module Guard.

(** [{ ok: false, error }] or [{ ok: true, value }]. *)
Inductive Validation :=
| Invalid (error : jsstring)
| Valid (value : jsstring).

(** [validateDocsUrl(docsUrl)] *)
Definition validateDocsUrl `{Platform} (docsUrl : jsval) : Validation :=
  match docsUrl with
  | Some (JStr s) =>
      let trimmed := trim s in
      if str_eqb trimmed [] then Invalid (lit "docsUrl is required")
      else if Z.of_nat (length trimmed) >? 600 then Invalid (lit "docsUrl is too long")
      else
        match protocolOf trimmed with
        | None => Invalid (lit "docsUrl must be a valid URL")
        | Some protocol =>
            if negb (str_eqb protocol (lit "http:") || str_eqb protocol (lit "https:"))
            then Invalid (lit "docsUrl must start with http:// or https://")
            else Valid trimmed
        end
  | _ => Invalid (lit "docsUrl must be a string")
  end.

End Guard.

(** ** The execution gateway ([app/api/run/route.js]) *)

Module Run.

Definition MAX_CODE_CHARS : Z := 40000.
Definition MAX_INPUT_CHARS : Z := 4000.
Definition MAX_CASES_RUN : nat := 12.
Definition MAX_STDOUT_CHARS : Z := 8000.

(** [mapLanguage(lang)]; calling [toLowerCase] on a truthy value that is
    not a string is a TypeError. *)
Definition mapLanguage `{Platform} (lang : jsval) : Result Runtime :=
  do l <- (if truthy lang then
             match lang with
             | Some (JStr s) => Ok (toLowerCase s)
             | _ => Throw TypeError
             end
           else Ok (toLowerCase []));
  if str_eqb l (lit "javascript") then Ok (mkRuntime (lit "javascript") (lit "18.15.0"))
  else if str_eqb l (lit "typescript") then Ok (mkRuntime (lit "typescript") (lit "5.0.3"))
  else if str_eqb l (lit "python") then Ok (mkRuntime (lit "python") (lit "3.10.0"))
  else Ok (mkRuntime (lit "javascript") (lit "18.15.0")).

(** [looksJsonLike(s)] *)
Definition looksJsonLike (s : jsstring) : bool :=
  let t := trim s in
  (startsWith [123%N] t && endsWith [125%N] t) ||
  (startsWith [91%N] t && endsWith [93%N] t) ||
  (startsWith [34%N] t && endsWith [34%N] t).

(** The regular expression of [normalizeOutput]: an optional minus sign,
    digits, and optionally a point and digits, from the start to the end
    of the string. *)
Definition numericRe (s : jsstring) : bool :=
  let s1 := (stripMinus s).2 in
  match span_digits s1 with
  | ([], _) => false
  | (_ :: _, []) => true
  | (_ :: _, c :: r2) =>
      if (c =? 46)%N then
        match span_digits r2 with
        | (_ :: _, []) => true
        | _ => false
        end
      else false
  end.

(** [normalizeOutput(value)], for a string [value] (both call sites pass
    strings, on which [String(value ?? "")] is the identity). *)
Definition normalizeOutput (value : jsstring) : jsstring :=
  let raw := trim value in
  if str_eqb raw (lit "null") then lit "null"
  else if str_eqb raw (lit "true") then lit "true"
  else if str_eqb raw (lit "false") then lit "false"
  else if negb (str_eqb raw []) && negb (isNaN (StringToNumber raw)) && numericRe raw
  then numberToString (StringToNumber raw)
  else if looksJsonLike raw then
    match JSON_parse raw with
    | Some v => stringify v
    | None => raw
    end
  else raw.

(** [jsHarness(userCode, inputJsonString, functionName)] *)
Definition jsHarness (userCode input fn : jsstring) : jsstring :=
  trim (joinLines [
    [];
    tq "`use strict`;";
    userCode;
    [];
    tq "function __print(v) {";
    tq "  if (typeof v === `string`) return process.stdout.write(v);";
    tq "  if (typeof v === `number` || typeof v === `boolean`) return process.stdout.write(String(v));";
    tq "  try { return process.stdout.write(JSON.stringify(v)); } catch { return process.stdout.write(String(v)); }";
    tq "}";
    [];
    tq "(async () => {";
    tq "  try {";
    tq "    const __input = JSON.parse(" ++ quoteJSON input ++ tq ");";
    tq "    if (typeof " ++ fn ++ tq " !== `function`) throw new Error(`Missing function " ++ fn ++ tq "(input).`);";
    tq "    const __result = await " ++ fn ++ tq "(__input);";
    tq "    __print(__result);";
    tq "  } catch (e) {";
    tq "    console.error(String(e && e.stack ? e.stack : e));";
    tq "    process.exit(1);";
    tq "  }";
    tq "})();";
    []
  ]).

(** [tsHarness(userCode, inputJsonString, functionName)] *)
Definition tsHarness (userCode input fn : jsstring) : jsstring :=
  trim (joinLines [
    [];
    userCode;
    [];
    tq "function __print(v: any) {";
    tq "  if (typeof v === `string`) return process.stdout.write(v);";
    tq "  if (typeof v === `number` || typeof v === `boolean`) return process.stdout.write(String(v));";
    tq "  try { return process.stdout.write(JSON.stringify(v)); } catch { return process.stdout.write(String(v)); }";
    tq "}";
    [];
    tq "(async () => {";
    tq "  try {";
    tq "    const __input = JSON.parse(" ++ quoteJSON input ++ tq ");";
    tq "    // @ts-ignore";
    tq "    if (typeof (globalThis as any)[`" ++ fn ++ tq "`] !== `function`) throw new Error(`Missing function " ++ fn ++ tq "(input).`);";
    tq "    // @ts-ignore";
    tq "    const __result = await (globalThis as any)[`" ++ fn ++ tq "`](__input);";
    tq "    __print(__result);";
    tq "  } catch (e: any) {";
    tq "    console.error(String(e?.stack ?? e));";
    tq "    process.exit(1);";
    tq "  }";
    tq "})();";
    []
  ]).

(** [pyHarness(userCode, inputJsonString, functionName)] *)
Definition pyHarness (userCode input fn : jsstring) : jsstring :=
  trim (joinLines [
    [];
    tq "import json, sys, traceback";
    [];
    userCode;
    [];
    tq "def __print(v):";
    tq "    if isinstance(v, str):";
    tq "        sys.stdout.write(v); return";
    tq "    try:";
    tq "        sys.stdout.write(json.dumps(v))";
    tq "    except Exception:";
    tq "        sys.stdout.write(str(v))";
    [];
    tq "try:";
    tq "    __input = json.loads(" ++ quoteJSON input ++ tq ")";
    tq "    if `" ++ fn ++ tq "` not in globals() or not callable(globals()[`" ++ fn ++ tq "`]):";
    tq "        raise Exception(`Missing function " ++ fn ++ tq "(input).`)";
    tq "    __result = globals()[`" ++ fn ++ tq "`](__input)";
    tq "    __print(__result)";
    tq "except Exception:";
    tq "    traceback.print_exc()";
    tq "    sys.exit(1)";
    []
  ]).

(** [runOnPiston(runtime, code)]: one more call in the log, and the clock
    moves by the time the call took. *)
Definition runOnPiston `{Platform} (runtime : Runtime) (code : jsstring) (w : World)
    : PistonOutcome * World :=
  let '(out, elapsed) := sandbox (length (sandboxCalls w)) runtime code in
  (out, mkWorld (buckets w) (now w + elapsed) (sandboxCalls w ++ [(runtime, code)])).

(** One entry of [results]. *)
Record RunResult := mkResult {
  name : json;
  passed : bool;
  expectedOutput : jsstring;
  actualOutput : jsstring;
  stderr : jsstring;
  exitCode : json;
  runtimeMs : Z;
  hidden : bool
}.

Definition numZ (z : Z) : json := JNum (roundQ (z <? 0) (inject_Z (Z.abs z))).

(** [x === 0] *)
Definition isZero (x : json) : bool :=
  match x with
  | JNum (FZero _) => true
  | _ => false
  end.

(** [(v ?? "").trim()] for a stream of the sandbox reply: calling [trim]
    on a value that is not a string is a TypeError. *)
Definition trimmedStream (v : jsval) : Result jsstring :=
  match nullish v (JStr []) with
  | JStr s => Ok (trim s)
  | _ => Throw TypeError
  end.

(** The settings of a request that the loop over the cases reads. *)
Record Job := mkJob {
  code : jsstring;
  functionName : json;
  mode : json;
  visibleCount : nat;
  runtime : Runtime
}.

Definition isSubmit (mode : json) : bool :=
  match mode with
  | JStr s => str_eqb s (lit "submit")
  | _ => false
  end.

(** The case object the loop body reads: [casesToRun[i] || {}]. *)
Definition caseObject (item : json) : json :=
  if truthy (Some item) then item else JObj [].

(** The harness program the loop body builds for an input. *)
Definition programFor (job : Job) (input fn : jsstring) : jsstring :=
  if str_eqb (language (runtime job)) (lit "javascript")
  then jsHarness (code job) input fn
  else if str_eqb (language (runtime job)) (lit "typescript")
  then tsHarness (code job) input fn
  else pyHarness (code job) input fn.

(** The captured standard output: cut at [MAX_STDOUT_CHARS] characters
    with the marker appended. *)
Definition captured (stdout0 : jsstring) : jsstring :=
  if Z.of_nat (length stdout0) >? MAX_STDOUT_CHARS
  then take (Z.to_nat MAX_STDOUT_CHARS) stdout0 ++ 10%N :: lit "...[truncated]"
  else stdout0.

(** The body of the [for] loop for the case at index [i]: the entry it
    pushes to [results], or the exception that leaves the loop. *)
Definition runCase `{Platform} (job : Job) (i : nat) (item : json) (w : World)
    : Result RunResult * World :=
  let tc := caseObject item in
  let name := nullish (getProp tc (lit "name")) (JStr (caseLabel "Case " i)) in
  let hid := isSubmit (mode job) && (visibleCount job <=? i)%nat in
  match ToString (nullish (getProp tc (lit "input")) (JStr (lit "null"))) with
  | Throw e => (Throw e, w)
  | Ok input =>
  match ToString (nullish (getProp tc (lit "expectedOutput")) (JStr [])) with
  | Throw e => (Throw e, w)
  | Ok expected =>
      if Z.of_nat (length input) >? MAX_INPUT_CHARS then
        (Ok (mkResult name false expected [] (lit "Input too large.") (numZ 1) 0 hid), w)
      else
        match JSON_parse input with
        | None =>
            (Ok (mkResult name false expected []
                   (lit "Testcase input is not valid JSON.") (numZ 1) 0 hid), w)
        | Some _ =>
            match ToString (functionName job) with
            | Throw e => (Throw e, w)
            | Ok fn =>
                let program := programFor job input fn in
                let caseStart := now w in
                let '(out, w1) := runOnPiston (runtime job) program w in
                match out with
                | PistonThrows message =>
                    (Ok (mkResult name false expected [] message (numZ 1)
                           (now w1 - caseStart) hid), w1)
                | PistonReturns piston =>
                    let run := getPropOpt (Some piston) (lit "run") in
                    match trimmedStream (getPropOpt run (lit "stdout")) with
                    | Throw e => (Throw e, w1)
                    | Ok stdout0 =>
                    match trimmedStream (getPropOpt run (lit "stderr")) with
                    | Throw e => (Throw e, w1)
                    | Ok err =>
                        let exit := nullish (getPropOpt run (lit "code")) (numZ 0) in
                        let stdout := captured stdout0 in
                        let actualNorm := normalizeOutput stdout in
                        let expectedNorm := normalizeOutput expected in
                        let ok := isZero exit && str_eqb actualNorm expectedNorm in
                        (Ok (mkResult name ok expected stdout err exit
                               (now w1 - caseStart) hid), w1)
                    end
                    end
                end
            end
        end
  end
  end.

(** The state of the loop: [results] and [passedCount]. *)
Record Tally := mkTally { results : list RunResult; passedCount : Z }.

Definition push (r : RunResult) (t : Tally) : Tally :=
  mkTally (results t ++ [r]) (if passed r then passedCount t + 1 else passedCount t).

(** The [for] loop from index [i] over the cases still to run. *)
Fixpoint runLoop `{Platform} (job : Job) (i : nat) (cases : list json)
    (t : Tally) (w : World) : Result Tally * World :=
  match cases with
  | [] => (Ok t, w)
  | item :: rest =>
      match runCase job i item w with
      | (Throw e, w1) => (Throw e, w1)
      | (Ok r, w1) => runLoop job (S i) rest (push r t) w1
      end
  end.

Inductive Body :=
| ErrorBody (error : jsstring)
| Report (mode : json) (passedCount total : Z) (allPassed : bool)
         (totalRuntimeMs : Z) (results : list RunResult).

Record Response := mkResponse {
  status : Z;
  retryAfter : option jsstring;
  body : Body
}.

(** The handler between the rate-limit check and the response, where an
    exception is caught by the outer [try]. *)
Definition handle `{Platform} (req : Request) (w : World) : Result Response * World :=
  match jsonBody req with
  | None => (Throw SyntaxError, w)
  | Some b =>
      let b := if truthy (Some b) then b else JObj [] in
      let code := getProp b (lit "code") in
      let language := getProp b (lit "language") in
      let functionName :=
        match getProp b (lit "functionName") with
        | None => JStr (lit "solve")
        | Some v => v
        end in
      let mode :=
        match getProp b (lit "mode") with
        | None => JStr (lit "run")
        | Some v => v
        end in
      match code with
      | Some (JStr (c :: src)) =>
          if Z.of_nat (length (c :: src)) >? MAX_CODE_CHARS then
            (Ok (mkResponse 400 None (ErrorBody (lit "Code is too long"))), w)
          else
            let visible := arrayOrEmpty (getProp b (lit "testCases")) in
            let hiddenCases := arrayOrEmpty (getProp b (lit "hiddenTestCases")) in
            let casesToRun := if isSubmit mode then visible ++ hiddenCases else visible in
            match casesToRun with
            | [] => (Ok (mkResponse 400 None (ErrorBody (lit "testCases are required"))), w)
            | _ :: _ =>
                match mapLanguage language with
                | Throw e => (Throw e, w)
                | Ok runtime =>
                    let job := mkJob (c :: src) functionName mode (length visible) runtime in
                    let started := now w in
                    match runLoop job 0 (take MAX_CASES_RUN casesToRun) (mkTally [] 0) w with
                    | (Throw e, w1) => (Throw e, w1)
                    | (Ok t, w1) =>
                        let total := Z.of_nat (length (results t)) in
                        (Ok (mkResponse 200 None
                               (Report mode (passedCount t) total
                                  (passedCount t =? total)
                                  (now w1 - started) (results t))), w1)
                    end
                end
            end
      | _ => (Ok (mkResponse 400 None (ErrorBody (lit "code is required"))), w)
      end
  end.

(** [POST(req)] *)
Definition POST `{Platform} (req : Request) (w : World) : Response * World :=
  let ip := getClientIp req in
  let '(rl, bs) := Limiter.rateLimit (buckets w) (now w) (Limiter.runKey ip) 30 (5 * 60 * 1000) in
  let w := mkWorld bs (now w) (sandboxCalls w) in
  if negb (Limiter.allowed rl) then
    (mkResponse 429
       (Some (intToString (ceilSeconds (Limiter.rl_resetAt rl - clockAfter (now w)))))
       (ErrorBody (lit "Too many run requests. Try again later.")), w)
  else
    match handle req w with
    | (Ok resp, w1) => (resp, w1)
    | (Throw _, w1) =>
        (mkResponse 500 None (ErrorBody (lit "Server error running code")), w1)
    end.

End Run.

(** ** The exercise generation gateway ([app/api/generate-questions/route.js]) *)

Module Generate.

(** [normalizeLanguage(lang)] *)
Definition normalizeLanguage `{Platform} (lang : jsval) : Result jsstring :=
  do l <- (if truthy lang then
             match lang with
             | Some (JStr s) => Ok (toLowerCase s)
             | _ => Throw TypeError
             end
           else Ok (toLowerCase []));
  if str_eqb l (lit "python") then Ok (lit "python")
  else if str_eqb l (lit "typescript") then Ok (lit "typescript")
  else Ok (lit "javascript").

(** [starterTemplate(lang)] *)
Definition starterTemplate (lang : jsstring) : jsstring :=
  if str_eqb lang (lit "python") then
    joinLines [
      tq "def solve(input):";
      tq "    ```";
      tq "    input: parsed JSON value (number/string/list/dict/etc)";
      tq "    return: value that matches expectedOutput";
      tq "    ```";
      tq "    # TODO: implement";
      tq "    return None";
      []
    ]
  else if str_eqb lang (lit "typescript") then
    joinLines [
      tq "export function solve(input: unknown): unknown {";
      tq "  // input: parsed JSON value";
      tq "  // return: value that matches expectedOutput";
      tq "  return null;";
      tq "}";
      []
    ]
  else
    joinLines [
      tq "export function solve(input) {";
      tq "  // input: parsed JSON value";
      tq "  // return: value that matches expectedOutput";
      tq "  return null;";
      tq "}";
      []
    ].

(** [starterLooksOk(starterCode, lang)] *)
Definition starterLooksOk (starterCode : jsval) (lang : jsstring) : Result bool :=
  do sc <- (if truthy starterCode then ToStringV starterCode else Ok []);
  let looksPy := includes (lit "def solve") sc in
  let looksJS :=
    includes (lit "export function solve") sc || includes (lit "function solve") sc in
  Ok (if str_eqb lang (lit "python") then looksPy else looksJS).

Definition filler : list jsstring := [
  lit "Start by carefully matching the input JSON shape to the variables you need.";
  lit "Write the rule as a small helper step (even mentally), then apply it to all required parts.";
  lit "Test your logic on the provided example by hand and confirm it matches the expected output."
].

(** [hints.filter(Boolean).map(String)] *)
Fixpoint usableHints (hints : list json) : Result (list jsstring) :=
  match hints with
  | [] => Ok []
  | h :: r =>
      if truthy (Some h) then
        do s <- ToString h;
        do rest <- usableHints r;
        Ok (s :: rest)
      else usableHints r
  end.

(** The [while (trimmed.length < 3)] loop, which runs at most three
    times; [i] counts the fillers pushed. *)
Fixpoint padHints (fuel : nat) (i : nat) (trimmed : list jsstring) : list jsstring :=
  match fuel with
  | O => trimmed
  | S f =>
      if (length trimmed <? 3)%nat then
        let pick :=
          match filler !! i with
          | Some x => x
          | None => List.last filler []
          end in
        padHints f (S i) (trimmed ++ [pick])
      else trimmed
  end.

(** [ensureExactlyThreeHints(hints)] *)
Definition ensureExactlyThreeHints (hints : jsval) : Result (list jsstring) :=
  do base <- match hints with
             | Some (JArr l) => usableHints l
             | _ => Ok []
             end;
  Ok (padHints 3 0 (take 3 base)).

(** [coerceString(val, fallback)] *)
Definition coerceString (val : jsval) (fallback : jsstring) : Result jsstring :=
  match val with
  | None | Some JNull => Ok fallback
  | Some v => ToString v
  end.

(** [coerceDifficulty(val, fallback)] *)
Definition coerceDifficulty `{Platform} (val : jsval) (fallback : jsstring)
    : Result jsstring :=
  do s <- (if truthy val then ToStringV val else Ok []);
  let d := trim (toLowerCase s) in
  if str_eqb d (lit "beginner") || str_eqb d (lit "intermediate")
     || str_eqb d (lit "advanced")
  then Ok d else Ok fallback.

(** [sanitizeCase(tc, fallbackName)]: a fresh object with the four
    properties, in this order. *)
Definition sanitizeCase (tc : json) (fallbackName : jsstring) : Result json :=
  let t := if truthy (Some tc) then tc else JObj [] in
  do name <- coerceString (getProp t (lit "name")) fallbackName;
  do input <- coerceString (getProp t (lit "input")) (lit "null");
  do expectedOutput <- coerceString (getProp t (lit "expectedOutput")) (lit "null");
  do explanation <- coerceString (getProp t (lit "explanation")) [];
  Ok (JObj [(lit "name", JStr name); (lit "input", JStr input);
            (lit "expectedOutput", JStr expectedOutput);
            (lit "explanation", JStr explanation)]).

(** [arr.slice(0, cap).map((tc, i) => sanitizeCase(tc, `${prefix}${i + 1}`))],
    from index [i] on. *)
Fixpoint sanitizeAll (prefix : string) (i : nat) (l : list json) : Result (list json) :=
  match l with
  | [] => Ok []
  | tc :: r =>
      do c <- sanitizeCase tc (caseLabel prefix i);
      do rest <- sanitizeAll prefix (S i) r;
      Ok (c :: rest)
  end.

(** The [while (arr.length < least)] loops that push sanity checks. *)
Fixpoint padCases (fuel : nat) (least : nat) (prefix : string) (explanation : jsstring)
    (arr : list json) : Result (list json) :=
  match fuel with
  | O => Ok arr
  | S f =>
      if (length arr <? least)%nat then
        let label := caseLabel prefix (length arr) in
        do c <- sanitizeCase
                  (JObj [(lit "name", JStr label); (lit "input", JStr (lit "null"));
                         (lit "expectedOutput", JStr (lit "null"));
                         (lit "explanation", JStr explanation)])
                  label;
        padCases f least prefix explanation (arr ++ [c])
      else Ok arr
  end.

(** A sanitized case: an object with exactly the four string
    properties. *)
Definition isCase (c : json) : Prop :=
  exists name input expected explanation,
    c = JObj [(lit "name", JStr name); (lit "input", JStr input);
              (lit "expectedOutput", JStr expected);
              (lit "explanation", JStr explanation)].

(** A property that is absent or [null]. *)
Definition missing (v : jsval) : Prop := v = None \/ v = Some JNull.

(** The hints as the specification words them: the first three of the
    hints the model gave, then fillers up to three. *)
Definition hintsAsClaimed (given : list jsstring) : list jsstring :=
  take 3 given ++ take (3 - length (take 3 given)) filler.

(** A question while it is repaired: an object of the heap, which may be
    an array ([elems]) carrying named properties. *)
Record jsobj := mkObj {
  elems : option (list json);
  named : list (jsstring * json)
}.

Definition getNamed (o : jsobj) (k : jsstring) : jsval := assoc k (named o).

Definition setNamed (k : jsstring) (v : json) (o : jsobj) : jsobj :=
  mkObj (elems o) (obj_set k v (named o)).

(** [q || {}], as the object the assignments below write to.  The route
    is an ES module, hence strict code, where assigning a property of a
    primitive value is a TypeError. *)
Definition asObject (q : json) : Result jsobj :=
  if truthy (Some q) then
    match q with
    | JObj o => Ok (mkObj None o)
    | JArr l => Ok (mkObj (Some l) [])
    | _ => Throw TypeError
    end
  else Ok (mkObj None []).

(** The callback of [payload.questions.slice(0, 5).map((q, idx) => ...)]. *)
Definition normalizeQuestion `{Platform} (lang : jsstring) (idx : nat) (q : json)
    : Result jsobj :=
  do qq <- asObject q;
  let qq := setNamed (lit "functionName") (JStr (lit "solve")) qq in
  do title <- coerceString (getNamed qq (lit "title")) (caseLabel "Challenge " idx);
  let qq := setNamed (lit "title") (JStr title) qq in
  do concept <- coerceString (getNamed qq (lit "concept"))
                  (lit "You will learn how to apply the documented concept.");
  let qq := setNamed (lit "concept") (JStr concept) qq in
  do question <- coerceString (getNamed qq (lit "question")) [];
  let qq := setNamed (lit "question") (JStr question) qq in
  do instructions <- coerceString (getNamed qq (lit "instructions")) [];
  let qq := setNamed (lit "instructions") (JStr instructions) qq in
  do difficulty <- coerceDifficulty (getNamed qq (lit "difficulty")) (lit "beginner");
  let qq := setNamed (lit "difficulty") (JStr difficulty) qq in
  do looksOk <- starterLooksOk (getNamed qq (lit "starterCode")) lang;
  do starter <- (if negb looksOk then Ok (starterTemplate lang)
                 else coerceString (getNamed qq (lit "starterCode")) (starterTemplate lang));
  let qq := setNamed (lit "starterCode") (JStr starter) qq in
  do hints <- ensureExactlyThreeHints (getNamed qq (lit "hints"));
  let qq := setNamed (lit "hints") (JArr (map JStr hints)) qq in
  let visible := arrayOrEmpty (getNamed qq (lit "testCases")) in
  let hiddenCases := arrayOrEmpty (getNamed qq (lit "hiddenTestCases")) in
  do visible <- sanitizeAll "Case " 0 (take 3 visible);
  do hiddenCases <- sanitizeAll "Hidden " 0 (take 6 hiddenCases);
  do visible <- padCases 2 2 "Case " (lit "Basic sanity check.") visible;
  do hiddenCases <- padCases 3 3 "Hidden "
                      (lit "Hidden sanity check / edge coverage.") hiddenCases;
  let qq := setNamed (lit "testCases") (JArr visible) qq in
  let qq := setNamed (lit "hiddenTestCases") (JArr hiddenCases) qq in
  Ok qq.

(** What the repair pass establishes, for the object [q0] it started
    from and the object [qq] it returns. *)
Definition Repaired `{Platform} (lang : jsstring) (q0 qq : jsobj) : Prop :=
  getNamed qq (lit "functionName") = Some (JStr (lit "solve")) /\
  (exists base,
     match getNamed q0 (lit "hints") with
     | Some (JArr l) => usableHints l
     | _ => Ok []
     end = Ok base /\
     getNamed qq (lit "hints") =
       Some (JArr (map JStr (take 3 base ++ take (3 - length (take 3 base)) filler))) /\
     length (take 3 base ++ take (3 - length (take 3 base)) filler) = 3%nat) /\
  (exists s d,
     (if truthy (getNamed q0 (lit "difficulty"))
      then ToStringV (getNamed q0 (lit "difficulty")) else Ok []) = Ok s /\
     getNamed qq (lit "difficulty") = Some (JStr d) /\
     (d = lit "beginner" \/ d = lit "intermediate" \/ d = lit "advanced") /\
     d = (let t := trim (toLowerCase s) in
          if str_eqb t (lit "beginner") || str_eqb t (lit "intermediate")
             || str_eqb t (lit "advanced")
          then t else lit "beginner")) /\
  (exists tcs,
     getNamed qq (lit "testCases") = Some (JArr tcs) /\
     (2 <= length tcs <= 3)%nat /\ Forall isCase tcs /\
     forall k tc,
       take 3 (arrayOrEmpty (getNamed q0 (lit "testCases"))) !! k = Some tc ->
       exists c, tcs !! k = Some c /\ sanitizeCase tc (caseLabel "Case " k) = Ok c) /\
  (exists hcs,
     getNamed qq (lit "hiddenTestCases") = Some (JArr hcs) /\
     (3 <= length hcs <= 6)%nat /\ Forall isCase hcs /\
     forall k tc,
       take 6 (arrayOrEmpty (getNamed q0 (lit "hiddenTestCases"))) !! k = Some tc ->
       exists c, hcs !! k = Some c /\ sanitizeCase tc (caseLabel "Hidden " k) = Ok c) /\
  (exists sc,
     getNamed qq (lit "starterCode") = Some (JStr sc) /\
     (starterLooksOk (getNamed q0 (lit "starterCode")) lang = Ok false ->
      sc = starterTemplate lang)).

Fixpoint normalizeAll `{Platform} (lang : jsstring) (idx : nat) (qs : list json)
    : Result (list jsobj) :=
  match qs with
  | [] => Ok []
  | q :: r =>
      do qq <- normalizeQuestion lang idx q;
      do rest <- normalizeAll lang (S idx) r;
      Ok (qq :: rest)
  end.

(** What [JSON.stringify] takes from a repaired question: the named
    properties of an ordinary object, and of an array its elements
    alone, so that the properties set on an array are not printed. *)
Definition sent (qq : jsobj) : json :=
  match elems qq with
  | Some l => JArr l
  | None => JObj (named qq)
  end.

(** The body of a response: [{ error }], or the text of the payload as
    [NextResponse.json] prints it. *)
Inductive Body :=
| ErrorBody (error : jsstring)
| Generated (text : jsstring).

Record Response := mkResponse {
  status : Z;
  retryAfter : option jsstring;
  body : Body
}.

(** The handler after the rate-limit check, where an exception is caught
    by the outer [try]. *)
Definition handle `{Platform} (req : Request) : Result Response :=
  match jsonBody req with
  | None => Throw SyntaxError
  | Some b =>
      match b with
      | JNull => Throw TypeError
      | _ =>
          match Guard.validateDocsUrl (getProp b (lit "docsUrl")) with
          | Guard.Invalid e => Ok (mkResponse 400 None (ErrorBody e))
          | Guard.Valid value =>
              do lang <- normalizeLanguage (getProp b (lit "language"));
              match completion value lang with
              | ModelThrows => Throw TypeError
              | ModelContent None | ModelContent (Some []) =>
                  Ok (mkResponse 500 None (ErrorBody (lit "No content returned from model")))
              | ModelContent (Some raw) =>
                  match JSON_parse raw with
                  | None =>
                      Ok (mkResponse 500 None (ErrorBody (lit "Model returned invalid JSON")))
                  | Some JNull => Throw TypeError
                  | Some (JObj o) =>
                      match assoc (lit "questions") o with
                      | Some (JArr qs) =>
                          do questions <- normalizeAll lang 0 (take 5 qs);
                          let payload :=
                            JObj (obj_set (lit "questions")
                                    (JArr (map sent questions)) o) in
                          Ok (mkResponse 200 None (Generated (stringify payload)))
                      | _ =>
                          Ok (mkResponse 500 None
                                (ErrorBody (lit "Model response missing 'questions' array")))
                      end
                  | Some _ =>
                      Ok (mkResponse 500 None
                            (ErrorBody (lit "Model response missing 'questions' array")))
                  end
              end
          end
      end
  end.

(** [POST(req)] *)
Definition POST `{Platform} (req : Request) (w : World) : Response * World :=
  let ip := getClientIp req in
  let '(rl, bs) := Limiter.rateLimit (buckets w) (now w) (Limiter.genKey ip) 10 (5 * 60 * 1000) in
  let w := mkWorld bs (now w) (sandboxCalls w) in
  if negb (Limiter.allowed rl) then
    (mkResponse 429
       (Some (intToString (ceilSeconds (Limiter.rl_resetAt rl - clockAfter (now w)))))
       (ErrorBody (lit "Too many generate requests. Try again later.")), w)
  else
    match handle req with
    | Ok resp => (resp, w)
    | Throw _ =>
        (mkResponse 500 None (ErrorBody (lit "Server error generating questions")), w)
    end.

End Generate.

(** ** The workbench page *)

Module Workbench.

(** [defaultStarter(lang)] *)
Definition defaultStarter (lang : jsstring) : jsstring :=
  if str_eqb lang (lit "python") then
    joinLines [
      tq "def solve(input):";
      tq "    ```";
      tq "    input: parsed JSON value (number/string/list/dict/etc)";
      tq "    return: value that matches expectedOutput";
      tq "    ```";
      tq "    # TODO: implement";
      tq "    return None";
      []
    ]
  else if str_eqb lang (lit "typescript") then
    joinLines [
      tq "export function solve(input: unknown): unknown {";
      tq "  // input: parsed JSON value";
      tq "  // return: value that matches expectedOutput";
      tq "  return null;";
      tq "}";
      []
    ]
  else
    joinLines [
      tq "export function solve(input) {";
      tq "  // input: parsed JSON value";
      tq "  // return: value that matches expectedOutput";
      tq "  return null;";
      tq "}";
      []
    ].

(** [starterMatchesLanguage(starterCode, lang)] *)
Definition starterMatchesLanguage (starterCode : jsval) (lang : jsstring) : Result bool :=
  do sc <- (if truthy starterCode then ToStringV starterCode else Ok []);
  let looksPy := includes (lit "def solve") sc in
  let looksJS :=
    includes (lit "export function solve") sc || includes (lit "function solve") sc in
  Ok (if str_eqb lang (lit "python") then looksPy else looksJS).

(** [questions.length > 0 ? questions[Math.min(selectedIndex, questions.length - 1)] : null] *)
Definition currentQuestion (questions : list json) (selectedIndex : nat) : jsval :=
  match questions with
  | [] => Some JNull
  | _ :: _ => questions !! (Nat.min selectedIndex (length questions - 1))
  end.

(** The effect that runs when [currentQuestion] or [language] changes:
    the text it passes to [setCode], [None] when it returns without
    setting anything.  Calling [trim] on a value that is not a string is
    a TypeError. *)
Definition starterEffect (current : jsval) (language : jsstring)
    : Result (option jsstring) :=
  if negb (truthy current) then Ok None
  else
    let starter := getPropOpt current (lit "starterCode") in
    let sc := if truthy starter then starter else Some (JStr []) in
    do ok <- starterMatchesLanguage sc language;
    if ok then
      match sc with
      | Some (JStr s) =>
          if negb (str_eqb (trim s) []) then Ok (Some s)
          else Ok (Some (defaultStarter language))
      | _ => Throw TypeError
      end
    else Ok (Some (defaultStarter language)).

End Workbench.

(** ** A platform for the examples *)

Module Demo.

(** Lower-casing of the ASCII letters. *)
Definition asciiLower (s : jsstring) : jsstring :=
  map (fun c => if ((65 <=? c) && (c <=? 90))%N then (c + 32)%N else c) s.

Definition isAsciiLetter (c : N) : bool :=
  (((65 <=? c) && (c <=? 90)) || ((97 <=? c) && (c <=? 122)))%N.

Fixpoint schemeOf (s : jsstring) : option (jsstring * jsstring) :=
  match s with
  | [] => None
  | c :: r =>
      if (c =? 58)%N then Some ([], r)
      else if isAsciiLetter c then consFst c (schemeOf r)
      else None
  end.

(** A stand-in for the URL parser that accepts [scheme://rest] with a
    non-empty alphabetic scheme and a non-empty rest without spaces. *)
Definition simpleProtocol (s : jsstring) : option jsstring :=
  match schemeOf s with
  | Some (c :: sch, 47%N :: 47%N :: h :: rest) =>
      if forallb (fun x => negb (x =? 32)%N) (h :: rest)
      then Some (asciiLower (c :: sch) ++ [58%N])
      else None
  | _ => None
  end.

(** A sandbox that answers from a script of replies, one per call. *)
Definition scripted (script : list (PistonOutcome * Z)) (n : nat)
    (_ : Runtime) (_ : jsstring) : PistonOutcome * Z :=
  match script !! n with
  | Some r => r
  | None => (PistonThrows (lit "fetch failed"), 1)
  end.

Definition reply (stdout : jsstring) (exit : Z) : PistonOutcome :=
  PistonReturns
    (JObj [(lit "run",
            JObj [(lit "stdout", JStr stdout); (lit "stderr", JStr []);
                  (lit "code", JNum (roundQ (exit <? 0) (inject_Z (Z.abs exit))))])]).

(** The platform of the examples: the second reading of the clock comes
    two milliseconds after the first. *)
Definition platform (script : list (PistonOutcome * Z)) (content : option jsstring)
    : Platform :=
  {| toLowerCase := asciiLower;
     protocolOf := simpleProtocol;
     sandbox := scripted script;
     completion := fun _ _ => ModelContent content;
     clockAfter := fun t => t + 2 |}.

(** A test case object [{ input, expectedOutput }]. *)
Definition testCase (input expected : jsstring) : json :=
  JObj [(lit "input", JStr input); (lit "expectedOutput", JStr expected)].

(** The body of a run request. *)
Definition runBody (mode : string) (visible hiddenCases : list json) : json :=
  JObj [(lit "code", JStr (lit "export function solve(x) { return x + 2; }"));
        (lit "language", JStr (lit "JavaScript"));
        (lit "testCases", JArr visible);
        (lit "hiddenTestCases", JArr hiddenCases);
        (lit "mode", JStr (lit mode))].

Definition request (b : json) : Request :=
  mkRequest (Some (lit "203.0.113.9, 10.0.0.1")) None (Some b).

Definition world0 : World := mkWorld ∅ 1000 [].

(** A reply of the model: one question with a single hint, a starter
    code in the wrong language and no test cases. *)
Definition modelReply : jsstring :=
  tq "{`questions`:[{`title`:`Sum`,`hints`:[`Add them.`],`difficulty`:`ADVANCED`,`starterCode`:`def solve(x): pass`,`testCases`:[]}]}".

Definition generateRequest : Request :=
  request (JObj [(lit "docsUrl", JStr (lit "https://example.com/docs"));
                 (lit "language", JStr (lit "typescript"))]).

Definition job0 : Run.Job :=
  Run.mkJob (lit "export function solve(x) { return x + 2; }") (JStr (lit "solve"))
    (JStr (lit "run")) 1 (mkRuntime (lit "javascript") (lit "18.15.0")).

End Demo.
(** * Part II: properties *)

Arguments isWhiteSpace : simpl never.
Arguments isJsonWs : simpl never.
Arguments isDigit : simpl never.

(** ** Strings *)

Lemma str_eqb_eq a b : str_eqb a b = true <-> a = b.
Proof. unfold str_eqb. apply bool_decide_eq_true. Qed.

Lemma str_eqb_neq a b : str_eqb a b = false <-> a <> b.
Proof. unfold str_eqb. apply bool_decide_eq_false. Qed.

(** ** The rate limiter *)

Section LimiterFacts.
Import Limiter.

Lemma gtb_false a b : a <= b -> (a >? b) = false.
Proof. intros. rewrite Z.gtb_ltb. apply Z.ltb_ge. lia. Qed.

Lemma gtb_true a b : b < a -> (a >? b) = true.
Proof. intros. rewrite Z.gtb_ltb. apply Z.ltb_lt. lia. Qed.

Lemma rateLimit_bucket (buckets : Buckets) now key limit W :
  exists b,
    (rateLimit buckets now key limit W).2 !! key = Some b /\
    (rateLimit buckets now key limit W).1 =
      mkRate (count b <=? limit) (Z.max 0 (limit - count b)) (resetAt b).
Proof.
  unfold rateLimit; cbn [fst snd].
  eexists; split; [apply lookup_insert_eq | reflexivity].
Qed.

(** Inside the window the stored count goes up by one and the window end
    stays. *)
Lemma rateLimit_in_window (buckets : Buckets) now key limit W b :
  buckets !! key = Some b -> now <= resetAt b ->
  rateLimit buckets now key limit W =
    (mkRate (count b + 1 <=? limit) (Z.max 0 (limit - (count b + 1))) (resetAt b),
     <[key := mkBucket (count b + 1) (resetAt b)]> buckets).
Proof.
  intros Hb Hnow. unfold rateLimit. rewrite Hb, gtb_false by lia. reflexivity.
Qed.

(** Past the window end the count restarts at one and a new window
    opens. *)
Lemma rateLimit_expired (buckets : Buckets) now key limit W b :
  buckets !! key = Some b -> resetAt b < now ->
  rateLimit buckets now key limit W =
    (mkRate (1 <=? limit) (Z.max 0 (limit - 1)) (now + W),
     <[key := mkBucket 1 (now + W)]> buckets).
Proof.
  intros Hb Hnow. unfold rateLimit. rewrite Hb, gtb_true by lia. reflexivity.
Qed.

(** A key never seen before starts a window at the time of the call. *)
Lemma rateLimit_fresh (buckets : Buckets) now key limit W :
  buckets !! key = None ->
  rateLimit buckets now key limit W =
    (mkRate (1 <=? limit) (Z.max 0 (limit - 1)) (now + W),
     <[key := mkBucket 1 (now + W)]> buckets).
Proof.
  intros Hb. unfold rateLimit. rewrite Hb. cbn [count resetAt].
  destruct (now >? now + W); reflexivity.
Qed.

Lemma calls_length key L W ts : forall (buckets : Buckets) rs b',
  calls buckets key L W ts = (rs, b') -> length rs = length ts.
Proof.
  induction ts as [|t ts IH]; intros bk rs b' E; cbn [calls] in E.
  - injection E as <- <-. reflexivity.
  - destruct (rateLimit bk t key L W) as [r0 bk0].
    destruct (calls bk0 key L W ts) as [rs2 b2] eqn:E2.
    injection E as <- <-. cbn. f_equal. eapply IH; eauto.
Qed.

(** A run of calls that all fall inside the open window. *)
Lemma calls_in_window key L W ts : forall (buckets : Buckets) n R rs b',
  buckets !! key = Some (mkBucket n R) ->
  Forall (fun t => t <= R) ts ->
  calls buckets key L W ts = (rs, b') ->
  b' !! key = Some (mkBucket (n + Z.of_nat (length ts)) R) /\
  forall i r, rs !! i = Some r ->
    r = mkRate (n + Z.of_nat i + 1 <=? L)
               (Z.max 0 (L - (n + Z.of_nat i + 1))) R.
Proof.
  induction ts as [|t ts IH]; intros buckets n R rs b' Hb Hts Hc.
  - cbn [calls] in Hc. injection Hc as <- <-. split.
    + rewrite Hb. do 2 f_equal. cbn. lia.
    + intros i r Hi. destruct i; discriminate Hi.
  - inversion Hts as [|? ? Ht Hts']; subst.
    cbn [calls] in Hc.
    rewrite (rateLimit_in_window _ _ _ _ _ _ Hb Ht) in Hc. cbn [count resetAt] in Hc.
    destruct (calls _ key L W ts) as [rs1 b1] eqn:E.
    injection Hc as <- <-.
    destruct (IH _ (n + 1) R rs1 b1 (lookup_insert_eq _ _ _) Hts' E) as [Hb1 Hrs].
    split.
    + rewrite Hb1. do 2 f_equal. cbn [length]. lia.
    + intros [|i] r Hi.
      * cbn in Hi. injection Hi as <-. do 2 f_equal; lia.
      * cbn in Hi. rewrite (Hrs _ _ Hi). do 2 f_equal; lia.
Qed.

Lemma runKey_genKey ip ip' : runKey ip <> genKey ip'.
Proof.
  unfold runKey, genKey.
  change (lit "run:") with [114; 117; 110; 58]%N.
  change (lit "gen:") with [103; 101; 110; 58]%N.
  cbn. congruence.
Qed.

Lemma runKey_inj ip ip' : runKey ip = runKey ip' -> ip = ip'.
Proof. unfold runKey. apply app_inv_head. Qed.

Lemma genKey_inj ip ip' : genKey ip = genKey ip' -> ip = ip'.
Proof. unfold genKey. apply app_inv_head. Qed.

(** C5.  Every call stores the key's count incremented by one, whatever
    the verdict, and answers [allowed = (count <= limit)],
    [remaining = max 0 (limit - count)] and the bucket's [resetAt].  For a
    key without a bucket, a first call at time [t1] followed by calls at
    times inside the window it opens ([<= t1 + W]): the call number [i+1]
    is allowed exactly when [i + 1 <= L], so the first [L] calls are
    allowed and the call number [L+1] is refused; and for a limit of at
    least one, the first call strictly after [resetAt] is allowed again,
    with the count back at 1. *)
Theorem rateLimit_fixed_window :
  (forall (buckets : Buckets) now key limit W,
     let before :=
       match buckets !! key with
       | Some b0 => if now >? resetAt b0 then 0 else count b0
       | None => 0
       end in
     exists b,
       (rateLimit buckets now key limit W).2 !! key = Some b /\
       count b = before + 1 /\
       (rateLimit buckets now key limit W).1 =
         mkRate (count b <=? limit) (Z.max 0 (limit - count b)) (resetAt b)) /\
  (forall (buckets : Buckets) key L W t1 ts,
     buckets !! key = None ->
     Forall (fun t => t <= t1 + W) ts ->
     let rs := (calls buckets key L W (t1 :: ts)).1 in
     let after := (calls buckets key L W (t1 :: ts)).2 in
     length rs = S (length ts) /\
     (forall i r, rs !! i = Some r ->
        allowed r = (Z.of_nat i + 1 <=? L) /\
        remaining r = Z.max 0 (L - (Z.of_nat i + 1)) /\
        rl_resetAt r = t1 + W) /\
     (forall i r, rs !! i = Some r -> Z.of_nat i < L -> allowed r = true) /\
     (forall i r, rs !! i = Some r -> Z.of_nat i = L -> allowed r = false) /\
     (forall t', t1 + W < t' -> 1 <= L ->
        allowed (rateLimit after t' key L W).1 = true /\
        (rateLimit after t' key L W).2 !! key = Some (mkBucket 1 (t' + W)))).
Proof.
  split.
  - intros buckets now key limit W before.
    unfold rateLimit; cbn [fst snd]. eexists; split; [apply lookup_insert_eq|].
    split; [|reflexivity]. subst before.
    destruct (buckets !! key) as [b0|]; cbn [count resetAt].
    + destruct (now >? resetAt b0); reflexivity.
    + destruct (now >? now + W); reflexivity.
  - intros buckets key L W t1 ts Hfresh Hts rs after.
    subst rs after. cbn [calls].
    rewrite (rateLimit_fresh _ _ _ _ _ Hfresh).
    destruct (calls _ key L W ts) as [rs1 b1] eqn:E. cbn [fst snd].
    destruct (calls_in_window _ _ _ _ _ 1 (t1 + W) rs1 b1
                (lookup_insert_eq _ _ _) Hts E) as [Hb1 Hrs].
    assert (Hall : forall i r, (mkRate (1 <=? L) (Z.max 0 (L - 1)) (t1 + W) :: rs1) !! i = Some r ->
        allowed r = (Z.of_nat i + 1 <=? L) /\
        remaining r = Z.max 0 (L - (Z.of_nat i + 1)) /\
        rl_resetAt r = t1 + W).
    { intros [|i] r Hi; cbn in Hi.
      - injection Hi as <-. cbn. auto.
      - rewrite (Hrs _ _ Hi). cbn [allowed remaining rl_resetAt].
        repeat split; do 2 f_equal; lia. }
    split; [|split; [exact Hall|split; [|split]]].
    + cbn [length]. f_equal. rewrite <- (calls_length _ _ _ _ _ _ _ E). reflexivity.
    + intros i r Hi Hlt. destruct (Hall _ _ Hi) as [-> _]. apply Z.leb_le. lia.
    + intros i r Hi Hlt. destruct (Hall _ _ Hi) as [-> _]. apply Z.leb_gt. lia.
    + intros t' Ht' HL.
      rewrite (rateLimit_expired _ _ _ _ _ _ Hb1) by (cbn; lia).
      cbn [fst snd allowed]. split; [apply Z.leb_le; lia | apply lookup_insert_eq].
Qed.

Lemma rateLimit_fixed_window_witness :
  let buckets : Buckets := ∅ in
  let key := runKey (lit "10.0.0.7") in
  let after := (calls buckets key 2 1000 [5; 20; 900]).2 in
  allowed (rateLimit after 1006 key 2 1000).1 = true /\
  (rateLimit after 1006 key 2 1000).2 !! key = Some (mkBucket 1 2006).
Proof.
  intros buckets key after.
  destruct rateLimit_fixed_window as [_ H].
  destruct (H buckets key 2 1000 5 [20; 900]) as (_ & _ & _ & _ & Hlast).
  - reflexivity.
  - repeat constructor; lia.
  - apply (Hlast 1006); lia.
Defined.

(** C10.  A call under key [k] leaves the bucket of every other key [k']
    as it was, count and window end alike.  The keys of the two gateways
    never coincide and differ when the client addresses differ, so a run
    request never touches a generation bucket, nor the bucket of another
    client. *)
Theorem rateLimit_frame :
  (forall (buckets : Buckets) now k k' limit W,
     k' <> k ->
     (rateLimit buckets now k limit W).2 !! k' = buckets !! k') /\
  (forall (buckets : Buckets) now ip ip' limit W,
     (rateLimit buckets now (runKey ip) limit W).2 !! genKey ip' =
       buckets !! genKey ip' /\
     (rateLimit buckets now (genKey ip) limit W).2 !! runKey ip' =
       buckets !! runKey ip').
Proof.
  assert (F : forall (buckets : Buckets) now k k' limit W,
     k' <> k ->
     (rateLimit buckets now k limit W).2 !! k' = buckets !! k').
  { intros. unfold rateLimit; cbn [snd]. apply lookup_insert_ne. congruence. }
  split; [exact F|].
  intros. split; apply F.
  - intros E. symmetry in E. exact (runKey_genKey _ _ E).
  - apply runKey_genKey.
Qed.

Lemma rateLimit_frame_witness :
  let buckets : Buckets := <[genKey (lit "10.0.0.7") := mkBucket 9 5000]> ∅ in
  (rateLimit buckets 100 (runKey (lit "10.0.0.7")) 30 300000).2
     !! genKey (lit "10.0.0.7") = Some (mkBucket 9 5000).
Proof.
  intros buckets.
  destruct rateLimit_frame as [H _].
  rewrite (H buckets 100 (runKey (lit "10.0.0.7")) (genKey (lit "10.0.0.7")) 30 300000).
  - reflexivity.
  - intros E. symmetry in E. exact (runKey_genKey _ _ E).
Defined.

End LimiterFacts.

(** ** Trimming *)

Lemma trimStart_nil_iff s : trimStart s = [] <-> forallb isWhiteSpace s = true.
Proof.
  induction s as [|c r IH]; cbn; [tauto|].
  destruct (isWhiteSpace c); cbn; [exact IH|]. split; discriminate.
Qed.

Lemma trimStart_head s c r : trimStart s = c :: r -> isWhiteSpace c = false.
Proof.
  induction s as [|a s IH]; cbn; [discriminate|].
  destruct (isWhiteSpace a) eqn:E; [exact IH|]. congruence.
Qed.

Lemma trimStart_id c r : isWhiteSpace c = false -> trimStart (c :: r) = c :: r.
Proof. intros H. cbn. rewrite H. reflexivity. Qed.

Lemma trimStart_idem s : trimStart (trimStart s) = trimStart s.
Proof.
  destruct (trimStart s) as [|c r] eqn:E; [reflexivity|].
  apply trimStart_id. eapply trimStart_head; eauto.
Qed.

Lemma forallb_rev {A} (f : A -> bool) l : forallb f (rev l) = forallb f l.
Proof.
  induction l as [|a l IH]; cbn; [reflexivity|].
  rewrite forallb_app, IH. cbn. rewrite andb_true_r. apply andb_comm.
Qed.

(** Trimming a string leaves nothing exactly when it is empty or made of
    white space only. *)
Lemma trim_nil_iff s : trim s = [] <-> forallb isWhiteSpace s = true.
Proof.
  unfold trim, trimEnd. split.
  - intros H. apply (f_equal (@rev N)) in H. rewrite rev_involutive in H. cbn in H.
    apply trimStart_nil_iff in H. rewrite forallb_rev in H.
    destruct (trimStart s) as [|c r] eqn:E; [apply trimStart_nil_iff; exact E|].
    cbn in H. apply andb_true_iff in H. destruct H as [H _].
    rewrite (trimStart_head _ _ _ E) in H. discriminate.
  - intros H. apply trimStart_nil_iff in H. rewrite H. reflexivity.
Qed.

(** The first character that survives trimming is not white space. *)
Lemma trim_head s c r : trim s = c :: r -> isWhiteSpace c = false.
Proof.
  unfold trim, trimEnd. intros H.
  destruct (trimStart s) as [|a t] eqn:E; [discriminate H|].
  pose proof (trimStart_head _ _ _ E) as Ha.
  (* the end trimming removes a suffix of [a :: t] and keeps [a] *)
  assert (G : forall u, isWhiteSpace a = false ->
            forall c' r', rev (trimStart (rev (a :: u))) = c' :: r' -> c' = a).
  { clear. intros u Ha. induction u as [|x u IH] using rev_ind; intros c' r' H.
    - cbn in H. rewrite Ha in H. cbn in H. congruence.
    - change (a :: u ++ [x]) with ((a :: u) ++ [x]) in H.
      rewrite rev_app_distr in H. cbn [rev app] in H.
      cbn [trimStart] in H. destruct (isWhiteSpace x).
      + eapply IH. exact H.
      + cbn [rev] in H. rewrite rev_app_distr in H. cbn in H. congruence. }
  rewrite (G t Ha c r H). exact Ha.
Qed.

Lemma trimEnd_id s c : isWhiteSpace c = false -> trimEnd (s ++ [c]) = s ++ [c].
Proof.
  intros H. unfold trimEnd. rewrite rev_app_distr. cbn. rewrite H.
  cbn. rewrite rev_involutive. reflexivity.
Qed.

Lemma trimEnd_idem s : trimEnd (trimEnd s) = trimEnd s.
Proof.
  unfold trimEnd. rewrite rev_involutive, trimStart_idem. reflexivity.
Qed.

(** Trimming the end keeps the first character when it is not white
    space. *)
Lemma trimEnd_cons_head a u :
  isWhiteSpace a = false -> exists u', trimEnd (a :: u) = a :: u'.
Proof.
  intros Ha. induction u as [|x u IH] using rev_ind.
  - exists []. unfold trimEnd. cbn. rewrite Ha. reflexivity.
  - change (a :: u ++ [x]) with ((a :: u) ++ [x]).
    destruct (isWhiteSpace x) eqn:Ex.
    + destruct IH as [u' IH]. exists u'. rewrite <- IH.
      unfold trimEnd. rewrite rev_app_distr. cbn [rev app trimStart].
      rewrite Ex. reflexivity.
    + exists (u ++ [x]). apply (trimEnd_id (a :: u)). exact Ex.
Qed.

(** [trim] is idempotent. *)
Lemma trim_idem s : trim (trim s) = trim s.
Proof.
  unfold trim at 2 3.
  destruct (trimStart s) as [|a t] eqn:E; [reflexivity|].
  pose proof (trimStart_head _ _ _ E) as Ha.
  destruct (trimEnd_cons_head a t Ha) as [u' Hu].
  unfold trim. rewrite Hu, (trimStart_id _ _ Ha), <- Hu. apply trimEnd_idem.
Qed.

(** A string that neither starts nor ends with white space is its own
    trimming. *)
Lemma trim_fixed s :
  (forall c r, s = c :: r -> isWhiteSpace c = false) ->
  (forall c r, rev s = c :: r -> isWhiteSpace c = false) ->
  trim s = s.
Proof.
  intros Hh Hl. unfold trim.
  destruct s as [|a t]; [reflexivity|].
  rewrite (trimStart_id _ _ (Hh _ _ eq_refl)).
  unfold trimEnd. destruct (rev (a :: t)) as [|z r] eqn:E.
  - apply (f_equal (@rev N)) in E. rewrite rev_involutive in E. discriminate.
  - rewrite (trimStart_id _ _ (Hl _ _ eq_refl)), <- E. apply rev_involutive.
Qed.

(** ** The docs-URL validator *)

Section GuardFacts.
Context `{Platform}.
Import Guard.

Lemma gtb_length_false (s : jsstring) n :
  (length s <= n)%nat -> (Z.of_nat (length s) >? Z.of_nat n) = false.
Proof. intros. apply gtb_false. lia. Qed.

(** C6.  [validateDocsUrl] applies its rules in order, the first failing
    one deciding the error: a value that is not a string; a string that
    is empty or white space only; a trimmed length above 600; a trimmed
    string the URL parser rejects; a protocol other than [http:] and
    [https:].  An input that passes all five is valid with the trimmed
    string as value, and only such inputs are valid. *)
Theorem validateDocsUrl_rules (d : jsval) :
  ((forall s, d <> Some (JStr s)) ->
     validateDocsUrl d = Invalid (lit "docsUrl must be a string")) /\
  (forall s, d = Some (JStr s) ->
     (forallb isWhiteSpace s = true ->
        validateDocsUrl d = Invalid (lit "docsUrl is required")) /\
     (forallb isWhiteSpace s = false ->
        (600 < length (trim s))%nat ->
        validateDocsUrl d = Invalid (lit "docsUrl is too long")) /\
     (forallb isWhiteSpace s = false ->
        (length (trim s) <= 600)%nat ->
        protocolOf (trim s) = None ->
        validateDocsUrl d = Invalid (lit "docsUrl must be a valid URL")) /\
     (forall p,
        forallb isWhiteSpace s = false ->
        (length (trim s) <= 600)%nat ->
        protocolOf (trim s) = Some p ->
        p <> lit "http:" -> p <> lit "https:" ->
        validateDocsUrl d =
          Invalid (lit "docsUrl must start with http:// or https://")) /\
     (forall p,
        forallb isWhiteSpace s = false ->
        (length (trim s) <= 600)%nat ->
        protocolOf (trim s) = Some p ->
        p = lit "http:" \/ p = lit "https:" ->
        validateDocsUrl d = Valid (trim s))) /\
  (forall v, validateDocsUrl d = Valid v ->
     exists s p, d = Some (JStr s) /\ v = trim s /\
       forallb isWhiteSpace s = false /\ (length (trim s) <= 600)%nat /\
       protocolOf (trim s) = Some p /\ (p = lit "http:" \/ p = lit "https:")).
Proof.
  split; [|split].
  - intros Hns. destruct d as [[| | |s| |]|]; try reflexivity.
    destruct (Hns s eq_refl).
  - intros s ->. cbn [validateDocsUrl].
    assert (Hblank : forallb isWhiteSpace s = false -> str_eqb (trim s) [] = false).
    { intros Hw. apply str_eqb_neq. intros E. apply trim_nil_iff in E. congruence. }
    assert (Hlen : (length (trim s) <= 600)%nat ->
                   (Z.of_nat (length (trim s)) >? 600) = false).
    { intros. apply gtb_false. lia. }
    repeat split.
    + intros Hw. apply trim_nil_iff in Hw. rewrite Hw. reflexivity.
    + intros Hw Hl. rewrite (Hblank Hw), gtb_true by lia. reflexivity.
    + intros Hw Hl Hp. rewrite (Hblank Hw), (Hlen Hl), Hp. reflexivity.
    + intros p Hw Hl Hp H1 H2. rewrite (Hblank Hw), (Hlen Hl), Hp.
      apply str_eqb_neq in H1, H2. rewrite H1, H2. reflexivity.
    + intros p Hw Hl Hp [-> | ->]; rewrite (Hblank Hw), (Hlen Hl), Hp; reflexivity.
  - intros v Hv. destruct d as [[| | |s| |]|]; try discriminate Hv.
    cbn [validateDocsUrl] in Hv.
    destruct (str_eqb (trim s) []) eqn:Eb; [discriminate|].
    destruct (Z.of_nat (length (trim s)) >? 600) eqn:El; [discriminate|].
    destruct (protocolOf (trim s)) as [p|] eqn:Ep; [|discriminate].
    destruct (str_eqb p (lit "http:")) eqn:E1;
      [|destruct (str_eqb p (lit "https:")) eqn:E2; [|discriminate]];
      cbn in Hv; injection Hv as <-; exists s, p;
      (split; [reflexivity|split; [reflexivity|]]).
    all: assert (Hw : forallb isWhiteSpace s = false)
      by (destruct (forallb isWhiteSpace s) eqn:Ew; [|reflexivity];
          apply trim_nil_iff in Ew; apply str_eqb_neq in Eb; contradiction).
    all: assert (Hl : (length (trim s) <= 600)%nat)
      by (rewrite Z.gtb_ltb in El; apply Z.ltb_ge in El; lia).
    + repeat split; auto. left. apply str_eqb_eq. exact E1.
    + repeat split; auto. right. apply str_eqb_eq. exact E2.
Qed.

End GuardFacts.

Lemma validateDocsUrl_rules_witness :
  @Guard.validateDocsUrl (Demo.platform [] None)
     (Some (JStr (lit "  https://example.com/docs ")))
    = Guard.Valid (lit "https://example.com/docs") /\
  @Guard.validateDocsUrl (Demo.platform [] None) (Some (JStr (lit "ftp://x.com")))
    = Guard.Invalid (lit "docsUrl must start with http:// or https://") /\
  @Guard.validateDocsUrl (Demo.platform [] None) (Some (JStr (lit "not a url")))
    = Guard.Invalid (lit "docsUrl must be a valid URL") /\
  @Guard.validateDocsUrl (Demo.platform [] None) (Some (JNum (FFin false 123 0)))
    = Guard.Invalid (lit "docsUrl must be a string").
Proof.
  split; [|split; [|split]].
  - destruct (@validateDocsUrl_rules (Demo.platform [] None)
                (Some (JStr (lit "  https://example.com/docs ")))) as (_ & H & _).
    destruct (H _ eq_refl) as (_ & _ & _ & _ & Hv).
    apply (Hv (lit "https:")); [reflexivity | vm_compute; lia | reflexivity | right; reflexivity].
  - destruct (@validateDocsUrl_rules (Demo.platform [] None)
                (Some (JStr (lit "ftp://x.com")))) as (_ & H & _).
    destruct (H _ eq_refl) as (_ & _ & _ & Hv & _).
    apply (Hv (lit "ftp:")); [reflexivity | vm_compute; lia | reflexivity | discriminate | discriminate].
  - destruct (@validateDocsUrl_rules (Demo.platform [] None)
                (Some (JStr (lit "not a url")))) as (_ & H & _).
    destruct (H _ eq_refl) as (_ & _ & Hv & _).
    apply Hv; [reflexivity | vm_compute; lia | reflexivity].
  - destruct (@validateDocsUrl_rules (Demo.platform [] None)
                (Some (JNum (FFin false 123 0)))) as (Hv & _).
    apply Hv. discriminate.
Defined.

(** ** The workbench page *)

Section WorkbenchFacts.
Import Workbench.

(** The marker the page looks for in a starter code: [def solve] when
    the selected language is Python, [export function solve] or
    [function solve] otherwise. *)
Let marker (lang s : jsstring) : bool :=
  if str_eqb lang (lit "python") then includes (lit "def solve") s
  else includes (lit "export function solve") s || includes (lit "function solve") s.

Lemma starterMatchesLanguage_string s lang :
  starterMatchesLanguage (Some (JStr s)) lang = Ok (marker lang s).
Proof.
  unfold starterMatchesLanguage, marker. cbn [truthy].
  destruct (str_eqb s []) eqn:E; cbn [negb rbind ToStringV ToString].
  - apply str_eqb_eq in E. subst s. reflexivity.
  - reflexivity.
Qed.

(** C8.  When the current exercise or the language changes, the effect
    sets the editor text: for an exercise whose starter code is the
    string [s], to [s] itself exactly when [s] carries the marker of the
    selected language and is not blank, and to the default scaffold of the
    language otherwise; an exercise without starter code gets the default
    scaffold.  In particular under Python a starter without [def solve],
    such as the JavaScript scaffold, gives the Python scaffold, and a
    starter with [def solve] is used verbatim. *)
Theorem starterEffect_language_gate (current : jsval) (lang : jsstring) :
  truthy current = true ->
  (forall s, getPropOpt current (lit "starterCode") = Some (JStr s) ->
     starterEffect current lang =
       Ok (Some (if marker lang s && negb (str_eqb (trim s) [])
                 then s else defaultStarter lang))) /\
  (getPropOpt current (lit "starterCode") = None \/
   getPropOpt current (lit "starterCode") = Some JNull ->
     starterEffect current lang = Ok (Some (defaultStarter lang))) /\
  (forall s, getPropOpt current (lit "starterCode") = Some (JStr s) ->
     lang = lit "python" ->
     (includes (lit "def solve") s = false ->
        starterEffect current lang = Ok (Some (defaultStarter (lit "python")))) /\
     (includes (lit "def solve") s = true ->
        starterEffect current lang = Ok (Some s))).
Proof.
  intros Ht.
  assert (Hs : forall s, getPropOpt current (lit "starterCode") = Some (JStr s) ->
     starterEffect current lang =
       Ok (Some (if marker lang s && negb (str_eqb (trim s) [])
                 then s else defaultStarter lang))).
  { intros s Hsc. unfold starterEffect. rewrite Ht, Hsc. cbn [negb truthy].
    destruct (str_eqb s []) eqn:E; cbn [negb].
    - apply str_eqb_eq in E. subst s.
      rewrite starterMatchesLanguage_string. cbn [rbind].
      replace (marker lang []) with false
        by (unfold marker; destruct (str_eqb lang (lit "python")); reflexivity).
      reflexivity.
    - rewrite starterMatchesLanguage_string. cbn [rbind].
      destruct (marker lang s); [|reflexivity].
      cbn [andb]. destruct (str_eqb (trim s) []); reflexivity. }
  split; [exact Hs|split].
  - intros Habs. unfold starterEffect. rewrite Ht. cbn [negb].
    assert (E : truthy (getPropOpt current (lit "starterCode")) = false)
      by (destruct Habs as [-> | ->]; reflexivity).
    rewrite E. rewrite starterMatchesLanguage_string. cbn [rbind].
    replace (marker lang []) with false
      by (unfold marker; destruct (str_eqb lang (lit "python")); reflexivity).
    reflexivity.
  - intros s Hsc ->. rewrite (Hs s Hsc). unfold marker.
    change (str_eqb (lit "python") (lit "python")) with true. cbn iota.
    split; intros Hm; rewrite Hm; [reflexivity|].
    cbn [andb]. destruct (str_eqb (trim s) []) eqn:E; [|reflexivity].
    exfalso. apply str_eqb_eq, trim_nil_iff in E.
    (* a blank string has no letter [d] *)
    clear -Hm E. induction s as [|c r IH]; [discriminate Hm|].
    cbn [forallb] in E. apply andb_true_iff in E. destruct E as [Ec Er].
    cbn [includes] in Hm. apply orb_true_iff in Hm. destruct Hm as [Hm|Hm].
    + change (lit "def solve") with (100%N :: lit "ef solve") in Hm.
      cbn [startsWith] in Hm. apply andb_true_iff in Hm. destruct Hm as [Hd _].
      apply N.eqb_eq in Hd. subst c. discriminate Ec.
    + auto.
Qed.

End WorkbenchFacts.

Lemma starterEffect_language_gate_witness :
  let js := JObj [(lit "starterCode", JStr (Workbench.defaultStarter (lit "javascript")))] in
  let py := JObj [(lit "starterCode", JStr (lit "def solve(input): return 1"))] in
  Workbench.starterEffect (Some js) (lit "python")
    = Ok (Some (Workbench.defaultStarter (lit "python"))) /\
  Workbench.starterEffect (Some py) (lit "python")
    = Ok (Some (lit "def solve(input): return 1")).
Proof.
  intros js py. split.
  - destruct (starterEffect_language_gate (Some js) (lit "python") eq_refl) as (_ & _ & H).
    destruct (H _ eq_refl eq_refl) as [H1 _]. apply H1. reflexivity.
  - destruct (starterEffect_language_gate (Some py) (lit "python") eq_refl) as (_ & _ & H).
    destruct (H _ eq_refl eq_refl) as [_ H2]. apply H2. reflexivity.
Defined.

(** ** The execution gateway: one case *)

Section RunFacts.
Context `{Platform}.
Import Run.

Ltac case_steps :=
  repeat match goal with
  | |- context [match ToString ?x with _ => _ end] =>
      destruct (ToString x) eqn:?
  | |- context [if ?b then _ else _] =>
      lazymatch b with
      | Z.gtb _ _ => destruct b eqn:?
      end
  | |- context [match JSON_parse ?x with _ => _ end] =>
      destruct (JSON_parse x) eqn:?
  | |- context [let '(_, _) := runOnPiston ?r ?p ?w in _] =>
      destruct (runOnPiston r p w) as [[?|?] ?] eqn:?
  | |- context [match trimmedStream ?x with _ => _ end] =>
      destruct (trimmedStream x) eqn:?
  end.

(** Every entry the loop body pushes carries the name, the expected
    output and the hidden flag computed at the top of the body. *)
Lemma runCase_header job i item w r w' :
  runCase job i item w = (Ok r, w') ->
  name r = nullish (getProp (caseObject item) (lit "name")) (JStr (caseLabel "Case " i)) /\
  ToString (nullish (getProp (caseObject item) (lit "expectedOutput")) (JStr []))
    = Ok (expectedOutput r) /\
  hidden r = isSubmit (mode job) && (visibleCount job <=? i)%nat.
Proof.
  unfold runCase. case_steps; intros E; inversion E; subst; cbn; auto.
Qed.

(** The world after a case: the clock and the log only grow by what the
    sandbox did, and at most one call is made. *)
Lemma runCase_calls job i item w res w' :
  runCase job i item w = (res, w') ->
  sandboxCalls w' = sandboxCalls w \/
  exists program, sandboxCalls w' = sandboxCalls w ++ [(runtime job, program)].
Proof.
  unfold runCase.
  case_steps; intros E; inversion E; subst; auto; right;
    match goal with
    | Hr : runOnPiston _ ?p _ = _ |- _ =>
        exists p; unfold runOnPiston in Hr;
        destruct (sandbox _ _ _); inversion Hr; reflexivity
    end.
Qed.


(** C4.  A case whose input string is longer than 4000 characters, or
    is no longer than that and is not valid JSON, gets the failed entry
    with [passed = false], [exitCode = 1], [runtimeMs = 0] and the
    matching [stderr]; the world, and with it the log of sandbox calls,
    is left as it was; and the loop goes on with the cases that follow,
    so that a request whose cases raise no exception gets one entry per
    executed case. *)
Theorem runCase_input_rejected job i item w input expected :
  ToString (nullish (getProp (caseObject item) (lit "input")) (JStr (lit "null")))
    = Ok input ->
  ToString (nullish (getProp (caseObject item) (lit "expectedOutput")) (JStr []))
    = Ok expected ->
  let name := nullish (getProp (caseObject item) (lit "name")) (JStr (caseLabel "Case " i)) in
  let hid := isSubmit (mode job) && (visibleCount job <=? i)%nat in
  let failure msg := mkResult name false expected [] msg (numZ 1) 0 hid in
  (4000 < Z.of_nat (length input) ->
     runCase job i item w = (Ok (failure (lit "Input too large.")), w) /\
     forall rest t,
       runLoop job i (item :: rest) t w =
       runLoop job (S i) rest (push (failure (lit "Input too large.")) t) w) /\
  (Z.of_nat (length input) <= 4000 -> JSON_parse input = None ->
     runCase job i item w =
       (Ok (failure (lit "Testcase input is not valid JSON.")), w) /\
     forall rest t,
       runLoop job i (item :: rest) t w =
       runLoop job (S i) rest
         (push (failure (lit "Testcase input is not valid JSON.")) t) w) /\
  (forall cases t t' w', runLoop job i cases t w = (Ok t', w') ->
     length (results t') = (length (results t) + length cases)%nat).
Proof.
  intros Hi He name hid failure.
  split; [|split].
  - intros Hlen.
    assert (E : runCase job i item w = (Ok (failure (lit "Input too large.")), w)).
    { unfold runCase. rewrite Hi, He. unfold MAX_INPUT_CHARS.
      rewrite gtb_true by lia. reflexivity. }
    split; [exact E|]. intros rest t. cbn [runLoop]. rewrite E. reflexivity.
  - intros Hlen Hparse.
    assert (E : runCase job i item w =
                (Ok (failure (lit "Testcase input is not valid JSON.")), w)).
    { unfold runCase. rewrite Hi, He. unfold MAX_INPUT_CHARS.
      rewrite gtb_false by lia. rewrite Hparse. reflexivity. }
    split; [exact E|]. intros rest t. cbn [runLoop]. rewrite E. reflexivity.
  - clear. intros cases. revert i w.
    induction cases as [|c cases IH]; intros i w t t' w' E; cbn [runLoop] in E.
    + injection E as <- <-. cbn. lia.
    + destruct (runCase job i c w) as [[r|e] w1]; [|discriminate E].
      apply IH in E. rewrite E. unfold push. cbn [results].
      rewrite length_app. cbn. lia.
Qed.


(** What the loop leaves behind when no case raises an exception: one
    entry per case, in order, and the number of passed entries. *)
Lemma runLoop_entries job cases : forall i t w t' w',
  runLoop job i cases t w = (Ok t', w') ->
  exists rs,
    results t' = results t ++ rs /\
    length rs = length cases /\
    passedCount t' = passedCount t + Z.of_nat (length (List.filter passed rs)) /\
    forall k r, rs !! k = Some r ->
      exists item wa wb,
        cases !! k = Some item /\ runCase job (i + k) item wa = (Ok r, wb).
Proof.
  induction cases as [|c cases IH]; intros i t w t' w' E; cbn [runLoop] in E.
  - injection E as <- <-. exists []. rewrite app_nil_r. cbn.
    repeat split; [lia|]. intros k r Hk. destruct k; discriminate Hk.
  - destruct (runCase job i c w) as [[r0|e] w1] eqn:Ec; [|discriminate E].
    destruct (IH _ _ _ _ _ E) as (rs & Hres & Hlen & Hpc & Hk).
    exists (r0 :: rs). unfold push in Hres, Hpc. cbn [results passedCount] in Hres, Hpc.
    repeat split.
    + rewrite Hres, <- app_assoc. reflexivity.
    + cbn. lia.
    + rewrite Hpc. cbn [List.filter]. destruct (passed r0); cbn [length]; lia.
    + intros [|k] r Hr; cbn in Hr.
      * injection Hr as <-. exists c, w, w1. rewrite Nat.add_0_r. auto.
      * destruct (Hk _ _ Hr) as (item & wa & wb & Hi & Hrun).
        exists item, wa, wb. split; [exact Hi|].
        replace (i + S k)%nat with (S i + k)%nat by lia. exact Hrun.
Qed.

(** C3.  A request answered with status 200 carries a report.  In submit
    mode the cases are the visible ones followed by the hidden ones, in
    any other mode (run is the default) the visible ones alone; the first
    twelve of them are processed, in order, one entry each; the entry at
    index [i] is hidden exactly in submit mode with [i] at least the
    number of visible cases; [total] is the number of entries and
    [allPassed] says that [passedCount], the number of passed entries,
    equals [total]. *)
Theorem POST_case_selection req w resp w' :
  POST req w = (resp, w') ->
  status resp = 200 ->
  exists b m pc total allp ms rs,
    jsonBody req = Some b /\
    body resp = Report m pc total allp ms rs /\
    let bo := if truthy (Some b) then b else JObj [] in
    let visible := arrayOrEmpty (getProp bo (lit "testCases")) in
    let hiddenCases := arrayOrEmpty (getProp bo (lit "hiddenTestCases")) in
    let casesToRun := if isSubmit m then visible ++ hiddenCases else visible in
    m = match getProp bo (lit "mode") with
        | None => JStr (lit "run")
        | Some v => v
        end /\
    (m = JStr (lit "run") ->
       length rs = Nat.min (length visible) 12 /\
       forall i r, rs !! i = Some r -> hidden r = false) /\
    (m = JStr (lit "submit") ->
       length rs = Nat.min (length visible + length hiddenCases) 12 /\
       forall i r, rs !! i = Some r ->
         hidden r = (length visible <=? i)%nat) /\
    (forall i r, rs !! i = Some r ->
       exists item, casesToRun !! i = Some item /\
         name r = nullish (getProp (caseObject item) (lit "name"))
                          (JStr (caseLabel "Case " i)) /\
         ToString (nullish (getProp (caseObject item) (lit "expectedOutput")) (JStr []))
           = Ok (expectedOutput r)) /\
    total = Z.of_nat (length rs) /\
    pc = Z.of_nat (length (List.filter passed rs)) /\
    allp = (pc =? total).
Proof.
  unfold POST. destruct (Limiter.rateLimit _ _ _ _ _) as [rl bs].
  destruct (negb (Limiter.allowed rl)).
  { intros E; inversion E; subst. discriminate. }
  unfold handle. cbn [buckets now sandboxCalls].
  destruct (jsonBody req) as [b|] eqn:Eb; [|intros E; inversion E; subst; discriminate].
  set (bo := if truthy (Some b) then b else JObj []).
  destruct (getProp bo (lit "code")) as [[| | |[|c src]| |]|] eqn:Ecode;
    try (intros E; inversion E; subst; discriminate).
  destruct (Z.of_nat (length (c :: src)) >? MAX_CODE_CHARS);
    [intros E; inversion E; subst; discriminate|].
  set (m := match getProp bo (lit "mode") with
            | Some v => v
            | None => JStr (lit "run")
            end).
  set (visible := arrayOrEmpty (getProp bo (lit "testCases"))).
  set (hiddenCases := arrayOrEmpty (getProp bo (lit "hiddenTestCases"))).
  set (casesToRun := if isSubmit m then visible ++ hiddenCases else visible).
  destruct casesToRun as [|c0 cs] eqn:Ecases;
    [intros E; inversion E; subst; discriminate|].
  rewrite <- Ecases.
  destruct (mapLanguage _) as [rt|e]; [|intros E; inversion E; subst; discriminate].
  set (job := mkJob _ _ _ _ _).
  destruct (runLoop job 0 _ _ _) as [[t|e] w1] eqn:Eloop;
    [|intros E; inversion E; subst; discriminate].
  intros E _. inversion E; subst resp w'; clear E.
  destruct (runLoop_entries _ _ _ _ _ _ _ Eloop) as (rs & Hres & Hlen & Hpc & Hk).
  cbn [results passedCount app] in Hres, Hpc.
  exists b, m, (passedCount t), (Z.of_nat (length (results t))),
         (passedCount t =? Z.of_nat (length (results t))), (now w1 - now w), (results t).
  split; [reflexivity|]. split; [reflexivity|].
  fold bo. fold visible hiddenCases. fold m.
  cbn zeta. rewrite Hres in *.
  assert (Hhid : forall i r, rs !! i = Some r ->
            hidden r = isSubmit m && (length visible <=? i)%nat).
  { intros i r Hr. destruct (Hk _ _ Hr) as (item & wa & wb & _ & Hrun).
    apply runCase_header in Hrun. destruct Hrun as (_ & _ & ->). reflexivity. }
  rewrite length_take in Hlen. unfold MAX_CASES_RUN in Hlen.
  split; [reflexivity|].
  split; [|split; [|split; [|split; [reflexivity|split; [lia|]]]]].
  - intros Hm. split.
    + rewrite Hlen. unfold casesToRun. rewrite Hm. cbn [isSubmit].
      change (str_eqb (lit "run") (lit "submit")) with false. cbn iota. lia.
    + intros i r Hr. rewrite (Hhid _ _ Hr), Hm. reflexivity.
  - intros Hm. split.
    + rewrite Hlen. unfold casesToRun. rewrite Hm. cbn [isSubmit].
      change (str_eqb (lit "submit") (lit "submit")) with true. cbn iota.
      rewrite length_app. lia.
    + intros i r Hr. rewrite (Hhid _ _ Hr), Hm. reflexivity.
  - intros i r Hr. destruct (Hk _ _ Hr) as (item & wa & wb & Hi & Hrun).
    apply lookup_take_Some in Hi. destruct Hi as [Hi _].
    exists item. split; [exact Hi|].
    apply runCase_header in Hrun. cbn [Nat.add] in Hrun. tauto.
  - reflexivity.
Qed.

End RunFacts.

(** ** The execution gateway on examples *)

Section RunExamples.
Import Run Demo.

(** The first call is answered with [ 4 ] and exit code 0, the second
    with [4] and exit code 1. *)
Let plat : Platform :=
  platform [(reply (lit " 4 ") 0, 20); (reply (lit "4") 1, 30)] None.


Lemma POST_case_selection_witness :
  let two := repeat (testCase (lit "2") (lit "4")) 2 in
  let four := repeat (testCase (lit "2") (lit "4")) 4 in
  let twenty := repeat (testCase (lit "2") (lit "4")) 20 in
  let entries (resp : Response) :=
    match body resp with
    | Report _ _ total _ _ rs => Some (total, map hidden rs)
    | ErrorBody _ => None
    end in
  entries (@POST plat (request (runBody "run" two four)) world0).1
    = Some (2, [false; false]) /\
  entries (@POST plat (request (runBody "submit" two four)) world0).1
    = Some (6, [false; false; true; true; true; true]) /\
  entries (@POST plat (request (runBody "run" twenty [])) world0).1
    = Some (12, repeat false 12).
Proof.
  intros two four twenty entries.
  assert (G : forall req n hs,
    status (@POST plat req world0).1 = 200 ->
    (forall m pc total allp ms rs,
       body (@POST plat req world0).1 = Report m pc total allp ms rs ->
       total = Z.of_nat (length rs) -> length rs = n /\ map hidden rs = hs) ->
    entries (@POST plat req world0).1 = Some (Z.of_nat n, hs)).
  { intros req n hs Hst Hb.
    destruct (@POST_case_selection plat req world0 _ _ (surjective_pairing _) Hst)
      as (b & m & pc & total & allp & ms & rs & _ & Hbody & _ & _ & _ & _ & Htot & _).
    destruct (Hb _ _ _ _ _ _ Hbody Htot) as [Hn Hh].
    unfold entries. rewrite Hbody, Htot, Hn, Hh. reflexivity. }
  split; [|split].
  - apply (G _ 2%nat); [vm_compute; reflexivity|].
    intros m pc total allp ms rs Hb _. vm_compute in Hb. injection Hb as _ _ _ _ _ <-.
    split; reflexivity.
  - apply (G _ 6%nat); [vm_compute; reflexivity|].
    intros m pc total allp ms rs Hb _. vm_compute in Hb. injection Hb as _ _ _ _ _ <-.
    split; reflexivity.
  - apply (G _ 12%nat); [vm_compute; reflexivity|].
    intros m pc total allp ms rs Hb _. vm_compute in Hb. injection Hb as _ _ _ _ _ <-.
    split; reflexivity.
Defined.

(** An input of 4001 characters, and an input that is not JSON. *)
Lemma runCase_input_rejected_witness :
  let long := testCase (repeat 49%N 4001) (lit "1") in
  let bad := testCase (lit "{oops") (lit "1") in
  (@runCase plat job0 0 long world0).2 = world0 /\
  (stderr <$> match (@runCase plat job0 0 long world0).1 with
              | Ok r => Some r
              | Throw _ => None
              end) = Some (lit "Input too large.") /\
  (@runCase plat job0 0 bad world0).2 = world0 /\
  (stderr <$> match (@runCase plat job0 0 bad world0).1 with
              | Ok r => Some r
              | Throw _ => None
              end) = Some (lit "Testcase input is not valid JSON.").
Proof.
  intros long bad.
  destruct (@runCase_input_rejected plat job0 0 long world0 (repeat 49%N 4001) (lit "1")
              eq_refl eq_refl) as ([H1 _] & _ & _).
  { rewrite repeat_length. lia. }
  destruct (@runCase_input_rejected plat job0 0 bad world0 (lit "{oops") (lit "1")
              eq_refl eq_refl) as (_ & H2 & _).
  destruct H2 as [H2 _]; [vm_compute; discriminate | vm_compute; reflexivity |].
  rewrite H1, H2. repeat split.
Defined.


End RunExamples.

(** ** Object properties *)

Lemma obj_replace_assoc k v o o' :
  obj_replace k v o = Some o' ->
  assoc k o' = Some v /\ forall k', k' <> k -> assoc k' o' = assoc k' o.
Proof.
  revert o'. induction o as [|[k0 v0] o IH]; intros o' E; cbn in E; [discriminate|].
  destruct (str_eqb k k0) eqn:Ek.
  - injection E as <-. apply str_eqb_eq in Ek. subst k0. cbn.
    replace (str_eqb k k) with true by (symmetry; apply str_eqb_eq; reflexivity).
    split; [reflexivity|]. intros k' Hne.
    replace (str_eqb k' k) with false by (symmetry; apply str_eqb_neq; exact Hne).
    reflexivity.
  - destruct (obj_replace k v o) as [r'|]; [|discriminate]. injection E as <-.
    destruct (IH _ eq_refl) as [H1 H2]. cbn. rewrite Ek. split; [exact H1|].
    intros k' Hne. destruct (str_eqb k' k0); [reflexivity|]. apply H2. exact Hne.
Qed.

Lemma obj_replace_None k v o : obj_replace k v o = None -> assoc k o = None.
Proof.
  induction o as [|[k0 v0] o IH]; cbn; [reflexivity|].
  destruct (str_eqb k k0); [discriminate|].
  destruct (obj_replace k v o); [discriminate|]. auto.
Qed.

Lemma assoc_app {A} k (o1 o2 : list (jsstring * A)) :
  assoc k (o1 ++ o2) = match assoc k o1 with
                       | Some v => Some v
                       | None => assoc k o2
                       end.
Proof.
  induction o1 as [|[k0 v0] o1 IH]; cbn; [reflexivity|].
  destruct (str_eqb k k0); [reflexivity|exact IH].
Qed.

Lemma obj_insert_index_assoc n k v o :
  assoc k o = None ->
  assoc k (obj_insert_index n k v o) = Some v /\
  forall k', k' <> k -> assoc k' (obj_insert_index n k v o) = assoc k' o.
Proof.
  assert (Hkk : str_eqb k k = true) by (apply str_eqb_eq; reflexivity).
  assert (Hne : forall k', k' <> k -> str_eqb k' k = false)
    by (intros; apply str_eqb_neq; assumption).
  induction o as [|[k0 v0] o IH]; intros Hnone; cbn.
  - rewrite Hkk. split; [reflexivity|]. intros k' H'. rewrite (Hne _ H'). reflexivity.
  - cbn in Hnone. destruct (str_eqb k k0) eqn:Ek; [discriminate|].
    destruct (arrayIndex k0) as [n'|]; [destruct (n' <=? n)%N|]; cbn.
    + rewrite Ek. destruct (IH Hnone) as [H1 H2]. split; [exact H1|].
      intros k' H'. destruct (str_eqb k' k0); [reflexivity|]. apply H2. exact H'.
    + rewrite Hkk. split; [reflexivity|]. intros k' H'. rewrite (Hne _ H'). reflexivity.
    + rewrite Hkk. split; [reflexivity|]. intros k' H'. rewrite (Hne _ H'). reflexivity.
Qed.

(** Reading back a property after an assignment. *)
Lemma assoc_obj_set_eq k v o : assoc k (obj_set k v o) = Some v.
Proof.
  unfold obj_set. destruct (obj_replace k v o) as [o'|] eqn:E.
  - apply (obj_replace_assoc _ _ _ _ E).
  - apply obj_replace_None in E. destruct (arrayIndex k).
    + apply obj_insert_index_assoc. exact E.
    + rewrite assoc_app, E. cbn.
      replace (str_eqb k k) with true by (symmetry; apply str_eqb_eq; reflexivity).
      reflexivity.
Qed.

Lemma assoc_obj_set_ne k k' v o : k' <> k -> assoc k' (obj_set k v o) = assoc k' o.
Proof.
  intros Hne. unfold obj_set. destruct (obj_replace k v o) as [o'|] eqn:E.
  - apply (obj_replace_assoc _ _ _ _ E). exact Hne.
  - apply obj_replace_None in E. destruct (arrayIndex k).
    + apply obj_insert_index_assoc; assumption.
    + rewrite assoc_app. destruct (assoc k' o); [reflexivity|]. cbn.
      replace (str_eqb k' k) with false by (symmetry; apply str_eqb_neq; exact Hne).
      reflexivity.
Qed.

(** ** The exercise repair pass *)

Section GenerateFacts.
Context `{Platform}.
Import Generate.

Lemma getNamed_set_eq k v o : getNamed (setNamed k v o) k = Some v.
Proof. apply assoc_obj_set_eq. Qed.

Lemma getNamed_set_ne k k' v o : k' <> k -> getNamed (setNamed k v o) k' = getNamed o k'.
Proof. apply assoc_obj_set_ne. Qed.

Lemma coerceString_missing v fb : missing v -> coerceString v fb = Ok fb.
Proof. intros [-> | ->]; reflexivity. Qed.

(** [sanitizeCase] returns the four string properties, each defaulted
    when the case lacks it. *)
Lemma sanitizeCase_shape tc fb c :
  sanitizeCase tc fb = Ok c ->
  let t := if truthy (Some tc) then tc else JObj [] in
  exists name input expected explanation,
    c = JObj [(lit "name", JStr name); (lit "input", JStr input);
              (lit "expectedOutput", JStr expected);
              (lit "explanation", JStr explanation)] /\
    (missing (getProp t (lit "name")) -> name = fb) /\
    (missing (getProp t (lit "input")) -> input = lit "null") /\
    (missing (getProp t (lit "expectedOutput")) -> expected = lit "null") /\
    (missing (getProp t (lit "explanation")) -> explanation = []).
Proof.
  intros E t. unfold sanitizeCase in E. fold t in E.
  destruct (coerceString (getProp t (lit "name")) fb) as [n|] eqn:E1; [|discriminate].
  destruct (coerceString (getProp t (lit "input")) (lit "null")) as [i|] eqn:E2; [|discriminate].
  destruct (coerceString (getProp t (lit "expectedOutput")) (lit "null")) as [e|] eqn:E3;
    [|discriminate].
  destruct (coerceString (getProp t (lit "explanation")) []) as [x|] eqn:E4; [|discriminate].
  cbn in E. injection E as <-. exists n, i, e, x. split; [reflexivity|].
  repeat split; intros Hm.
  - rewrite (coerceString_missing _ _ Hm) in E1. congruence.
  - rewrite (coerceString_missing _ _ Hm) in E2. congruence.
  - rewrite (coerceString_missing _ _ Hm) in E3. congruence.
  - rewrite (coerceString_missing _ _ Hm) in E4. congruence.
Qed.

Lemma sanitizeAll_spec prefix l : forall i out,
  sanitizeAll prefix i l = Ok out ->
  length out = length l /\
  forall k tc, l !! k = Some tc ->
    exists c, out !! k = Some c /\ sanitizeCase tc (caseLabel prefix (i + k)) = Ok c.
Proof.
  induction l as [|tc l IH]; intros i out E; cbn in E.
  - injection E as <-. split; [reflexivity|]. intros k tc Hk. destruct k; discriminate.
  - destruct (sanitizeCase tc (caseLabel prefix i)) as [c|] eqn:Ec; [|discriminate].
    cbn in E. destruct (sanitizeAll prefix (S i) l) as [rest|] eqn:Er; [|discriminate].
    cbn in E. injection E as <-. destruct (IH _ _ Er) as [Hl Hk].
    split; [cbn; lia|]. intros [|k] tc' Hk'; cbn in Hk'.
    + injection Hk' as <-. exists c. rewrite Nat.add_0_r. auto.
    + destruct (Hk _ _ Hk') as (c' & H1 & H2). exists c'. split; [exact H1|].
      replace (i + S k)%nat with (S i + k)%nat by lia. exact H2.
Qed.

Lemma sanitizeAll_cases prefix l i out :
  sanitizeAll prefix i l = Ok out -> Forall isCase out.
Proof.
  revert i out. induction l as [|tc l IH]; intros i out E; cbn in E.
  - injection E as <-. constructor.
  - destruct (sanitizeCase tc (caseLabel prefix i)) as [c|] eqn:Ec; [|discriminate].
    cbn in E. destruct (sanitizeAll prefix (S i) l) as [rest|] eqn:Er; [|discriminate].
    cbn in E. injection E as <-. constructor; [|eauto].
    destruct (sanitizeCase_shape _ _ _ Ec) as (n & i' & e & x & -> & _).
    exists n, i', e, x. reflexivity.
Qed.

(** The padding loop keeps what is there and stops at [least] entries
    when it has fuel for the missing ones. *)
Lemma padCases_spec fuel least prefix expl : forall arr out,
  padCases fuel least prefix expl arr = Ok out ->
  (least <= length arr + fuel)%nat ->
  Forall isCase arr ->
  exists more, out = arr ++ more /\ Forall isCase out /\
    length out = Nat.max (length arr) least.
Proof.
  induction fuel as [|f IH]; intros arr out E Hf Hc; cbn [padCases] in E.
  - injection E as <-. exists []. rewrite app_nil_r. repeat split; [exact Hc|lia].
  - destruct (length arr <? least)%nat eqn:El.
    + apply Nat.ltb_lt in El.
      match type of E with rbind ?m _ = _ => destruct m as [c|] eqn:Ec end;
        [|discriminate].
      cbn [rbind] in E. apply IH in E.
      * destruct E as (more & -> & Hall & Hlen). exists (c :: more).
        rewrite <- app_assoc in Hall, Hlen |- *.
        split; [reflexivity|]. split; [exact Hall|].
        rewrite Hlen, length_app. cbn. lia.
      * rewrite length_app. cbn. lia.
      * apply Forall_app. split; [exact Hc|]. constructor; [|constructor].
        destruct (sanitizeCase_shape _ _ _ Ec) as (n & i' & e & x & -> & _).
        exists n, i', e, x. reflexivity.
    + apply Nat.ltb_ge in El. injection E as <-. exists [].
      rewrite app_nil_r. repeat split; [exact Hc|lia].
Qed.

(** The hint loop: what is there, then the fillers from the first on. *)
Lemma padHints_spec l :
  (length l <= 3)%nat ->
  padHints 3 0 l = l ++ take (3 - length l) filler.
Proof.
  intros Hl. destruct l as [|a [|b [|c [|d l]]]]; try reflexivity.
  cbn in Hl. lia.
Qed.

Ltac keys_ne := let E := fresh in intros E; vm_compute in E; discriminate E.

Arguments padHints : simpl never.

Ltac step E :=
  match type of E with
  | rbind ?m _ = _ =>
      let x := fresh "x" in
      let Hx := fresh "Hx" in
      destruct m as [x|] eqn:Hx; [cbn [rbind] in E | discriminate E]
  end.

(** The repair pass on one question. *)
Lemma normalizeQuestion_repaired lang idx q qq :
  normalizeQuestion lang idx q = Ok qq ->
  exists q0, asObject q = Ok q0 /\ Repaired lang q0 qq.
Proof.
  intros E. unfold normalizeQuestion in E.
  step E. rename x into q0. exists q0. split; [reflexivity|].
  do 6 step E.
  match type of E with
  | rbind ?m _ = _ => destruct m as [starter|] eqn:Hst; [cbn [rbind] in E|discriminate E]
  end.
  do 5 step E. injection E as <-.
  rewrite ?getNamed_set_ne in * by keys_ne.
  rename x4 into looksOk, x5 into hints, x6 into vis0, x7 into hid0,
         x8 into vis, x9 into hid, x3 into d.
  unfold Repaired. split; [|split; [|split; [|split; [|split]]]].
  - rewrite ?getNamed_set_ne by keys_ne. apply getNamed_set_eq.
  - unfold ensureExactlyThreeHints in Hx6.
    match type of Hx6 with
    | rbind ?m _ = _ => destruct m as [base|] eqn:Hb; [cbn [rbind] in Hx6|discriminate Hx6]
    end.
    injection Hx6 as <-. exists base. split; [reflexivity|].
    assert (Hl : (length (take 3 base) <= 3)%nat) by (rewrite length_take; lia).
    rewrite (padHints_spec _ Hl).
    split; [rewrite ?getNamed_set_ne by keys_ne; apply getNamed_set_eq|].
    rewrite length_app, !length_take.
    change (length filler) with 3%nat. lia.
  - unfold coerceDifficulty in Hx4.
    match type of Hx4 with
    | rbind ?m _ = _ => destruct m as [s|] eqn:Hs; [cbn [rbind] in Hx4|discriminate Hx4]
    end.
    exists s, d.
    split; [reflexivity|].
    split; [rewrite ?getNamed_set_ne by keys_ne; apply getNamed_set_eq|].
    cbn zeta. destruct (str_eqb (trim (toLowerCase s)) (lit "beginner")) eqn:E1;
      [|destruct (str_eqb (trim (toLowerCase s)) (lit "intermediate")) eqn:E2;
        [|destruct (str_eqb (trim (toLowerCase s)) (lit "advanced")) eqn:E3]];
      cbn [orb] in Hx4 |- *; injection Hx4 as <-.
    + apply str_eqb_eq in E1. auto.
    + apply str_eqb_eq in E2. auto.
    + apply str_eqb_eq in E3. auto.
    + auto.
  - exists vis.
    split; [rewrite ?getNamed_set_ne by keys_ne; apply getNamed_set_eq|].
    destruct (sanitizeAll_spec _ _ _ _ Hx7) as [Hl0 Hk0].
    pose proof (sanitizeAll_cases _ _ _ _ Hx7) as Hc0.
    destruct (padCases_spec _ _ _ _ _ _ Hx9) as (more & -> & Hall & Hlen);
      [lia|exact Hc0|].
    rewrite length_take in Hl0.
    split; [rewrite Hlen; lia|]. split; [exact Hall|].
    intros k tc Hk. destruct (Hk0 _ _ Hk) as (c & Hc1 & Hc2). exists c.
    split; [|exact Hc2]. rewrite lookup_app_l; [exact Hc1|].
    apply lookup_lt_Some in Hc1. exact Hc1.
  - exists hid.
    split; [apply getNamed_set_eq|].
    destruct (sanitizeAll_spec _ _ _ _ Hx8) as [Hl0 Hk0].
    pose proof (sanitizeAll_cases _ _ _ _ Hx8) as Hc0.
    destruct (padCases_spec _ _ _ _ _ _ Hx10) as (more & -> & Hall & Hlen);
      [lia|exact Hc0|].
    rewrite length_take in Hl0.
    split; [rewrite Hlen; lia|]. split; [exact Hall|].
    intros k tc Hk. destruct (Hk0 _ _ Hk) as (c & Hc1 & Hc2). exists c.
    split; [|exact Hc2]. rewrite lookup_app_l; [exact Hc1|].
    apply lookup_lt_Some in Hc1. exact Hc1.
  - exists starter.
    split; [rewrite ?getNamed_set_ne by keys_ne; apply getNamed_set_eq|].
    intros Hno. rewrite Hno in Hx5. injection Hx5 as <-. cbn in Hst. congruence.
Qed.

Lemma normalizeAll_repaired lang qs : forall idx out,
  normalizeAll lang idx qs = Ok out ->
  length out = length qs /\
  forall qq, In qq out ->
    exists q q0, In q qs /\ asObject q = Ok q0 /\ Repaired lang q0 qq.
Proof.
  induction qs as [|q qs IH]; intros idx out E; cbn [normalizeAll] in E.
  - injection E as <-. split; [reflexivity|]. intros qq [].
  - step E. step E. injection E as <-.
    destruct (IH _ _ Hx0) as [Hl Hin]. split; [cbn; lia|].
    intros qq [<- | Hq].
    + destruct (normalizeQuestion_repaired _ _ _ _ Hx) as (q0 & H0 & Hr).
      exists q, q0. cbn. auto.
    + destruct (Hin _ Hq) as (q' & q0 & Hq' & H0 & Hr).
      exists q', q0. cbn. auto.
Qed.

(** The questions of the reply and the repaired ones, index by
    index. *)
Lemma normalizeAll_lookup lang qs : forall idx out,
  normalizeAll lang idx qs = Ok out ->
  length out = length qs /\
  forall k q, qs !! k = Some q ->
    exists qq, out !! k = Some qq /\ normalizeQuestion lang (idx + k) q = Ok qq.
Proof.
  induction qs as [|q0 qs IH]; intros idx out E; cbn [normalizeAll] in E.
  - injection E as <-. split; [reflexivity|]. intros k q Hk. discriminate Hk.
  - step E. step E. injection E as <-.
    destruct (IH _ _ Hx0) as [Hl Hk]. split; [cbn; lia|].
    intros [|k] q Hq; cbn in Hq.
    + injection Hq as <-. exists x. rewrite Nat.add_0_r. auto.
    + destruct (Hk _ _ Hq) as (qq & H1 & H2). exists qq. split; [exact H1|].
      replace (idx + S k)%nat with (S idx + k)%nat by lia. exact H2.
Qed.

(** The object the repair pass writes to has the properties of the
    model's question, and is an array only when the question is. *)
Lemma asObject_props q q0 :
  asObject q = Ok q0 ->
  (forall key, getNamed q0 key
               = getProp (if truthy (Some q) then q else JObj []) key) /\
  ((forall l, q <> JArr l) -> elems q0 = None).
Proof.
  unfold asObject. destruct (truthy (Some q)) eqn:Et.
  - destruct q as [|b|x|s|l|o]; try discriminate; intros E; injection E as <-.
    + split; [reflexivity|]. intros Hn. exfalso. apply (Hn l). reflexivity.
    + split; [reflexivity|reflexivity].
  - intros E. injection E as <-. split; reflexivity.
Qed.

(** The repair pass sets named properties only. *)
Lemma normalizeQuestion_elems lang idx q qq q0 :
  normalizeQuestion lang idx q = Ok qq -> asObject q = Ok q0 ->
  elems qq = elems q0.
Proof.
  intros E H0. unfold normalizeQuestion in E. rewrite H0 in E. cbn [rbind] in E.
  do 12 step E. injection E as <-. reflexivity.
Qed.

Lemma normalizeLanguage_values lang l :
  normalizeLanguage lang = Ok l ->
  l = lit "python" \/ l = lit "typescript" \/ l = lit "javascript".
Proof.
  unfold normalizeLanguage. intros E. step E.
  destruct (str_eqb x (lit "python")); [injection E as <-; auto|].
  destruct (str_eqb x (lit "typescript")); injection E as <-; auto.
Qed.

(** C7, as amended.  A response with status 200 of the enhanced
    endpoint prints the payload of the model's reply with its
    [questions] replaced by the first five of them, repaired, in their
    order.  For the question at each index, read as an object ([{}] for
    a falsy one), the repaired object has [functionName] equal to
    [solve]; three hints, which are the first three truthy entries of
    that question's [hints] array, each converted to a string, followed
    by the fillers from the first on; a [difficulty] among [beginner],
    [intermediate] and [advanced], the lower-cased trimmed value when it
    is one of them and [beginner] otherwise; two to three [testCases]
    and three to six [hiddenTestCases], each an object with exactly the
    four string properties, the first ones being that question's first
    three (six) cases sanitized under the names [Case N] ([Hidden N]);
    and a [starterCode] string that is the template of the language of
    the request, normalised to [python], [typescript] or [javascript],
    whenever the question's starter code lacks the marker of that
    language.  A question that is not an array is printed as the object
    with these properties.  [sanitizeCase] gives each property the model
    left out its default. *)
Theorem POST_questions_repaired req w resp w' :
  POST req w = (resp, w') ->
  status resp = 200 ->
  (exists b value lang raw o qs qqs,
     jsonBody req = Some b /\
     Guard.validateDocsUrl (getProp b (lit "docsUrl")) = Guard.Valid value /\
     normalizeLanguage (getProp b (lit "language")) = Ok lang /\
     (lang = lit "python" \/ lang = lit "typescript" \/ lang = lit "javascript") /\
     completion value lang = ModelContent (Some raw) /\
     JSON_parse raw = Some (JObj o) /\
     assoc (lit "questions") o = Some (JArr qs) /\
     body resp =
       Generated (stringify (JObj (obj_set (lit "questions")
                                     (JArr (map sent qqs)) o))) /\
     length qqs = Nat.min 5 (length qs) /\
     forall k q, (k < 5)%nat -> qs !! k = Some q ->
       exists q0 qq,
         qqs !! k = Some qq /\
         asObject q = Ok q0 /\
         (forall key, getNamed q0 key
                      = getProp (if truthy (Some q) then q else JObj []) key) /\
         Repaired lang q0 qq /\
         ((forall l, q <> JArr l) ->
            sent qq = JObj (named qq) /\
            forall key, getProp (sent qq) key = getNamed qq key)) /\
  (forall tc fb c, sanitizeCase tc fb = Ok c ->
     let t := if truthy (Some tc) then tc else JObj [] in
     exists name input expected explanation,
       c = JObj [(lit "name", JStr name); (lit "input", JStr input);
                 (lit "expectedOutput", JStr expected);
                 (lit "explanation", JStr explanation)] /\
       (missing (getProp t (lit "name")) -> name = fb) /\
       (missing (getProp t (lit "input")) -> input = lit "null") /\
       (missing (getProp t (lit "expectedOutput")) -> expected = lit "null") /\
       (missing (getProp t (lit "explanation")) -> explanation = [])).
Proof.
  intros E Hst. split; [|intros tc fb c Hc; exact (sanitizeCase_shape _ _ _ Hc)].
  unfold POST in E. destruct (Limiter.rateLimit _ _ _ _ _) as [rl bs].
  destruct (negb (Limiter.allowed rl)); [inversion E; subst; discriminate|].
  destruct (handle req) as [r|e] eqn:Eh; inversion E; subst; clear E;
    [|discriminate].
  unfold handle in Eh.
  destruct (jsonBody req) as [b|] eqn:Eb; [|discriminate].
  assert (Eh' :
    match Guard.validateDocsUrl (getProp b (lit "docsUrl")) with
    | Guard.Invalid e => Ok (mkResponse 400 None (ErrorBody e))
    | Guard.Valid value =>
        do lang <- normalizeLanguage (getProp b (lit "language"));
        match completion value lang with
        | ModelThrows => Throw TypeError
        | ModelContent None | ModelContent (Some []) =>
            Ok (mkResponse 500 None (ErrorBody (lit "No content returned from model")))
        | ModelContent (Some raw) =>
            match JSON_parse raw with
            | None =>
                Ok (mkResponse 500 None (ErrorBody (lit "Model returned invalid JSON")))
            | Some JNull => Throw TypeError
            | Some (JObj o) =>
                match assoc (lit "questions") o with
                | Some (JArr qs) =>
                    do questions <- normalizeAll lang 0 (take 5 qs);
                    let payload :=
                      JObj (obj_set (lit "questions")
                              (JArr (map sent questions)) o) in
                    Ok (mkResponse 200 None (Generated (stringify payload)))
                | _ =>
                    Ok (mkResponse 500 None
                          (ErrorBody (lit "Model response missing 'questions' array")))
                end
            | Some _ =>
                Ok (mkResponse 500 None
                      (ErrorBody (lit "Model response missing 'questions' array")))
            end
        end
    end = Ok resp)
    by (destruct b; try discriminate Eh; exact Eh).
  clear Eh.
  destruct (Guard.validateDocsUrl _) as [err|value] eqn:Ev;
    [inversion Eh'; subst; discriminate Hst|].
  step Eh'. rename x into lang.
  destruct (completion value lang) as [|[[|c raw]|]] eqn:Ec;
    try discriminate Eh'; try (inversion Eh'; subst; discriminate Hst).
  destruct (JSON_parse (c :: raw)) as [[| | | | |o]|] eqn:Ep;
    try discriminate Eh'; try (inversion Eh'; subst; discriminate Hst).
  destruct (assoc (lit "questions") o) as [[| | | |qs|]|] eqn:Eq;
    try (inversion Eh'; subst; discriminate Hst).
  step Eh'. rename x into qqs. cbn zeta in Eh'. injection Eh' as <-.
  destruct (normalizeAll_lookup _ _ _ _ Hx0) as [Hl Hk].
  exists b, value, lang, (c :: raw), o, qs, qqs.
  split; [reflexivity|]. split; [exact Ev|]. split; [exact Hx|].
  split; [exact (normalizeLanguage_values _ _ Hx)|].
  split; [exact Ec|]. split; [exact Ep|]. split; [exact Eq|].
  split; [reflexivity|].
  split; [rewrite Hl, length_take; lia|].
  intros k q Hlt Hq.
  destruct (Hk k q) as (qq & Hqq & Hn);
    [apply lookup_take_Some; split; [exact Hq|exact Hlt]|].
  cbn [Nat.add] in Hn.
  destruct (normalizeQuestion_repaired _ _ _ _ Hn) as (q0 & H0 & Hr).
  destruct (asObject_props _ _ H0) as [Hprops Hobj].
  exists q0, qq. split; [exact Hqq|]. split; [exact H0|].
  split; [exact Hprops|]. split; [exact Hr|].
  intros Hnarr.
  assert (He : elems qq = None)
    by (rewrite (normalizeQuestion_elems _ _ _ _ _ Hn H0); exact (Hobj Hnarr)).
  unfold sent. rewrite He. split; [reflexivity|]. intros key. reflexivity.
Qed.

End GenerateFacts.

Section GenerateExamples.
Import Generate Demo.

Let plat : Platform := platform [] (Some modelReply).

Lemma POST_questions_repaired_witness :
  exists o qq,
    body (@POST plat generateRequest world0).1 =
      Generated (stringify (JObj (obj_set (lit "questions") (JArr [sent qq]) o))) /\
    getProp (sent qq) (lit "functionName") = Some (JStr (lit "solve")) /\
    getProp (sent qq) (lit "difficulty") = Some (JStr (lit "advanced")) /\
    getProp (sent qq) (lit "starterCode")
      = Some (JStr (starterTemplate (lit "typescript"))) /\
    getProp (sent qq) (lit "hints") =
      Some (JArr [JStr (lit "Add them.");
                  JStr (lit "Start by carefully matching the input JSON shape to the variables you need.");
                  JStr (lit "Write the rule as a small helper step (even mentally), then apply it to all required parts.")]).
Proof.
  destruct (@POST_questions_repaired plat generateRequest world0 _ _
              (surjective_pairing _))
    as [(b & value & lang & raw & o & qs & qqs & Hb & Hv & Hlang & _ & Hc & Hp & Hq
         & Hbody & Hlen & Hk) _];
    [vm_compute; reflexivity|].
  injection Hb as <-.
  assert (El : lang = lit "typescript")
    by (vm_compute in Hlang; injection Hlang as <-; reflexivity).
  subst lang. injection Hc as <-.
  assert (Eo : Some (JObj o) = JSON_parse modelReply) by (symmetry; exact Hp).
  vm_compute in Eo. injection Eo as ->.
  vm_compute in Hq. injection Hq as <-.
  destruct (Hk 0%nat _ ltac:(lia) eq_refl) as (q0 & qq & Hqq & H0 & _ & Hr & Hobj).
  destruct Hobj as [_ Hget]; [intros l; discriminate|].
  assert (Eqs : qqs = [qq]).
  { destruct qqs as [|a [|a' t]]; cbn in Hlen; try lia.
    cbn in Hqq. injection Hqq as ->. reflexivity. }
  subst qqs. vm_compute in H0. injection H0 as <-.
  destruct Hr as (Hfn & (base & Hbase & Hhints & _) & (s & d & Hs & Hd & _ & Hdv)
                  & _ & _ & (sc & Hsc & Hst)).
  eexists _, qq. split; [exact Hbody|]. rewrite !Hget.
  split; [exact Hfn|]. split; [|split].
  - rewrite Hd, Hdv. vm_compute in Hs. injection Hs as <-. vm_compute. reflexivity.
  - rewrite Hsc, Hst; [reflexivity|]. vm_compute. reflexivity.
  - rewrite Hhints. vm_compute in Hbase. injection Hbase as <-. reflexivity.
Defined.

(** C7 as stated fails on hints: the model's first hint is the empty
    string, which the repair pass drops, so the repaired hints start with
    the model's second hint and not, as claimed, with its first. *)
Lemma hints_not_as_claimed :
  let given := [[]; lit "Use a loop."] in
  let q := JObj [(lit "hints", JArr (map JStr given))] in
  exists qq,
    @normalizeQuestion plat (lit "javascript") 0 q = Ok qq /\
    getNamed qq (lit "hints") =
      Some (JArr (map JStr (lit "Use a loop." :: take 2 filler))) /\
    getNamed qq (lit "hints") <> Some (JArr (map JStr (hintsAsClaimed given))).
Proof.
  intros given q.
  destruct (@normalizeQuestion plat (lit "javascript") 0 q) as [qq|] eqn:E;
    [|vm_compute in E; discriminate E].
  exists qq. split; [reflexivity|].
  vm_compute in E. injection E as <-.
  split; [vm_compute; reflexivity|]. vm_compute. discriminate.
Qed.

End GenerateExamples.

(** ** Decimal numerals *)

(** Quotients and remainders as opaque numbers, for [lia]. *)
Ltac hide_divmod :=
  repeat match goal with
  | |- context [N.modulo ?a ?b] =>
      let x := fresh "m" in set (x := N.modulo a b) in *; clearbody x
  | |- context [N.div ?a ?b] =>
      let x := fresh "q" in set (x := N.div a b) in *; clearbody x
  | H : context [N.modulo ?a ?b] |- _ =>
      let x := fresh "m" in set (x := N.modulo a b) in *; clearbody x
  | H : context [N.div ?a ?b] |- _ =>
      let x := fresh "q" in set (x := N.div a b) in *; clearbody x
  end.

Lemma le_val_app a b :
  le_val (a ++ b) = (le_val a + 10 ^ N.of_nat (length a) * le_val b)%N.
Proof.
  induction a as [|c a IH]; cbn [app le_val length].
  - cbn. lia.
  - rewrite IH, Nat2N.inj_succ, N.pow_succ_r'. lia.
Qed.

Lemma rev_repeat {A} (x : A) n : rev (repeat x n) = repeat x n.
Proof.
  induction n as [|n IH]; [reflexivity|].
  cbn [repeat rev]. rewrite IH. clear IH.
  induction n as [|n IH]; [reflexivity|]. cbn. rewrite IH. reflexivity.
Qed.

Lemma le_val_zeros n : le_val (repeat 48%N n) = 0%N.
Proof. induction n as [|n IH]; cbn [repeat le_val]; [reflexivity|]. rewrite IH. reflexivity. Qed.

Lemma digits_val_app a b :
  digits_val (a ++ b) = (digits_val a * 10 ^ N.of_nat (length b) + digits_val b)%N.
Proof.
  unfold digits_val. rewrite rev_app_distr, le_val_app, length_rev. lia.
Qed.

Lemma digits_val_zeros n : digits_val (repeat 48%N n) = 0%N.
Proof. unfold digits_val. rewrite rev_repeat. apply le_val_zeros. Qed.

Lemma digits_le_val fuel : forall n,
  (n < 2 ^ N.of_nat fuel)%N -> le_val (digits_le fuel n) = n.
Proof.
  induction fuel as [|f IH]; intros n Hn.
  - cbn in Hn. assert (n = 0%N) by lia. subst. reflexivity.
  - cbn [digits_le]. destruct (n <? 10)%N eqn:E.
    + cbn [le_val]. lia.
    + apply N.ltb_ge in E. cbn [le_val].
      rewrite IH.
      * pose proof (N.div_mod' n 10). hide_divmod. lia.
      * rewrite Nat2N.inj_succ, N.pow_succ_r' in Hn.
        apply N.Div0.div_lt_upper_bound. lia.
Qed.

Lemma digits_fuel n : (n < 2 ^ N.of_nat (S (N.to_nat (N.log2 n))))%N.
Proof.
  rewrite Nat2N.inj_succ, N2Nat.id.
  destruct n as [|p]; [reflexivity|].
  apply N.log2_spec. lia.
Qed.

(** A numeral reads back as the number it was printed from. *)
Lemma digits_val_digits n : digits_val (digits n) = n.
Proof.
  unfold digits_val, digits. rewrite rev_involutive.
  apply digits_le_val, digits_fuel.
Qed.

Lemma digits_le_isDigit fuel : forall n, forallb isDigit (digits_le fuel n) = true.
Proof.
  induction fuel as [|f IH]; intros n; [reflexivity|].
  cbn [digits_le]. destruct (n <? 10)%N eqn:E.
  - apply N.ltb_lt in E. cbn. rewrite andb_true_r. unfold isDigit.
    apply andb_true_iff. split; apply N.leb_le; lia.
  - cbn [forallb]. rewrite IH, andb_true_r. unfold isDigit.
    pose proof (N.mod_lt n 10 ltac:(lia)). hide_divmod.
    apply andb_true_iff. split; apply N.leb_le; lia.
Qed.

Lemma digits_isDigit n : forallb isDigit (digits n) = true.
Proof. unfold digits. rewrite forallb_rev. apply digits_le_isDigit. Qed.

Lemma digits_le_last fuel : forall n,
  (0 < n)%N -> (n < 2 ^ N.of_nat fuel)%N ->
  exists init d, digits_le fuel n = init ++ [d] /\ isDigit d = true /\ d <> 48%N.
Proof.
  induction fuel as [|f IH]; intros n Hpos Hn.
  - cbn in Hn. lia.
  - cbn [digits_le]. destruct (n <? 10)%N eqn:E.
    + apply N.ltb_lt in E. exists [], (48 + n)%N. split; [reflexivity|].
      split; [|lia]. unfold isDigit. apply andb_true_iff. split; apply N.leb_le; lia.
    + apply N.ltb_ge in E.
      destruct (IH (n / 10)%N) as (init & d & Hd & Hdig & Hnz).
      * apply N.div_str_pos. lia.
      * rewrite Nat2N.inj_succ, N.pow_succ_r' in Hn.
        apply N.Div0.div_lt_upper_bound. lia.
      * exists ((48 + n mod 10)%N :: init), d. rewrite Hd. auto.
Qed.

(** The numeral of a positive number starts with a digit other than
    zero. *)
Lemma digits_head n :
  (0 < n)%N -> exists d r, digits n = d :: r /\ isDigit d = true /\ d <> 48%N.
Proof.
  intros Hpos. unfold digits.
  destruct (digits_le_last _ n Hpos (digits_fuel n)) as (init & d & -> & Hd & Hnz).
  rewrite rev_app_distr. cbn. eauto.
Qed.

Lemma digits_nonempty n : digits n <> [].
Proof.
  unfold digits. intros E. apply (f_equal (@rev N)) in E.
  rewrite rev_involutive in E. cbn [digits_le rev] in E.
  destruct (n <? 10)%N; discriminate E.
Qed.

(** ** Reading digits *)

Lemma span_digits_app ds rest :
  forallb isDigit ds = true -> notDigitHead rest ->
  span_digits (ds ++ rest) = (ds, rest).
Proof.
  intros Hd Hr. induction ds as [|c ds IH]; cbn [app].
  - destruct rest as [|c r]; [reflexivity|]. cbn in Hr |- *. rewrite Hr. reflexivity.
  - cbn in Hd. apply andb_true_iff in Hd. destruct Hd as [Hc Hd].
    cbn [span_digits]. rewrite Hc, (IH Hd). reflexivity.
Qed.

Lemma span_digits_all ds : forallb isDigit ds = true -> span_digits ds = (ds, []).
Proof.
  intros Hd. pose proof (span_digits_app ds [] Hd I) as Hs.
  rewrite app_nil_r in Hs. exact Hs.
Qed.

Lemma span_digits_digits s ds rest :
  span_digits s = (ds, rest) ->
  s = ds ++ rest /\ forallb isDigit ds = true /\ notDigitHead rest.
Proof.
  revert ds rest. induction s as [|c s IH]; intros ds rest E; cbn in E.
  - injection E as <- <-. repeat split.
  - destruct (isDigit c) eqn:Ec.
    + destruct (span_digits s) as [ds' rest'] eqn:Es. injection E as <- <-.
      destruct (IH _ _ eq_refl) as (-> & Hd & Hr). cbn. rewrite Ec. auto.
    + injection E as <- <-. cbn. auto.
Qed.

(** ** Rounding decimals *)

Lemma roundQ_Qeq neg v v' : v == v' -> roundQ neg v = roundQ neg v'.
Proof. intros E. unfold roundQ. rewrite (Qred_complete _ _ E). reflexivity. Qed.

Lemma roundQ_sign neg v : roundQ neg v = withSign neg (roundQ false v).
Proof.
  unfold roundQ. destruct (Qnum (Qred v) <=? 0); [reflexivity|].
  destruct (_ =? 0); [reflexivity|].
  destruct (_ || _); [reflexivity|].
  destruct (strip2 _ _). reflexivity.
Qed.

Lemma ten_nonzero : ~ (10 # 1) == 0.
Proof. intros E. discriminate E. Qed.

Lemma decQ_shift a j e : 0 <= j -> decQ (a * 10 ^ j) e == decQ a (e + j).
Proof.
  intros Hj. unfold decQ.
  rewrite inject_Z_mult, (Zpower_Qpower 10 j Hj), (Qpower_plus _ e j ten_nonzero).
  change (inject_Z 10) with (10 # 1). ring.
Qed.

Lemma decQ_nonpos s e : s <= 0 -> (decQ s e <= 0)%Q.
Proof.
  intros Hs. unfold decQ.
  assert (H10 : (0 <= Qpower (10 # 1) e)%Q) by (apply Qpower_0_le; discriminate).
  assert (Hs' : (inject_Z s <= 0)%Q) by (unfold Qle; cbn; lia).
  pose proof (Qmult_le_compat_r _ _ _ Hs' H10) as Hm.
  rewrite Qmult_0_l in Hm. exact Hm.
Qed.

(** Only a positive decimal rounds to a finite non-zero value. *)
Lemma roundQ_finite_pos s e neg m e0 : roundQ false (decQ s e) = FFin neg m e0 -> 0 < s.
Proof.
  intros Hr. destruct (Z_lt_le_dec 0 s) as [|Hs]; [assumption|]. exfalso.
  unfold roundQ in Hr.
  assert (Hq : (Qred (decQ s e) <= 0)%Q)
    by (rewrite Qred_correct; apply decQ_nonpos; exact Hs).
  unfold Qle in Hq. cbn in Hq.
  replace (Qnum (Qred (decQ s e)) <=? 0) with true in Hr
    by (symmetry; apply Z.leb_le; lia).
  discriminate Hr.
Qed.

(** What a good candidate gives: a positive [s] whose decimal rounds to
    the value, with either sign. *)
Lemma roundsTo_spec m e s n neg :
  roundsTo m e (s, n) = true ->
  0 < s /\
  roundQ neg (decQ s (n - Z.of_nat (length (digits (Z.to_N s))))) = FFin neg m e.
Proof.
  unfold roundsTo. cbn [fst snd]. intros Hb. apply bool_decide_eq_true in Hb.
  split; [eapply roundQ_finite_pos; exact Hb|].
  rewrite roundQ_sign, Hb. reflexivity.
Qed.

Lemma tryDigits_good m e n k c : tryDigits m e n k = Some c -> roundsTo m e c = true.
Proof.
  unfold tryDigits.
  set (t := Qred _). set (lo := Qfloor t).
  set (c_hi := if _ =? _ then _ else _).
  destruct (roundsTo m e (lo, n)) eqn:E1; destruct (roundsTo m e c_hi) eqn:E2;
    try discriminate.
  - destruct (Qcompare _ _); [destruct (Z.even lo)| |]; intros E; injection E as <-; assumption.
  - intros E; injection E as <-; assumption.
  - intros E; injection E as <-; assumption.
Qed.

Lemma findDigits_good m e n fuel : forall k c,
  findDigits m e n fuel k = Some c -> roundsTo m e c = true.
Proof.
  induction fuel as [|f IH]; intros k c E; cbn in E; [discriminate|].
  destruct (tryDigits m e n k) as [c'|] eqn:Et.
  - injection E as <-. eapply tryDigits_good; eauto.
  - eapply IH; eauto.
Qed.

(** The digits Number::toString prints round back to the value. *)
Lemma shortest_good m e s n neg :
  shortest m e = Some (s, n) ->
  0 < s /\
  roundQ neg (decQ s (n - Z.of_nat (length (digits (Z.to_N s))))) = FFin neg m e.
Proof.
  unfold shortest. intros E. apply roundsTo_spec. eapply findDigits_good; eauto.
Qed.

(** ** Character classes *)

Lemma isDigit_range c : isDigit c = true <-> (48 <= c <= 57)%N.
Proof.
  unfold isDigit. rewrite andb_true_iff, !N.leb_le. tauto.
Qed.

Lemma isDigit_false_range c : isDigit c = false <-> (c < 48 \/ 57 < c)%N.
Proof.
  unfold isDigit. rewrite andb_false_iff, !N.leb_gt. tauto.
Qed.

(** From [!] to [~], nothing is white space. *)
Lemma printable_not_ws c : (33 <= c <= 126)%N -> isWhiteSpace c = false.
Proof.
  intros Hc. unfold isWhiteSpace. cbn [existsb].
  repeat match goal with
  | |- context [(c =? ?k)%N] =>
      replace (c =? k)%N with false by (symmetry; apply N.eqb_neq; lia)
  end.
  reflexivity.
Qed.

Lemma printable_not_jsonws c : (33 <= c)%N -> isJsonWs c = false.
Proof.
  intros Hc. unfold isJsonWs.
  repeat match goal with
  | |- context [(c =? ?k)%N] =>
      replace (c =? k)%N with false by (symmetry; apply N.eqb_neq; lia)
  end.
  reflexivity.
Qed.

Lemma jsonws_is_ws c : isJsonWs c = true -> isWhiteSpace c = true.
Proof.
  unfold isJsonWs. rewrite !orb_true_iff, !N.eqb_eq.
  intros [[[-> | ->] | ->] | ->]; reflexivity.
Qed.

Lemma trim_printable_ends a mid z :
  isWhiteSpace a = false -> isWhiteSpace z = false ->
  trim (a :: mid ++ [z]) = a :: mid ++ [z].
Proof.
  intros Ha Hz. apply trim_fixed.
  - intros c r E. injection E as <- _. exact Ha.
  - intros c r E. change (a :: mid ++ [z]) with ((a :: mid) ++ [z]) in E.
    rewrite rev_app_distr in E. cbn in E. injection E as <- _. exact Hz.
Qed.

(** A string of printable characters is its own trimming. *)
Lemma trim_printable s : Forall printable s -> trim s = s.
Proof.
  intros Hs. apply trim_fixed.
  - intros c r ->. inversion Hs; subst. apply printable_not_ws. assumption.
  - intros c r E. apply printable_not_ws.
    assert (Hin : In c (rev s)) by (rewrite E; left; reflexivity).
    apply in_rev in Hin. rewrite Forall_forall in Hs. apply Hs.
    apply list_elem_of_In. exact Hin.
Qed.

Lemma digits_printable ds : forallb isDigit ds = true -> Forall printable ds.
Proof.
  induction ds as [|c ds IH]; cbn; [constructor|].
  rewrite andb_true_iff. intros [Hc Hd]. constructor; [|auto].
  apply isDigit_range in Hc. unfold printable. lia.
Qed.

Lemma forallb_repeat {A} (f : A -> bool) x n : f x = true -> forallb f (repeat x n) = true.
Proof. intros Hx. induction n; cbn; [reflexivity|]. rewrite Hx, IHn. reflexivity. Qed.

Lemma zeros_isDigit n : forallb isDigit (zeros n) = true.
Proof. apply forallb_repeat. reflexivity. Qed.

(** ** Reading what Number::toString prints *)

Lemma numEnd_notDigitHead rest : numEnd rest -> notDigitHead rest.
Proof. destruct rest; cbn; tauto. Qed.

Lemma signStr_printable neg : Forall printable (signStr neg).
Proof. destruct neg; repeat constructor; unfold printable; lia. Qed.

Lemma decimalString_printable ip fp :
  forallb isDigit ip = true -> forallb isDigit fp = true ->
  Forall printable (decimalString ip fp).
Proof.
  intros Hi Hf. unfold decimalString. apply Forall_app. split.
  - apply digits_printable. exact Hi.
  - destruct fp as [|c fp]; [constructor|].
    constructor; [unfold printable; lia|]. apply digits_printable. exact Hf.
Qed.

Lemma stripMinus_digit c r : isDigit c = true -> stripMinus (c :: r) = (false, c :: r).
Proof.
  intros Hc. apply isDigit_range in Hc. cbn.
  replace (c =? 45)%N with false by (symmetry; apply N.eqb_neq; lia). reflexivity.
Qed.

Lemma stripMinus_signStr neg c r :
  isDigit c = true -> stripMinus (signStr neg ++ c :: r) = (neg, c :: r).
Proof.
  intros Hc. destruct neg; [reflexivity|]. apply stripMinus_digit. exact Hc.
Qed.

Lemma span_decimalString ip fp rest :
  forallb isDigit ip = true -> forallb isDigit fp = true ->
  (fp = [] -> notDigitHead rest) ->
  span_digits (decimalString ip fp ++ rest) =
    (ip, match fp with
         | [] => rest
         | _ :: _ => 46%N :: fp ++ rest
         end).
Proof.
  intros Hi Hf Hr. unfold decimalString. rewrite <- app_assoc.
  destruct fp as [|c fp].
  - apply span_digits_app; auto.
  - apply span_digits_app; [exact Hi|]. reflexivity.
Qed.

(** The pattern of [normalizeOutput] matches a decimal without
    exponent. *)
Lemma numericRe_decimal neg ip fp :
  ip <> [] -> forallb isDigit ip = true -> forallb isDigit fp = true ->
  Run.numericRe (signStr neg ++ decimalString ip fp) = true.
Proof.
  intros Hne Hi Hf. destruct ip as [|c ip]; [congruence|].
  assert (Hc : isDigit c = true) by (cbn in Hi; apply andb_true_iff in Hi; tauto).
  unfold Run.numericRe.
  change (decimalString (c :: ip) fp) with (c :: (ip ++ match fp with
                                                        | [] => []
                                                        | _ :: _ => 46%N :: fp
                                                        end)).
  rewrite (stripMinus_signStr _ _ _ Hc). cbn [snd].
  change (c :: (ip ++ match fp with
                      | [] => []
                      | _ :: _ => 46%N :: fp
                      end)) with (decimalString (c :: ip) fp).
  rewrite <- (app_nil_r (decimalString _ _)).
  rewrite span_decimalString by (auto; intros; exact I).
  destruct fp as [|f fp]; [reflexivity|].
  rewrite app_nil_r. cbn [N.eqb Pos.eqb].
  rewrite <- (app_nil_r (f :: fp)), span_digits_app by (auto; exact I).
  reflexivity.
Qed.

(** It does not match a decimal with an exponent. *)
Lemma numericRe_exponent neg d r ex :
  isDigit d = true -> forallb isDigit r = true ->
  Run.numericRe (signStr neg ++ decimalString [d] r ++ 101%N :: ex) = false.
Proof.
  intros Hd Hr. unfold Run.numericRe.
  change (decimalString [d] r ++ 101%N :: ex) with
    (d :: (match r with
           | [] => []
           | _ :: _ => 46%N :: r
           end ++ 101%N :: ex)).
  rewrite (stripMinus_signStr _ _ _ Hd). cbn [snd].
  destruct r as [|f r].
  - change (d :: [] ++ 101%N :: ex) with ([d] ++ 101%N :: ex).
    rewrite span_digits_app; [reflexivity| cbn; rewrite Hd; reflexivity | reflexivity].
  - change (d :: (46%N :: f :: r) ++ 101%N :: ex)
      with ([d] ++ 46%N :: (f :: r) ++ 101%N :: ex).
    rewrite span_digits_app; [| cbn; rewrite Hd; reflexivity | reflexivity].
    cbn [N.eqb Pos.eqb].
    rewrite span_digits_app; [reflexivity | exact Hr | reflexivity].
Qed.

Lemma nonDecimal_head z r : z <> 48%N -> nonDecimalLiteral (z :: r) = None.
Proof.
  intros Hz. destruct r as [|x [|d r]]; cbn; try reflexivity.
  replace (z =? 48)%N with false by (symmetry; apply N.eqb_neq; exact Hz).
  reflexivity.
Qed.

Lemma nonDecimal_second z x r :
  isDigit x = true \/ x = 46%N -> nonDecimalLiteral (z :: x :: r) = None.
Proof.
  intros Hx. destruct r as [|d r]; [reflexivity|]. cbn.
  destruct (negb (z =? 48)%N); [reflexivity|].
  assert (Hr : (x = 46 \/ 48 <= x <= 57)%N)
    by (destruct Hx as [Hx | ->]; [apply isDigit_range in Hx|]; lia).
  repeat match goal with
  | |- context [(x =? ?k)%N] =>
      replace (x =? k)%N with false by (symmetry; apply N.eqb_neq; lia)
  end.
  reflexivity.
Qed.

Lemma nonDecimal_decimal ip fp :
  forallb isDigit ip = true -> forallb isDigit fp = true ->
  nonDecimalLiteral (decimalString ip fp) = None.
Proof.
  intros Hi Hf. unfold decimalString.
  destruct ip as [|z [|x ip]].
  - destruct fp as [|f [|g fp]]; reflexivity.
  - destruct fp as [|f fp]; [reflexivity|]. cbn [app].
    apply nonDecimal_second. right. reflexivity.
  - cbn [app]. apply nonDecimal_second. left.
    cbn in Hi. rewrite !andb_true_iff in Hi. tauto.
Qed.

Lemma str_neq_head c r c' r' : c <> c' -> str_eqb (c :: r) (c' :: r') = false.
Proof. intros Hc. apply str_eqb_neq. congruence. Qed.

Lemma strDecimal_decimal neg ip fp :
  ip <> [] -> forallb isDigit ip = true -> forallb isDigit fp = true ->
  strDecimal neg (decimalString ip fp) = decimalValue neg ip fp 0.
Proof.
  intros Hne Hi Hf. unfold strDecimal.
  rewrite <- (app_nil_r (decimalString ip fp)).
  rewrite span_decimalString by (auto; intros; exact I).
  destruct ip as [|c ip]; [congruence|].
  destruct fp as [|f fp]; [reflexivity|].
  rewrite app_nil_r. cbn [N.eqb Pos.eqb].
  rewrite (span_digits_all _ Hf). reflexivity.
Qed.

(** [Number] reads a decimal without exponent as the binary64 value
    nearest to it. *)
Lemma StringToNumber_decimal neg ip fp :
  ip <> [] -> forallb isDigit ip = true -> forallb isDigit fp = true ->
  StringToNumber (signStr neg ++ decimalString ip fp) = decimalValue neg ip fp 0.
Proof.
  intros Hne Hi Hf. unfold StringToNumber.
  rewrite trim_printable
    by (apply Forall_app; split;
        [apply signStr_printable | apply decimalString_printable; assumption]).
  destruct ip as [|c ip]; [congruence|].
  assert (Hc : (48 <= c <= 57)%N)
    by (apply isDigit_range; cbn in Hi; apply andb_true_iff in Hi; tauto).
  destruct neg; cbn [signStr app].
  - rewrite nonDecimal_head by discriminate.
    change (decimalString (c :: ip) fp) with (c :: (ip ++ match fp with
                                                          | [] => []
                                                          | _ :: _ => 46%N :: fp
                                                          end)).
    cbn [splitSign N.eqb Pos.eqb].
    change (lit "Infinity") with (73%N :: lit "nfinity").
    rewrite str_neq_head by lia.
    apply (strDecimal_decimal true (c :: ip) fp); assumption.
  - rewrite nonDecimal_decimal by assumption.
    change (decimalString (c :: ip) fp) with (c :: (ip ++ match fp with
                                                          | [] => []
                                                          | _ :: _ => 46%N :: fp
                                                          end)).
    cbn [splitSign].
    replace (c =? 45)%N with false by (symmetry; apply N.eqb_neq; lia).
    replace (c =? 43)%N with false by (symmetry; apply N.eqb_neq; lia).
    change (lit "Infinity") with (73%N :: lit "nfinity").
    rewrite str_neq_head by lia.
    apply (strDecimal_decimal false (c :: ip) fp); assumption.
Qed.

Lemma Qeq_of_eq (a b : Q) : a = b -> a == b.
Proof. intros ->. reflexivity. Qed.

(** The two layouts of Number::toString: a decimal [ip.fp] worth
    [ds * 10^(n-k)], or the first digit, the others after a point, and an
    exponent. *)
Lemma formatNumber_shape ds n :
  forallb isDigit ds = true -> ds <> [] ->
  (exists ip fp,
     formatNumber ds n = decimalString ip fp /\
     ip <> [] /\ forallb isDigit ip = true /\ forallb isDigit fp = true /\
     (ip = [48%N] \/ exists c0 r0 r1, ds = c0 :: r0 /\ ip = c0 :: r1) /\
     decQ (Z.of_N (digits_val (ip ++ fp))) (0 - Z.of_nat (length fp)) ==
       decQ (Z.of_N (digits_val ds)) (n - Z.of_nat (length ds))) \/
  (exists d r,
     ds = d :: r /\
     formatNumber ds n =
       decimalString [d] r ++ [101%N] ++
       (if n - 1 <? 0 then [45%N] else [43%N]) ++ digits (Z.to_N (Z.abs (n - 1)))).
Proof.
  intros Hd Hne. unfold formatNumber.
  set (k := Z.of_nat (length ds)).
  assert (Hk : 0 < k) by (destruct ds; [congruence|]; subst k; cbn [length]; lia).
  destruct ((k <=? n) && (n <=? 21)) eqn:E1.
  { left. apply andb_true_iff in E1. destruct E1 as [E1 _]. apply Z.leb_le in E1.
    exists (ds ++ zeros (n - k)), []. split; [reflexivity|].
    split; [destruct ds; [congruence|discriminate]|].
    split; [rewrite forallb_app, Hd, zeros_isDigit; reflexivity|].
    split; [reflexivity|]. split.
    - right. destruct ds as [|c0 r0]; [congruence|]. exists c0, r0, (r0 ++ zeros (n - k)).
      auto.
    - rewrite app_nil_r, digits_val_app. unfold zeros at 2. rewrite digits_val_zeros.
      unfold zeros. rewrite repeat_length, N.add_0_r, N2Z.inj_mul, N2Z.inj_pow.
      rewrite nat_N_Z, Z2Nat.id by lia. cbn [length Z.of_nat].
      change (Z.of_N 10) with 10. rewrite decQ_shift by lia.
      apply Qeq_of_eq. f_equal; lia. }
  destruct ((0 <? n) && (n <=? 21)) eqn:E2.
  { left. apply andb_true_iff in E2. destruct E2 as [E2 E2'].
    apply Z.ltb_lt in E2. apply Z.leb_le in E2'.
    assert (Hnk : n < k).
    { apply andb_false_iff in E1. rewrite !Z.leb_gt in E1. lia. }
    exists (take (Z.to_nat n) ds), (drop (Z.to_nat n) ds). split; [reflexivity|].
    assert (Hsplit : take (Z.to_nat n) ds ++ drop (Z.to_nat n) ds = ds)
      by apply take_drop.
    rewrite <- Hsplit, forallb_app in Hd. apply andb_true_iff in Hd.
    destruct Hd as [Hd1 Hd2].
    split.
    { destruct ds as [|c0 r0]; [congruence|].
      destruct (Z.to_nat n) as [|j] eqn:Ej; [lia|]. discriminate. }
    split; [exact Hd1|]. split; [exact Hd2|]. split.
    - right. destruct ds as [|c0 r0]; [congruence|].
      destruct (Z.to_nat n) as [|j] eqn:Ej; [lia|].
      exists c0, r0, (take j r0). auto.
    - rewrite Hsplit, length_drop. apply Qeq_of_eq. f_equal; subst k; lia. }
  destruct ((-6 <? n) && (n <=? 0)) eqn:E3.
  { left. apply andb_true_iff in E3. destruct E3 as [_ E3]. apply Z.leb_le in E3.
    exists [48%N], (zeros (- n) ++ ds). split; [reflexivity|].
    split; [discriminate|]. split; [reflexivity|].
    split; [rewrite forallb_app, Hd, zeros_isDigit; reflexivity|].
    split; [left; reflexivity|].
    change ([48%N] ++ zeros (- n) ++ ds) with ((48%N :: zeros (- n)) ++ ds).
    rewrite digits_val_app.
    change (48%N :: zeros (- n)) with (repeat 48%N (S (Z.to_nat (- n)))).
    rewrite digits_val_zeros, N.mul_0_l, N.add_0_l.
    apply Qeq_of_eq. f_equal. rewrite length_app. unfold zeros.
    rewrite repeat_length. subst k; lia. }
  right. destruct ds as [|d r]; [congruence|]. exists d, r. auto.
Qed.

(** ** [normalizeOutput] *)

Section NormalizeFacts.
Import Run.

(** [normalizeOutput] looks at its argument through [trim] only. *)
Lemma normalizeOutput_trim s : normalizeOutput (trim s) = normalizeOutput s.
Proof.
  unfold normalizeOutput, looksJsonLike. rewrite !trim_idem. reflexivity.
Qed.

Lemma looksJsonLike_head c r :
  trim (c :: r) = c :: r -> c <> 123%N -> c <> 91%N -> c <> 34%N ->
  looksJsonLike (c :: r) = false.
Proof.
  intros Ht H1 H2 H3. unfold looksJsonLike. rewrite Ht. cbn [startsWith].
  replace (123 =? c)%N with false by (symmetry; apply N.eqb_neq; congruence).
  replace (91 =? c)%N with false by (symmetry; apply N.eqb_neq; congruence).
  replace (34 =? c)%N with false by (symmetry; apply N.eqb_neq; congruence).
  reflexivity.
Qed.

(** When the number branch applies and returns its own input. *)
Lemma normalizeOutput_number_fixed out :
  trim out = out -> out <> [] ->
  numericRe out = true ->
  isNaN (StringToNumber out) = false ->
  numberToString (StringToNumber out) = out ->
  normalizeOutput out = out.
Proof.
  intros Ht Hne Hre Hnan Hfix. unfold normalizeOutput. rewrite Ht.
  destruct (str_eqb out (lit "null")) eqn:E1; [apply str_eqb_eq in E1; congruence|].
  destruct (str_eqb out (lit "true")) eqn:E2; [apply str_eqb_eq in E2; congruence|].
  destruct (str_eqb out (lit "false")) eqn:E3; [apply str_eqb_eq in E3; congruence|].
  replace (str_eqb out []) with false by (symmetry; apply str_eqb_neq; exact Hne).
  rewrite Hnan, Hre. exact Hfix.
Qed.

(** When no branch applies. *)
Lemma normalizeOutput_plain out :
  trim out = out -> numericRe out = false -> looksJsonLike out = false ->
  normalizeOutput out = out.
Proof.
  intros Ht Hre Hj. unfold normalizeOutput. rewrite Ht.
  destruct (str_eqb out (lit "null")) eqn:E1; [apply str_eqb_eq in E1; congruence|].
  destruct (str_eqb out (lit "true")) eqn:E2; [apply str_eqb_eq in E2; congruence|].
  destruct (str_eqb out (lit "false")) eqn:E3; [apply str_eqb_eq in E3; congruence|].
  rewrite Hre, andb_false_r, Hj. reflexivity.
Qed.

(** What [String] prints for a Number normalises to itself. *)
Lemma normalizeOutput_numberToString x :
  normalizeOutput (numberToString x) = numberToString x.
Proof.
  destruct x as [|z|neg m e|neg].
  - vm_compute. reflexivity.
  - vm_compute. reflexivity.
  - cbn [numberToString].
    destruct (shortest m e) as [[s n]|] eqn:Es; [|vm_compute; reflexivity].
    destruct (shortest_good _ _ _ _ neg Es) as [Hs Hround].
    set (ds := digits (Z.to_N s)) in *.
    assert (Hd : forallb isDigit ds = true) by apply digits_isDigit.
    assert (Hne : ds <> []) by apply digits_nonempty.
    assert (Hval : Z.of_N (digits_val ds) = s)
      by (unfold ds; rewrite digits_val_digits; lia).
    destruct (formatNumber_shape ds n Hd Hne)
      as [(ip & fp & Hfmt & Hip & Hdi & Hdf & _ & Hq) | (d & r & Hds & ->)].
    + rewrite Hfmt.
      assert (Hnum : StringToNumber (signStr neg ++ decimalString ip fp) = FFin neg m e).
      { rewrite StringToNumber_decimal by assumption. unfold decimalValue.
        rewrite (roundQ_Qeq _ _ _ Hq), Hval. exact Hround. }
      apply normalizeOutput_number_fixed.
      * apply trim_printable, Forall_app. split;
          [apply signStr_printable | apply decimalString_printable; assumption].
      * destruct neg; [discriminate|]. destruct ip; [congruence|discriminate].
      * apply numericRe_decimal; assumption.
      * rewrite Hnum. reflexivity.
      * rewrite Hnum. cbn [numberToString]. rewrite Es.
        fold ds. rewrite Hfmt. reflexivity.
    + rewrite Hds in Hd. cbn [forallb] in Hd. apply andb_true_iff in Hd.
      destruct Hd as [Hd0 Hdr].
      set (ex := (if n - 1 <? 0 then [45%N] else [43%N]) ++ digits _).
      assert (Hp : Forall printable (signStr neg ++ decimalString [d] r ++ [101%N] ++ ex)).
      { apply Forall_app. split; [apply signStr_printable|].
        apply Forall_app. split;
          [apply decimalString_printable; [cbn; rewrite Hd0; reflexivity|exact Hdr]|].
        constructor; [unfold printable; lia|]. subst ex. apply Forall_app. split.
        - destruct (n - 1 <? 0); repeat constructor; unfold printable; lia.
        - apply digits_printable, digits_isDigit. }
      apply normalizeOutput_plain.
      * apply trim_printable. exact Hp.
      * apply (numericRe_exponent neg d r ex Hd0 Hdr).
      * apply isDigit_range in Hd0.
        destruct neg; cbn [signStr app decimalString].
        -- apply looksJsonLike_head; [|discriminate..].
           apply (trim_printable _ Hp).
        -- apply looksJsonLike_head; [|lia..].
           apply (trim_printable _ Hp).
  - destruct neg; vm_compute; reflexivity.
Qed.

End NormalizeFacts.

(** ** Reading what [JSON.stringify] prints: strings *)

Lemma hexVal_hexDigit n : (n < 16)%N -> hexVal (hexDigit n) = Some n.
Proof.
  intros Hn. unfold hexDigit, hexVal.
  destruct (n <? 10)%N eqn:E.
  - apply N.ltb_lt in E.
    replace (isDigit (48 + n)) with true
      by (symmetry; apply isDigit_range; lia).
    f_equal. lia.
  - apply N.ltb_ge in E.
    replace (isDigit (87 + n)) with false
      by (symmetry; apply isDigit_false_range; lia).
    replace ((97 <=? 87 + n) && (87 + n <=? 102))%N with true
      by (symmetry; apply andb_true_iff; split; apply N.leb_le; lia).
    f_equal. lia.
Qed.

Lemma hex4_uescape c :
  (c < 65536)%N ->
  hex4 (hexDigit ((c / 4096) mod 16)) (hexDigit ((c / 256) mod 16))
       (hexDigit ((c / 16) mod 16)) (hexDigit (c mod 16)) = Some c.
Proof.
  intros Hc. unfold hex4.
  rewrite !hexVal_hexDigit by (apply N.mod_lt; lia).
  f_equal.
  replace (c / 4096)%N with (c / 16 / 16 / 16)%N by (rewrite !N.Div0.div_div; reflexivity).
  replace (c / 256)%N with (c / 16 / 16)%N by (rewrite !N.Div0.div_div; reflexivity).
  pose proof (N.div_mod' c 16) as E1.
  pose proof (N.div_mod' (c / 16) 16) as E2.
  pose proof (N.div_mod' (c / 16 / 16) 16) as E3.
  pose proof (N.mod_lt c 16 ltac:(lia)) as B1.
  pose proof (N.mod_lt (c / 16) 16 ltac:(lia)) as B2.
  pose proof (N.mod_lt (c / 16 / 16) 16 ltac:(lia)) as B3.
  assert (B4 : (c / 16 / 16 / 16 < 16)%N).
  { rewrite !N.Div0.div_div. apply N.Div0.div_lt_upper_bound. lia. }
  rewrite (N.mod_small _ _ B4).
  revert E1 E2 E3 B1 B2 B3 B4.
  generalize (c / 16 / 16 / 16)%N ((c / 16 / 16) mod 16)%N (c / 16 / 16)%N
             ((c / 16) mod 16)%N (c / 16)%N (c mod 16)%N.
  intros. lia.
Qed.

Lemma parse_string_uescape c tail :
  (c < 65536)%N ->
  parse_string (uescape c ++ tail) = consFst c (parse_string tail).
Proof.
  intros Hc. unfold uescape. cbn [app parse_string N.eqb Pos.eqb simpleEscape].
  rewrite (hex4_uescape c Hc). reflexivity.
Qed.

Lemma parse_string_plain c tail :
  (32 <= c)%N -> c <> 34%N -> c <> 92%N ->
  parse_string (c :: tail) = consFst c (parse_string tail).
Proof.
  intros H32 H34 H92. cbn [parse_string].
  replace (c =? 34)%N with false by (symmetry; apply N.eqb_neq; exact H34).
  replace (c =? 92)%N with false by (symmetry; apply N.eqb_neq; exact H92).
  replace (c <? 32)%N with false by (symmetry; apply N.ltb_ge; exact H32).
  reflexivity.
Qed.

Lemma parse_string_escapeUnit c tail :
  isLeadSurrogate c = false -> isTrailSurrogate c = false ->
  parse_string (escapeUnit c ++ tail) = consFst c (parse_string tail).
Proof.
  intros _ _. unfold escapeUnit.
  destruct (c =? 8)%N eqn:E8; [apply N.eqb_eq in E8; subst; reflexivity|].
  destruct (c =? 9)%N eqn:E9; [apply N.eqb_eq in E9; subst; reflexivity|].
  destruct (c =? 10)%N eqn:E10; [apply N.eqb_eq in E10; subst; reflexivity|].
  destruct (c =? 12)%N eqn:E12; [apply N.eqb_eq in E12; subst; reflexivity|].
  destruct (c =? 13)%N eqn:E13; [apply N.eqb_eq in E13; subst; reflexivity|].
  destruct (c =? 34)%N eqn:E34; [apply N.eqb_eq in E34; subst; reflexivity|].
  destruct (c =? 92)%N eqn:E92; [apply N.eqb_eq in E92; subst; reflexivity|].
  destruct (c <? 32)%N eqn:E32.
  - apply N.ltb_lt in E32. apply parse_string_uescape. lia.
  - apply N.ltb_ge in E32. apply N.eqb_neq in E34, E92.
    apply (parse_string_plain c tail); assumption.
Qed.

(** Reading the quoted form of a string gives the string back. *)
Lemma parse_string_quoteBody s : forall rest,
  parse_string (quoteBody s ++ 34%N :: rest) = Some (s, rest).
Proof.
  assert (G : forall n s, (length s <= n)%nat -> forall rest,
            parse_string (quoteBody s ++ 34%N :: rest) = Some (s, rest)).
  { induction n as [|n IH]; intros s0 Hl rest.
    - destruct s0; [reflexivity|cbn in Hl; lia].
    - destruct s0 as [|c r]; [reflexivity|]. cbn [quoteBody]. cbn in Hl.
      destruct (isLeadSurrogate c) eqn:El.
      + unfold isLeadSurrogate in El. apply andb_true_iff in El.
        rewrite !N.leb_le in El.
        destruct r as [|c2 r2].
        * rewrite parse_string_uescape by lia. reflexivity.
        * destruct (isTrailSurrogate c2) eqn:Et.
          -- unfold isTrailSurrogate in Et. apply andb_true_iff in Et.
             rewrite !N.leb_le in Et. cbn [app].
             rewrite parse_string_plain by lia.
             rewrite parse_string_plain by lia.
             rewrite IH by (cbn in Hl; lia). reflexivity.
          -- rewrite <- app_assoc, parse_string_uescape by lia.
             rewrite IH by lia. reflexivity.
      + destruct (isTrailSurrogate c) eqn:Et.
        * unfold isTrailSurrogate in Et. apply andb_true_iff in Et.
          rewrite !N.leb_le in Et.
          rewrite <- app_assoc, parse_string_uescape by lia.
          rewrite IH by lia. reflexivity.
        * rewrite <- app_assoc, parse_string_escapeUnit by assumption.
          rewrite IH by lia. reflexivity. }
  intros rest. apply (G (length s)). lia.
Qed.

(** ** Reading what [JSON.stringify] prints: numbers *)

Lemma parse_fraction_decimal fp tail :
  forallb isDigit fp = true -> fracEnd tail ->
  parse_fraction (match fp with
                  | [] => tail
                  | _ :: _ => 46%N :: fp ++ tail
                  end) = Some (fp, tail).
Proof.
  intros Hf Ht. destruct fp as [|f fp].
  - destruct tail as [|c t]; [reflexivity|]. cbn in Ht |- *.
    replace (c =? 46)%N with false by (symmetry; apply N.eqb_neq; tauto).
    reflexivity.
  - cbn [parse_fraction N.eqb Pos.eqb].
    rewrite span_digits_app; [reflexivity|exact Hf|].
    destruct tail; cbn in Ht |- *; tauto.
Qed.

(** [parse_number] on a sign, digits, an optional fraction and whatever
    the exponent reader accepts. *)
Lemma parse_number_parts neg ip fp tail ex rest :
  forallb isDigit ip = true -> forallb isDigit fp = true ->
  (ip = [48%N] \/ exists c0 r1, ip = c0 :: r1 /\ c0 <> 48%N) ->
  fracEnd tail ->
  parse_exponent tail = Some (ex, rest) ->
  parse_number (signStr neg ++ decimalString ip fp ++ tail)
    = Some (decimalValue neg ip fp ex, rest).
Proof.
  intros Hi Hf Hip Ht Hex.
  assert (Hshape : exists c r, ip = c :: r /\ isDigit c = true).
  { destruct Hip as [-> | (c0 & r1 & -> & _)].
    - exists 48%N, []. auto.
    - exists c0, r1. cbn in Hi. apply andb_true_iff in Hi. tauto. }
  destruct Hshape as (c & r & Eip & Hc).
  unfold parse_number.
  assert (Efull : decimalString ip fp ++ tail =
                  c :: (r ++ match fp with
                             | [] => tail
                             | _ :: _ => 46%N :: fp ++ tail
                             end)).
  { rewrite Eip. unfold decimalString. rewrite <- app_assoc.
    destruct fp; reflexivity. }
  rewrite Efull, (stripMinus_signStr _ _ _ Hc).
  assert (Eipr : (if (c =? 48)%N
                  then Some ([48%N], r ++ match fp with
                                          | [] => tail
                                          | _ :: _ => 46%N :: fp ++ tail
                                          end)
                  else match span_digits (c :: (r ++ match fp with
                                                     | [] => tail
                                                     | _ :: _ => 46%N :: fp ++ tail
                                                     end)) with
                       | ([], _) => None
                       | (ds, rest0) => Some (ds, rest0)
                       end) =
                 Some (ip, match fp with
                           | [] => tail
                           | _ :: _ => 46%N :: fp ++ tail
                           end)).
  { destruct Hip as [E48 | (c0 & r1 & E0 & Hnz)].
    - subst ip. injection Eip as <- <-. reflexivity.
    - subst ip. injection Eip as <- <-.
      replace (c0 =? 48)%N with false by (symmetry; apply N.eqb_neq; exact Hnz).
      rewrite app_comm_cons.
      rewrite span_digits_app; [reflexivity | exact Hi |].
      destruct fp; [|reflexivity]. destruct tail; cbn in Ht |- *; tauto. }
  rewrite Eipr, (parse_fraction_decimal _ _ Hf Ht), Hex. reflexivity.
Qed.

Lemma parse_exponent_none rest : numEnd rest -> parse_exponent rest = Some (0, rest).
Proof.
  destruct rest as [|c t]; [reflexivity|]. cbn. intros (_ & _ & H1 & H2).
  replace (c =? 101)%N with false by (symmetry; apply N.eqb_neq; exact H1).
  replace (c =? 69)%N with false by (symmetry; apply N.eqb_neq; exact H2).
  reflexivity.
Qed.

Lemma parse_exponent_printed (n : Z) rest :
  notDigitHead rest ->
  parse_exponent (101%N :: (if n <? 0 then [45%N] else [43%N]) ++
                  digits (Z.to_N (Z.abs n)) ++ rest) = Some (n, rest).
Proof.
  intros Hr. cbn [parse_exponent N.eqb Pos.eqb orb].
  assert (Hsp : span_digits (digits (Z.to_N (Z.abs n)) ++ rest) =
                (digits (Z.to_N (Z.abs n)), rest))
    by (apply span_digits_app; [apply digits_isDigit|exact Hr]).
  destruct (n <? 0) eqn:En; cbn [app N.eqb Pos.eqb]; rewrite Hsp;
    destruct (digits (Z.to_N (Z.abs n))) as [|d ds] eqn:Ed;
    try (exfalso; eapply digits_nonempty; exact Ed);
    rewrite <- Ed, digits_val_digits; do 2 f_equal.
  - apply Z.ltb_lt in En. lia.
  - apply Z.ltb_ge in En. lia.
Qed.

(** Where the printed form of a Number starts. *)
Lemma numberToString_head x :
  exists c r, numberToString x = c :: r /\
    (isDigit c = true \/ c = 45%N \/ c = 78%N \/ c = 73%N).
Proof.
  destruct x as [|z|neg m e|neg].
  - exists 78%N, (lit "aN"). auto.
  - exists 48%N, []. auto.
  - cbn [numberToString]. destruct (shortest m e) as [[s n]|];
      [|exists 78%N, (lit "aN"); auto].
    destruct neg; [exists 45%N; cbn [signStr app]; eauto|]. cbn [signStr app].
    pose proof (digits_isDigit (Z.to_N s)) as Hd.
    pose proof (digits_nonempty (Z.to_N s)) as Hne.
    destruct (formatNumber_shape _ n Hd Hne)
      as [(ip & fp & -> & Hip & Hdi & _) | (d & r & Hds & ->)].
    + destruct ip as [|c ip]; [congruence|]. exists c. eexists. split; [reflexivity|].
      left. cbn in Hdi. apply andb_true_iff in Hdi. tauto.
    + exists d. eexists. split; [reflexivity|]. left.
      rewrite Hds in Hd. cbn in Hd. apply andb_true_iff in Hd. tauto.
  - destruct neg; [exists 45%N|exists 73%N]; eexists; split; try reflexivity; auto.
Qed.

Lemma valEnd_numEnd rest : valEnd rest -> numEnd rest.
Proof.
  destruct rest as [|c t]; [trivial|]. cbn.
  intros [-> | [-> | ->]]; repeat split; discriminate.
Qed.

Lemma valEnd_fracEnd rest : valEnd rest -> fracEnd rest.
Proof.
  destruct rest as [|c t]; [trivial|]. cbn.
  intros [-> | [-> | ->]]; repeat split; discriminate.
Qed.

Lemma valEnd_skip_ws rest : valEnd rest -> skip_ws rest = rest.
Proof.
  destruct rest as [|c t]; [reflexivity|]. cbn.
  intros [-> | [-> | ->]]; reflexivity.
Qed.

(** Reading the printed form of a finite Number gives the Number back,
    without the sign of zero. *)
Lemma parse_number_printed x rest :
  isFinite x = true -> valEnd rest ->
  readsAs (parse_number (numberToString x ++ rest))
          (match x with
           | FZero _ => FZero false
           | _ => x
           end) rest.
Proof.
  intros Hfin Hrest. destruct x as [|z|neg m e|neg]; try discriminate Hfin.
  - right.
    change (numberToString (FZero z) ++ rest)
      with (signStr false ++ decimalString [48%N] [] ++ rest).
    rewrite (parse_number_parts false [48%N] [] rest 0 rest);
      [reflexivity | reflexivity | reflexivity | left; reflexivity
      | apply valEnd_fracEnd; exact Hrest
      | apply parse_exponent_none, valEnd_numEnd; exact Hrest].
  - cbn [numberToString].
    destruct (shortest m e) as [[s n]|] eqn:Es; [|left; reflexivity].
    right.
    destruct (shortest_good _ _ _ _ neg Es) as [Hs Hround].
    set (ds := digits (Z.to_N s)) in *.
    assert (Hd : forallb isDigit ds = true) by apply digits_isDigit.
    assert (Hne : ds <> []) by apply digits_nonempty.
    assert (Hval : Z.of_N (digits_val ds) = s)
      by (unfold ds; rewrite digits_val_digits; lia).
    destruct (digits_head (Z.to_N s) ltac:(lia)) as (d0 & r0 & Hhead & Hd0 & Hnz).
    fold ds in Hhead.
    destruct (formatNumber_shape ds n Hd Hne)
      as [(ip & fp & Hfmt & Hip & Hdi & Hdf & Hlead & Hq) | (d & r & Hds & Hfmt)];
      rewrite Hfmt, <- !app_assoc.
    + rewrite (parse_number_parts neg ip fp rest 0 rest); auto.
      * unfold decimalValue. rewrite (roundQ_Qeq _ _ _ Hq), Hval, Hround. reflexivity.
      * destruct Hlead as [-> | (c0 & r0' & r1 & E0 & ->)]; [left; reflexivity|].
        right. exists c0, r1. split; [reflexivity|]. congruence.
      * apply valEnd_fracEnd. exact Hrest.
      * apply parse_exponent_none, valEnd_numEnd. exact Hrest.
    + assert (E : d = d0 /\ r = r0) by (split; congruence). destruct E as [-> ->].
      rewrite Hhead in Hd. cbn [forallb] in Hd. apply andb_true_iff in Hd.
      destruct Hd as [_ Hdr].
      cbn [app].
      rewrite (parse_number_parts neg [d0] r0 _ (n - 1) rest).
      * unfold decimalValue. cbn [app]. rewrite <- Hhead, Hval.
        replace (n - 1 - Z.of_nat (length r0)) with (n - Z.of_nat (length ds))
          by (rewrite Hhead; cbn [length]; lia).
        rewrite Hround. reflexivity.
      * cbn. rewrite Hd0. reflexivity.
      * exact Hdr.
      * right. exists d0, []. auto.
      * cbn. split; [reflexivity|discriminate].
      * apply parse_exponent_printed.
        apply numEnd_notDigitHead, valEnd_numEnd. exact Hrest.
Qed.

(** [parse_value] hands a text that starts like a number to
    [parse_number]. *)
Lemma parse_value_number f c r :
  isDigit c = true \/ c = 45%N \/ c = 78%N \/ c = 73%N ->
  parse_value (S f) (c :: r) = mapFst JNum (parse_number (c :: r)).
Proof.
  intros Hc.
  assert (Hr : (48 <= c <= 57 \/ c = 45 \/ c = 78 \/ c = 73)%N)
    by (destruct Hc as [Hc|Hc]; [apply isDigit_range in Hc|]; lia).
  cbn [parse_value skip_ws].
  rewrite printable_not_jsonws by lia.
  replace (c =? 123)%N with false by (symmetry; apply N.eqb_neq; lia).
  replace (c =? 91)%N with false by (symmetry; apply N.eqb_neq; lia).
  replace (c =? 34)%N with false by (symmetry; apply N.eqb_neq; lia).
  change (lit "null") with (110%N :: lit "ull").
  change (lit "true") with (116%N :: lit "rue").
  change (lit "false") with (102%N :: lit "alse").
  cbn [startsWith].
  replace (110 =? c)%N with false by (symmetry; apply N.eqb_neq; lia).
  replace (116 =? c)%N with false by (symmetry; apply N.eqb_neq; lia).
  replace (102 =? c)%N with false by (symmetry; apply N.eqb_neq; lia).
  reflexivity.
Qed.

(** ** The order of the properties of an object *)

Lemma obj_replace_fresh k v p : ~ In k (map fst p) -> obj_replace k v p = None.
Proof.
  induction p as [|[k0 v0] p IH]; cbn; [reflexivity|]. intros Hn.
  replace (str_eqb k k0) with false
    by (symmetry; apply str_eqb_neq; intros ->; apply Hn; left; reflexivity).
  rewrite IH; [reflexivity|]. intros Hin. apply Hn. right. exact Hin.
Qed.

Lemma obj_insert_index_last n k v p :
  (forall k', In k' (map fst p) -> exists n', arrayIndex k' = Some n' /\ (n' <= n)%N) ->
  obj_insert_index n k v p = p ++ [(k, v)].
Proof.
  induction p as [|[k0 v0] p IH]; cbn; [reflexivity|]. intros Hall.
  destruct (Hall k0 (or_introl eq_refl)) as (n0 & -> & Hle).
  replace (n0 <=? n)%N with true by (symmetry; apply N.leb_le; exact Hle).
  rewrite IH; [reflexivity|]. intros k' Hin. apply Hall. right. exact Hin.
Qed.

Lemma orderedKeys_before p k rest :
  orderedKeys (p ++ k :: rest) ->
  ~ In k p /\
  forall n, arrayIndex k = Some n ->
    forall k', In k' p -> exists n', arrayIndex k' = Some n' /\ (n' <= n)%N.
Proof.
  induction p as [|h p IH]; cbn [app orderedKeys].
  - intros _. split; [tauto|]. intros n _ k' [].
  - intros (Hh & Hord & Hcond). destruct (IH Hord) as [Hk Hidx].
    assert (Hink : In k (p ++ k :: rest)) by (apply in_or_app; right; left; reflexivity).
    split.
    + intros [-> | Hin]; [apply Hh; exact Hink | apply Hk; exact Hin].
    + intros n Hn k' [<- | Hin]; [|apply (Hidx n Hn); exact Hin].
      destruct (arrayIndex h) as [nh|].
      * exists nh. split; [reflexivity|]. apply (Hcond k n Hink Hn).
      * rewrite (Hcond k Hink) in Hn. discriminate.
Qed.

Lemma obj_set_ordered_append p k v rest :
  orderedKeys (map fst (p ++ (k, v) :: rest)) -> obj_set k v p = p ++ [(k, v)].
Proof.
  rewrite map_app. cbn [map fst]. intros Hord.
  destruct (orderedKeys_before _ _ _ Hord) as [Hfresh Hidx].
  unfold obj_set. rewrite (obj_replace_fresh _ _ _ Hfresh).
  destruct (arrayIndex k) as [n|] eqn:En; [|reflexivity].
  apply obj_insert_index_last. intros k' Hin. apply (Hidx n eq_refl). exact Hin.
Qed.

(** Assigning the properties of an object in their order builds the
    same object. *)
Lemma build_obj_ordered kvs : orderedKeys (map fst kvs) -> build_obj kvs = kvs.
Proof.
  unfold build_obj.
  assert (G : forall kvs p, orderedKeys (map fst (p ++ kvs)) ->
            fold_left (fun o kv => obj_set kv.1 kv.2 o) kvs p = p ++ kvs).
  { clear. induction kvs as [|[k v] kvs IH]; intros p Hord; cbn [fold_left].
    - rewrite app_nil_r. reflexivity.
    - cbn [fst snd]. rewrite (obj_set_ordered_append _ _ _ _ Hord).
      rewrite IH; rewrite <- app_assoc; [reflexivity|exact Hord]. }
  intros Hord. apply (G kvs []). exact Hord.
Qed.

Lemma obj_replace_keys k v o o' : obj_replace k v o = Some o' -> map fst o' = map fst o.
Proof.
  revert o'. induction o as [|[k0 v0] o IH]; intros o' E; cbn in E; [discriminate|].
  destruct (str_eqb k k0).
  - injection E as <-. reflexivity.
  - destruct (obj_replace k v o) as [r|]; [|discriminate]. injection E as <-.
    cbn. rewrite (IH _ eq_refl). reflexivity.
Qed.

Lemma obj_replace_present k v o : obj_replace k v o = None -> ~ In k (map fst o).
Proof.
  induction o as [|[k0 v0] o IH]; cbn; [tauto|].
  destruct (str_eqb k k0) eqn:E; [discriminate|].
  destruct (obj_replace k v o); [discriminate|]. intros _ [-> | Hin].
  - apply str_eqb_neq in E. congruence.
  - apply IH; auto.
Qed.

Lemma obj_insert_index_keys n k v o x :
  In x (map fst (obj_insert_index n k v o)) <-> x = k \/ In x (map fst o).
Proof.
  induction o as [|[k0 v0] o IH]; cbn.
  - intuition congruence.
  - destruct (arrayIndex k0) as [n0|]; [destruct (n0 <=? n)%N|]; cbn; rewrite ?IH;
      intuition congruence.
Qed.

Lemma obj_insert_index_ordered n k v o :
  arrayIndex k = Some n -> ~ In k (map fst o) -> orderedKeys (map fst o) ->
  orderedKeys (map fst (obj_insert_index n k v o)).
Proof.
  intros Hk. induction o as [|[k0 v0] o IH]; intros Hfresh Hord.
  - cbn. rewrite Hk. repeat split; [tauto|]. intros k' n' [].
  - cbn [map fst orderedKeys] in Hord. destruct Hord as (H0 & Hord & Hcond).
    cbn [obj_insert_index].
    assert (Hne : k0 <> k) by (intros ->; apply Hfresh; left; reflexivity).
    assert (Hfr : ~ In k (map fst o)) by (intros Hin; apply Hfresh; right; exact Hin).
    destruct (arrayIndex k0) as [n0|] eqn:E0.
    + destruct (n0 <=? n)%N eqn:Ele.
      * apply N.leb_le in Ele. cbn [map fst orderedKeys]. rewrite E0.
        split; [|split; [apply IH; assumption|]].
        -- rewrite obj_insert_index_keys. intros [E | Hin]; [congruence | contradiction].
        -- intros k' n' Hin Hn'. apply obj_insert_index_keys in Hin.
           destruct Hin as [-> | Hin]; [congruence | eapply Hcond; eauto].
      * apply N.leb_gt in Ele. cbn [map fst orderedKeys]. rewrite Hk, E0.
        split; [exact Hfresh|]. split; [auto|].
        intros k' n' [<- | Hin] Hn'.
        -- assert (n' = n0) by congruence. lia.
        -- pose proof (Hcond _ _ Hin Hn'). lia.
    + cbn [map fst orderedKeys]. rewrite Hk, E0.
      split; [exact Hfresh|]. split; [auto|].
      intros k' n' [<- | Hin] Hn'; [congruence|].
      rewrite (Hcond _ Hin) in Hn'. discriminate.
Qed.

Lemma orderedKeys_append_name k o :
  arrayIndex k = None -> ~ In k o -> orderedKeys o -> orderedKeys (o ++ [k]).
Proof.
  intros Hk. induction o as [|k0 o IH]; intros Hfresh Hord.
  - cbn. rewrite Hk. repeat split; [tauto|]. intros k' [].
  - cbn [app orderedKeys] in Hord |- *. destruct Hord as (H0 & Hord & Hcond).
    split; [|split].
    + intros Hin. apply in_app_or in Hin. destruct Hin as [Hin | [-> | []]];
        [contradiction|]. apply Hfresh. left. reflexivity.
    + apply IH; [|exact Hord]. intros Hin. apply Hfresh. right. exact Hin.
    + destruct (arrayIndex k0) as [n0|].
      * intros k' n' Hin Hn'. apply in_app_or in Hin.
        destruct Hin as [Hin | [<- | []]]; [eapply Hcond; eauto | congruence].
      * intros k' Hin. apply in_app_or in Hin.
        destruct Hin as [Hin | [<- | []]]; [apply Hcond; exact Hin | exact Hk].
Qed.

(** An assignment keeps the properties in order. *)
Lemma obj_set_ordered k v o :
  orderedKeys (map fst o) -> orderedKeys (map fst (obj_set k v o)).
Proof.
  intros Hord. unfold obj_set.
  destruct (obj_replace k v o) as [o'|] eqn:E.
  - rewrite (obj_replace_keys _ _ _ _ E). exact Hord.
  - apply obj_replace_present in E.
    destruct (arrayIndex k) as [n|] eqn:En.
    + apply obj_insert_index_ordered; assumption.
    + rewrite map_app. apply orderedKeys_append_name; assumption.
Qed.

Lemma build_obj_keys ms : orderedKeys (map fst (build_obj ms)).
Proof.
  unfold build_obj.
  assert (G : forall ms o, orderedKeys (map fst o) ->
            orderedKeys (map fst (fold_left (fun o kv => obj_set kv.1 kv.2 o) ms o))).
  { clear. induction ms as [|[k v] ms IH]; intros o Ho; cbn [fold_left]; [exact Ho|].
    apply IH. apply obj_set_ordered. exact Ho. }
  apply G. exact I.
Qed.

(** An assignment keeps a property of all the values that the new value
    has too. *)
Lemma obj_set_values (P : json -> Prop) k v o :
  P v -> Forall (fun kv => P kv.2) o -> Forall (fun kv => P kv.2) (obj_set k v o).
Proof.
  intros Hv Ho. unfold obj_set.
  destruct (obj_replace k v o) as [o'|] eqn:E.
  - revert o' E. induction Ho as [|[k0 v0] o H0 Ho IH]; intros o' E; cbn in E;
      [discriminate|].
    destruct (str_eqb k k0).
    + injection E as <-. constructor; assumption.
    + destruct (obj_replace k v o) as [r|]; [|discriminate]. injection E as <-.
      constructor; [exact H0|]. apply IH. reflexivity.
  - destruct (arrayIndex k) as [n|].
    + clear E. induction Ho as [|[k0 v0] o H0 Ho IH]; cbn.
      * constructor; [exact Hv|constructor].
      * destruct (arrayIndex k0) as [n0|]; [destruct (n0 <=? n)%N|];
          repeat (constructor; try assumption).
    + apply Forall_app. split; [exact Ho|]. constructor; [exact Hv|constructor].
Qed.

Lemma build_obj_values (P : json -> Prop) ms :
  Forall (fun kv => P kv.2) ms -> Forall (fun kv => P kv.2) (build_obj ms).
Proof.
  unfold build_obj.
  assert (G : forall ms o, Forall (fun kv => P kv.2) ms -> Forall (fun kv => P kv.2) o ->
            Forall (fun kv => P kv.2) (fold_left (fun o kv => obj_set kv.1 kv.2 o) ms o)).
  { clear. induction ms as [|[k v] ms IH]; intros o Hms Ho; cbn [fold_left]; [exact Ho|].
    inversion Hms; subst. apply IH; [assumption|].
    apply obj_set_values; assumption. }
  intros Hms. apply G; [exact Hms|constructor].
Qed.

(** ** Reading what [JSON.stringify] prints: values *)

(** Induction on a value, with the hypothesis for every element of an
    array and every property of an object. *)
Lemma json_nested_ind (P : json -> Prop) :
  P JNull -> (forall b, P (JBool b)) -> (forall x, P (JNum x)) ->
  (forall s, P (JStr s)) ->
  (forall l, Forall P l -> P (JArr l)) ->
  (forall o, Forall (fun kv => P kv.2) o -> P (JObj o)) ->
  forall v, P v.
Proof.
  intros Hn Hb Hx Hs Ha Ho.
  fix IH 1. intros [|b|x|s|l|o].
  - exact Hn.
  - apply Hb.
  - apply Hx.
  - apply Hs.
  - apply Ha. induction l as [|x l IHl]; constructor; [apply IH | exact IHl].
  - apply Ho. induction o as [|[k x] o IHo]; constructor; [apply IH | exact IHo].
Qed.

Lemma stringify_arr l : stringify (JArr l) = 91%N :: stringifyItems l ++ [93%N].
Proof. reflexivity. Qed.

Lemma stringify_obj o : stringify (JObj o) = 123%N :: stringifyProps o ++ [125%N].
Proof. reflexivity. Qed.

Lemma stringifyItems_cons x r :
  stringifyItems (x :: r) =
  match r with
  | [] => stringify x
  | _ :: _ => stringify x ++ 44%N :: stringifyItems r
  end.
Proof. destruct r; reflexivity. Qed.

Lemma stringifyProps_cons k x r :
  stringifyProps ((k, x) :: r) =
  match r with
  | [] => 34%N :: quoteBody k ++ 34%N :: 58%N :: stringify x
  | _ :: _ => 34%N :: quoteBody k ++ 34%N :: 58%N :: stringify x ++ 44%N :: stringifyProps r
  end.
Proof.
  destruct r; cbn [stringifyProps]; unfold quoteJSON; cbn [app];
    rewrite <- !app_assoc; reflexivity.
Qed.

Lemma wellFormed_arr l : wellFormed (JArr l) <-> Forall wellFormed l.
Proof.
  cbn [wellFormed]. induction l as [|x l IH].
  - split; [constructor | intros _; exact I].
  - rewrite Forall_cons_iff, <- IH. reflexivity.
Qed.

Lemma wellFormed_obj o :
  wellFormed (JObj o) <->
  orderedKeys (map fst o) /\ Forall (fun kv => wellFormed kv.2) o.
Proof.
  cbn [wellFormed].
  assert (G : (fix all (l : list (jsstring * json)) : Prop :=
                 match l with
                 | [] => True
                 | kv :: r => wellFormed kv.2 /\ all r
                 end) o <-> Forall (fun kv => wellFormed kv.2) o).
  { induction o as [|x l IH].
    - split; [constructor | intros _; exact I].
    - rewrite Forall_cons_iff, <- IH. reflexivity. }
  rewrite G. reflexivity.
Qed.

(** The first character of a printed value: no white space, and none of
    the characters that close an array or an object. *)
Lemma stringify_head v :
  exists c t, stringify v = c :: t /\ isJsonWs c = false /\ c <> 93%N /\ c <> 125%N.
Proof.
  destruct v as [|[|]|x|s|l|o].
  - exists 110%N, (lit "ull"). repeat split; try reflexivity; discriminate.
  - exists 116%N, (lit "rue"). repeat split; try reflexivity; discriminate.
  - exists 102%N, (lit "alse"). repeat split; try reflexivity; discriminate.
  - cbn [stringify]. destruct (isFinite x).
    + destruct (numberToString_head x) as (c & r & -> & Hc).
      exists c, r. split; [reflexivity|].
      assert (Hr : (48 <= c <= 57 \/ c = 45 \/ c = 78 \/ c = 73)%N)
        by (destruct Hc as [Hc|Hc]; [apply isDigit_range in Hc|]; lia).
      split; [apply printable_not_jsonws; lia|]. split; lia.
    + exists 110%N, (lit "ull"). repeat split; try reflexivity; discriminate.
  - exists 34%N, (quoteBody s ++ [34%N]). repeat split; try reflexivity; discriminate.
  - rewrite stringify_arr. eexists _, _. repeat split; try reflexivity; discriminate.
  - rewrite stringify_obj. eexists _, _. repeat split; try reflexivity; discriminate.
Qed.

Lemma skip_ws_head c t : isJsonWs c = false -> skip_ws (c :: t) = c :: t.
Proof. intros H. cbn [skip_ws]. rewrite H. reflexivity. Qed.

Lemma readsAs_None {A} (a : A) rest : readsAs None a rest.
Proof. left. reflexivity. Qed.

Lemma readsAs_Some {A} (a : A) rest : readsAs (Some (a, rest)) a rest.
Proof. right. reflexivity. Qed.

Lemma readsAs_mapFst {A C} (f : A -> C) r a rest :
  readsAs r a rest -> readsAs (mapFst f r) (f a) rest.
Proof. intros [-> | ->]; [left | right]; reflexivity. Qed.

Lemma readsAs_consFst {A} (x : A) r l rest :
  readsAs r l rest -> readsAs (consFst x r) (x :: l) rest.
Proof. intros [-> | ->]; [left | right]; reflexivity. Qed.

Lemma parse_elements_printed l :
  Forall readsBack l -> Forall wellFormed l -> l <> [] ->
  forall fuel rest,
  readsAs (parse_elements fuel (stringifyItems l ++ 93%N :: rest))
          (map normJson l) rest.
Proof.
  induction l as [|x l IH]; [congruence|]. intros HP Hwf _ fuel rest.
  inversion HP as [|? ? Hx HPl]; subst. inversion Hwf as [|? ? Hwx Hwl]; subst.
  destruct fuel as [|f]; [apply readsAs_None|].
  cbn [parse_elements]. rewrite stringifyItems_cons.
  destruct l as [|y l'].
  - destruct (Hx Hwx f (93%N :: rest)) as [-> | ->];
      [cbn; auto | apply readsAs_None |].
    rewrite skip_ws_head by reflexivity. apply readsAs_Some.
  - rewrite <- app_assoc. cbn [app].
    destruct (Hx Hwx f (44%N :: stringifyItems (y :: l') ++ 93%N :: rest))
      as [-> | ->]; [cbn; auto | apply readsAs_None |].
    rewrite skip_ws_head by reflexivity.
    change (44 =? 44)%N with true. cbv iota.
    apply (readsAs_consFst (normJson x)). apply IH; [assumption|assumption|discriminate].
Qed.

Lemma parse_members_printed o :
  Forall (fun kv => readsBack kv.2) o -> Forall (fun kv => wellFormed kv.2) o ->
  o <> [] ->
  forall fuel rest,
  readsAs (parse_members fuel (stringifyProps o ++ 125%N :: rest))
          (map (fun kv => (kv.1, normJson kv.2)) o) rest.
Proof.
  induction o as [|[k x] o IH]; [congruence|]. intros HP Hwf _ fuel rest.
  inversion HP as [|? ? Hx HPl]; subst. inversion Hwf as [|? ? Hwx Hwl]; subst.
  cbn [fst snd] in Hx, Hwx.
  destruct fuel as [|f]; [apply readsAs_None|].
  cbn [parse_members]. rewrite stringifyProps_cons.
  destruct o as [|y l'].
  - cbn [app]. rewrite skip_ws_head by reflexivity.
    change (startsWith [34%N] (34%N :: ?t)) with true. cbv iota. cbn [drop]. rewrite drop_0.
    rewrite <- app_assoc. cbn [app]. rewrite parse_string_quoteBody.
    rewrite skip_ws_head by reflexivity. cbn [startsWith].
    change (58 =? 58)%N with true. cbn [andb drop]. rewrite drop_0.
    destruct (Hx Hwx f (125%N :: rest)) as [-> | ->];
      [cbn; auto | apply readsAs_None |].
    rewrite skip_ws_head by reflexivity. apply readsAs_Some.
  - cbn [app]. rewrite skip_ws_head by reflexivity.
    cbn [startsWith]. change (34 =? 34)%N with true. cbn [andb drop]. rewrite drop_0.
    rewrite <- app_assoc. cbn [app]. rewrite parse_string_quoteBody.
    rewrite skip_ws_head by reflexivity. cbn [startsWith].
    change (58 =? 58)%N with true. cbn [andb drop]. rewrite drop_0.
    rewrite <- app_assoc. cbn [app].
    destruct (Hx Hwx f (44%N :: stringifyProps (y :: l') ++ 125%N :: rest))
      as [-> | ->]; [cbn; auto | apply readsAs_None |].
    rewrite skip_ws_head by reflexivity.
    change (44 =? 44)%N with true. cbv iota.
    apply (readsAs_consFst (k, normJson x)).
    apply IH; [assumption|assumption|discriminate].
Qed.

(** Reading a printed value gives the value back, up to [normJson];
    the fuel decides only whether the reader finishes. *)
Lemma parse_value_printed v : readsBack v.
Proof.
  induction v as [|b|x|s|l IHl|o IHo] using json_nested_ind;
    intros Hwf fuel rest Hrest;
    (destruct fuel as [|f]; [apply readsAs_None|]).
  - apply readsAs_Some.
  - destruct b; apply readsAs_Some.
  - cbn [stringify normJson]. destruct (isFinite x) eqn:Efin.
    + destruct (numberToString_head x) as (c & r & Ec & Hc).
      pose proof (parse_number_printed x rest Efin Hrest) as Hnum.
      rewrite Ec in Hnum |- *. cbn [app] in Hnum |- *.
      rewrite (parse_value_number f c (r ++ rest) Hc).
      destruct x; try discriminate Efin; apply (readsAs_mapFst JNum); exact Hnum.
    + destruct x; try discriminate Efin; apply readsAs_Some.
  - cbn [stringify normJson]. unfold quoteJSON. cbn [app parse_value].
    rewrite skip_ws_head by reflexivity.
    change (34 =? 123)%N with false. change (34 =? 91)%N with false.
    change (34 =? 34)%N with true. cbv iota.
    rewrite <- app_assoc. cbn [app]. rewrite parse_string_quoteBody.
    apply readsAs_Some.
  - rewrite stringify_arr. cbn [normJson app parse_value].
    rewrite skip_ws_head by reflexivity.
    change (91 =? 123)%N with false. change (91 =? 91)%N with true. cbv iota.
    rewrite <- app_assoc. cbn [app].
    destruct l as [|x l].
    + cbn [stringifyItems app]. rewrite skip_ws_head by reflexivity.
      apply readsAs_Some.
    + destruct (stringify_head x) as (c & t & Ec & Hws & H93 & _).
      assert (Eh : exists t', stringifyItems (x :: l) ++ 93%N :: rest = c :: t').
      { rewrite stringifyItems_cons. destruct l; rewrite Ec; cbn [app]; eauto. }
      destruct Eh as [t' Eh].
      assert (Es : startsWith [93%N]
                     (skip_ws (stringifyItems (x :: l) ++ 93%N :: rest)) = false).
      { rewrite Eh, (skip_ws_head _ _ Hws). cbn [startsWith].
        replace (93 =? c)%N with false by (symmetry; apply N.eqb_neq; congruence).
        reflexivity. }
      rewrite Es.
      apply (readsAs_mapFst JArr). apply parse_elements_printed;
        [exact IHl | apply wellFormed_arr; exact Hwf | discriminate].
  - rewrite stringify_obj. cbn [normJson app parse_value].
    rewrite skip_ws_head by reflexivity.
    change (123 =? 123)%N with true. cbv iota.
    rewrite <- app_assoc. cbn [app].
    apply wellFormed_obj in Hwf. destruct Hwf as [Hord Hwf].
    destruct o as [|[k x] o].
    + cbn [stringifyProps app]. rewrite skip_ws_head by reflexivity.
      apply readsAs_Some.
    + assert (Eh : exists t', stringifyProps ((k, x) :: o) ++ 125%N :: rest = 34%N :: t').
      { rewrite stringifyProps_cons. destruct o; cbn [app]; eauto. }
      destruct Eh as [t' Eh].
      assert (Es : startsWith [125%N]
                     (skip_ws (stringifyProps ((k, x) :: o) ++ 125%N :: rest)) = false).
      { rewrite Eh, skip_ws_head by reflexivity. reflexivity. }
      rewrite Es.
      pose proof (parse_members_printed _ IHo Hwf ltac:(discriminate) f rest) as Hm.
      destruct Hm as [-> | ->]; [apply readsAs_None|].
      cbn [mapFst]. rewrite build_obj_ordered; [apply readsAs_Some|].
      rewrite map_map. cbn [fst]. exact Hord.
Qed.

Lemma normJson_stringify v : stringify (normJson v) = stringify v.
Proof.
  induction v as [|b|x|s|l IHl|o IHo] using json_nested_ind; try reflexivity.
  - destruct x; reflexivity.
  - cbn [normJson]. rewrite !stringify_arr. f_equal. f_equal.
    induction IHl as [|x l Hx Hl IH]; [reflexivity|].
    cbn [map]. rewrite !stringifyItems_cons.
    destruct l as [|y l']; [exact Hx|].
    cbn [map] in IH |- *. rewrite Hx, IH. reflexivity.
  - cbn [normJson]. rewrite !stringify_obj. f_equal. f_equal.
    induction IHo as [|[k x] l Hx Hl IH]; [reflexivity|].
    cbn [map fst snd]. rewrite !stringifyProps_cons. cbn [snd] in Hx.
    destruct l as [|y l']; [rewrite Hx; reflexivity|].
    cbn [map] in IH |- *. rewrite Hx, IH. reflexivity.
Qed.

(** ** What [JSON.parse] returns is an ordinary value *)

Lemma parse_wellFormed fuel :
  (forall s v r, parse_value fuel s = Some (v, r) -> wellFormed v) /\
  (forall s l r, parse_elements fuel s = Some (l, r) -> Forall wellFormed l) /\
  (forall s o r, parse_members fuel s = Some (o, r) ->
     Forall (fun kv => wellFormed kv.2) o).
Proof.
  induction fuel as [|f (IHv & IHe & IHm)]; [repeat split; discriminate|].
  split; [|split].
  - intros s v r. cbn [parse_value].
    destruct (skip_ws s) as [|c t]; [discriminate|].
    destruct (c =? 123)%N.
    { destruct (startsWith [125%N] (skip_ws t)).
      - intros E. injection E as <- _. apply wellFormed_obj. split; constructor.
      - destruct (parse_members f t) as [[ms r']|] eqn:Em; [|discriminate].
        intros E. injection E as <- _. apply wellFormed_obj. split.
        + apply build_obj_keys.
        + apply (build_obj_values wellFormed). apply (IHm _ _ _ Em). }
    destruct (c =? 91)%N.
    { destruct (startsWith [93%N] (skip_ws t)).
      - intros E. injection E as <- _. exact I.
      - destruct (parse_elements f t) as [[l r']|] eqn:Ee; [|discriminate].
        intros E. injection E as <- _. apply wellFormed_arr. apply (IHe _ _ _ Ee). }
    destruct (c =? 34)%N.
    { destruct (parse_string t) as [[k r']|]; [|discriminate].
      intros E. injection E as <- _. exact I. }
    destruct (startsWith (lit "null") (c :: t)); [intros E; injection E as <- _; exact I|].
    destruct (startsWith (lit "true") (c :: t)); [intros E; injection E as <- _; exact I|].
    destruct (startsWith (lit "false") (c :: t)); [intros E; injection E as <- _; exact I|].
    destruct (parse_number (c :: t)) as [[x r']|]; [|discriminate].
    intros E. injection E as <- _. exact I.
  - intros s l r. cbn [parse_elements].
    destruct (parse_value f s) as [[v r1]|] eqn:Ev; [|discriminate].
    destruct (skip_ws r1) as [|c t]; [discriminate|].
    destruct (c =? 44)%N.
    { destruct (parse_elements f t) as [[l' r']|] eqn:Ee; [|discriminate].
      intros E. injection E as <- _. constructor; [apply (IHv _ _ _ Ev)|apply (IHe _ _ _ Ee)]. }
    destruct (c =? 93)%N; [|discriminate].
    intros E. injection E as <- _. constructor; [apply (IHv _ _ _ Ev)|constructor].
  - intros s o r. cbn [parse_members].
    destruct (startsWith [34%N] (skip_ws s)); [|discriminate].
    destruct (parse_string (drop 1 (skip_ws s))) as [[k r1]|]; [|discriminate].
    destruct (startsWith [58%N] (skip_ws r1)); [|discriminate].
    destruct (parse_value f (drop 1 (skip_ws r1))) as [[v r3]|] eqn:Ev; [|discriminate].
    destruct (skip_ws r3) as [|c t]; [discriminate|].
    destruct (c =? 44)%N.
    { destruct (parse_members f t) as [[l' r']|] eqn:Ee; [|discriminate].
      intros E. injection E as <- _.
      constructor; [apply (IHv _ _ _ Ev)|apply (IHm _ _ _ Ee)]. }
    destruct (c =? 125)%N; [|discriminate].
    intros E. injection E as <- _. constructor; [apply (IHv _ _ _ Ev)|constructor].
Qed.

(** ** The fuel of [JSON_parse] is enough *)

Lemma skip_ws_length s : (length (skip_ws s) <= length s)%nat.
Proof.
  induction s as [|c s IH]; cbn [skip_ws]; [lia|].
  destruct (isJsonWs c); cbn [length] in *; lia.
Qed.

Lemma span_digits_length s ds rest :
  span_digits s = (ds, rest) -> length s = (length ds + length rest)%nat.
Proof.
  revert ds rest. induction s as [|c s IH]; intros ds rest H; cbn [span_digits] in H.
  - injection H as <- <-. reflexivity.
  - destruct (isDigit c).
    + destruct (span_digits s) as [d r] eqn:E. injection H as <- <-.
      cbn [length]. rewrite (IH _ _ eq_refl). lia.
    + injection H as <- <-. reflexivity.
Qed.

Lemma consFst_Some {A B} (a : A) (r : option (list A * B)) l b :
  consFst a r = Some (l, b) -> exists l', r = Some (l', b) /\ l = a :: l'.
Proof.
  destruct r as [[l' b']|]; cbn; [|discriminate].
  intros H. injection H as <- <-. eauto.
Qed.

(** A string ends after the text that was read. *)
Lemma parse_string_length s k r :
  parse_string s = Some (k, r) -> (length r < length s)%nat.
Proof.
  assert (G : forall n s, (length s <= n)%nat -> forall k r,
            parse_string s = Some (k, r) -> (length r < length s)%nat).
  { clear. induction n as [|n IH]; intros s Hn k r H.
    - destruct s; [discriminate|cbn in Hn; lia].
    - destruct s as [|c t]; [discriminate|]. cbn [parse_string] in H.
      cbn [length] in Hn |- *.
      destruct (c =? 34)%N; [injection H as _ <-; lia|].
      destruct (c =? 92)%N.
      + destruct t as [|e r1]; [discriminate|]. cbn [length] in Hn |- *.
        destruct (simpleEscape e).
        * apply consFst_Some in H. destruct H as (l' & H & _).
          apply IH in H; lia.
        * destruct (e =? 117)%N; [|discriminate].
          destruct r1 as [|h1 [|h2 [|h3 [|h4 r2]]]]; try discriminate.
          cbn [length] in Hn |- *.
          destruct (hex4 h1 h2 h3 h4); [|discriminate].
          apply consFst_Some in H. destruct H as (l' & H & _).
          apply IH in H; lia.
      + destruct (c <? 32)%N; [discriminate|].
        apply consFst_Some in H. destruct H as (l' & H & _).
        apply IH in H; lia. }
  apply (G (length s)). lia.
Qed.

Lemma parse_fraction_length s fp r :
  parse_fraction s = Some (fp, r) -> (length r <= length s)%nat.
Proof.
  unfold parse_fraction. destruct s as [|c t]; [intros H; injection H as _ <-; lia|].
  destruct (c =? 46)%N; [|intros H; injection H as _ <-; lia].
  destruct (span_digits t) as [ds rest] eqn:E. apply span_digits_length in E.
  destruct ds; [discriminate|]. intros H. injection H as _ <-. cbn [length]. lia.
Qed.

Lemma parse_exponent_length s x r :
  parse_exponent s = Some (x, r) -> (length r <= length s)%nat.
Proof.
  unfold parse_exponent. destruct s as [|c t]; [intros H; injection H as _ <-; lia|].
  destruct ((c =? 101)%N || (c =? 69)%N); [|intros H; injection H as _ <-; lia].
  set (p := match t with
            | [] => (false, t)
            | y :: r' =>
                if (y =? 45)%N then (true, r')
                else if (y =? 43)%N then (false, r') else (false, t)
            end).
  assert (Hp : (length p.2 <= length t)%nat).
  { subst p. destruct t as [|y r']; [cbn; lia|].
    destruct (y =? 45)%N; [cbn; lia|]. destruct (y =? 43)%N; cbn; lia. }
  destruct p as [neg r1]. cbn [snd] in Hp.
  destruct (span_digits r1) as [ds rest] eqn:E. apply span_digits_length in E.
  destruct ds; [discriminate|]. intros H. injection H as _ <-. cbn [length]. lia.
Qed.

(** A number takes at least one character. *)
Lemma parse_number_length s x r :
  parse_number s = Some (x, r) -> (length r < length s)%nat.
Proof.
  unfold parse_number. destruct (stripMinus s) as [neg s1] eqn:Em.
  assert (H1 : (length s1 <= length s)%nat).
  { unfold stripMinus in Em. destruct s as [|c t]; [injection Em as _ <-; lia|].
    destruct (c =? 45)%N; injection Em as _ <-; cbn [length]; lia. }
  set (ip_rest := match s1 with
                  | [] => None
                  | c :: t =>
                      if (c =? 48)%N then Some ([48%N], t)
                      else match span_digits s1 with
                           | ([], _) => None
                           | (ds, rest) => Some (ds, rest)
                           end
                  end).
  assert (H2 : forall ip s2, ip_rest = Some (ip, s2) -> (length s2 < length s1)%nat).
  { subst ip_rest. intros ip s2. destruct s1 as [|c t]; [discriminate|].
    destruct (c =? 48)%N; [intros H; injection H as _ <-; cbn [length]; lia|].
    destruct (span_digits (c :: t)) as [ds rest] eqn:E. apply span_digits_length in E.
    destruct ds; [discriminate|]. intros H. injection H as _ <-.
    cbn [length] in E |- *. lia. }
  destruct ip_rest as [[ip s2]|]; [|discriminate].
  specialize (H2 _ _ eq_refl).
  destruct (parse_fraction s2) as [[fp s3]|] eqn:Ef; [|discriminate].
  apply parse_fraction_length in Ef.
  destruct (parse_exponent s3) as [[ex s4]|] eqn:Ee; [|discriminate].
  apply parse_exponent_length in Ee.
  intros H. injection H as _ <-. lia.
Qed.

Lemma startsWith_length p s : startsWith p s = true -> (length p <= length s)%nat.
Proof.
  revert s. induction p as [|a p IH]; intros s H; [cbn; lia|].
  destruct s as [|b s]; [discriminate|]. cbn [startsWith] in H.
  apply andb_true_iff in H. destruct H as [_ H]. apply IH in H. cbn [length]. lia.
Qed.

Lemma mapFst_Some {A B C} (f : A -> C) (r : option (A * B)) c b :
  mapFst f r = Some (c, b) -> exists a, r = Some (a, b) /\ c = f a.
Proof.
  destruct r as [[a b']|]; cbn; [|discriminate].
  intros H. injection H as <- <-. eauto.
Qed.

(** A reader that accepts has read at least one character, and accepts
    with the same result on twice as much fuel as it has read
    characters, and on any more. *)
Lemma parse_fuel f :
  (forall s v r, parse_value f s = Some (v, r) ->
     (length r < length s)%nat /\
     forall f', (2 * (length s - length r) <= f')%nat ->
       parse_value f' s = Some (v, r)) /\
  (forall s l r, parse_elements f s = Some (l, r) ->
     (length r < length s)%nat /\
     forall f', (2 * (length s - length r) <= f')%nat ->
       parse_elements f' s = Some (l, r)) /\
  (forall s o r, parse_members f s = Some (o, r) ->
     (length r < length s)%nat /\
     forall f', (2 * (length s - length r) <= f')%nat ->
       parse_members f' s = Some (o, r)).
Proof.
  induction f as [|f (IHv & IHe & IHm)]; [repeat split; discriminate|].
  split; [|split].
  - intros s v r H. cbn [parse_value] in H.
    pose proof (skip_ws_length s) as Hs.
    destruct (skip_ws s) as [|c t] eqn:Es; [discriminate|]. cbn [length] in Hs.
    assert (Leaf : (length r < length s)%nat ->
              (forall g, parse_value (S g) s = Some (v, r)) ->
              (length r < length s)%nat /\
              forall f', (2 * (length s - length r) <= f')%nat ->
                parse_value f' s = Some (v, r)).
    { intros Hl Hg. split; [exact Hl|]. intros [|g] Hf; [lia|apply Hg]. }
    destruct (c =? 123)%N eqn:E1.
    { pose proof (skip_ws_length t) as Ht.
      destruct (startsWith [125%N] (skip_ws t)) eqn:E2.
      - injection H as <- <-. apply Leaf.
        + apply startsWith_length in E2. cbn [length] in E2.
          rewrite length_drop. lia.
        + intros g. cbn [parse_value]. rewrite Es, E1, E2. reflexivity.
      - apply mapFst_Some in H. destruct H as (ms & Hm & ->).
        destruct (IHm _ _ _ Hm) as [Hl Hmono]. split; [lia|].
        intros [|g] Hf; [lia|]. cbn [parse_value]. rewrite Es, E1, E2.
        rewrite Hmono by lia. reflexivity. }
    destruct (c =? 91)%N eqn:E3.
    { pose proof (skip_ws_length t) as Ht.
      destruct (startsWith [93%N] (skip_ws t)) eqn:E2.
      - injection H as <- <-. apply Leaf.
        + apply startsWith_length in E2. cbn [length] in E2.
          rewrite length_drop. lia.
        + intros g. cbn [parse_value]. rewrite Es, E1, E3, E2. reflexivity.
      - apply mapFst_Some in H. destruct H as (l & Hm & ->).
        destruct (IHe _ _ _ Hm) as [Hl Hmono]. split; [lia|].
        intros [|g] Hf; [lia|]. cbn [parse_value]. rewrite Es, E1, E3, E2.
        rewrite Hmono by lia. reflexivity. }
    destruct (c =? 34)%N eqn:E4.
    { apply Leaf.
      - apply mapFst_Some in H. destruct H as (k & Hm & _).
        apply parse_string_length in Hm. lia.
      - intros g. cbn [parse_value]. rewrite Es, E1, E3, E4. exact H. }
    destruct (startsWith (lit "null") (c :: t)) eqn:E5.
    { apply Leaf.
      - injection H as _ <-. apply startsWith_length in E5.
        rewrite length_drop. cbn [length] in E5 |- *.
        change (length (lit "null")) with 4%nat in E5. lia.
      - intros g. cbn [parse_value]. rewrite Es, E1, E3, E4, E5. exact H. }
    destruct (startsWith (lit "true") (c :: t)) eqn:E6.
    { apply Leaf.
      - injection H as _ <-. apply startsWith_length in E6.
        rewrite length_drop. cbn [length] in E6 |- *.
        change (length (lit "true")) with 4%nat in E6. lia.
      - intros g. cbn [parse_value]. rewrite Es, E1, E3, E4, E5, E6. exact H. }
    destruct (startsWith (lit "false") (c :: t)) eqn:E7.
    { apply Leaf.
      - injection H as _ <-. apply startsWith_length in E7.
        rewrite length_drop. cbn [length] in E7 |- *.
        change (length (lit "false")) with 5%nat in E7. lia.
      - intros g. cbn [parse_value]. rewrite Es, E1, E3, E4, E5, E6, E7. exact H. }
    apply Leaf.
    + apply mapFst_Some in H. destruct H as (x & Hm & _).
      apply parse_number_length in Hm. cbn [length] in Hm. lia.
    + intros g. cbn [parse_value]. rewrite Es, E1, E3, E4, E5, E6, E7. exact H.
  - intros s l r H. cbn [parse_elements] in H.
    destruct (parse_value f s) as [[v r1]|] eqn:Ev; [|discriminate].
    destruct (IHv _ _ _ Ev) as [Hl1 Hmono1].
    pose proof (skip_ws_length r1) as Hs.
    destruct (skip_ws r1) as [|c t] eqn:Es; [discriminate|]. cbn [length] in Hs.
    destruct (c =? 44)%N eqn:E1.
    { apply consFst_Some in H. destruct H as (l' & He & ->).
      destruct (IHe _ _ _ He) as [Hl2 Hmono2]. split; [lia|].
      intros [|g] Hf; [lia|]. cbn [parse_elements].
      rewrite Hmono1 by lia. rewrite Es, E1. rewrite Hmono2 by lia. reflexivity. }
    destruct (c =? 93)%N eqn:E2; [|discriminate].
    injection H as <- <-. split; [lia|].
    intros [|g] Hf; [lia|]. cbn [parse_elements].
    rewrite Hmono1 by lia. rewrite Es, E1, E2. reflexivity.
  - intros s o r H. cbn [parse_members] in H.
    pose proof (skip_ws_length s) as Hs0.
    destruct (startsWith [34%N] (skip_ws s)) eqn:E0; [|discriminate].
    pose proof (length_drop (skip_ws s) 1) as Hd0.
    destruct (parse_string (drop 1 (skip_ws s))) as [[k r1]|] eqn:Ek; [|discriminate].
    pose proof (parse_string_length _ _ _ Ek) as Hk.
    pose proof (skip_ws_length r1) as Hs1.
    destruct (startsWith [58%N] (skip_ws r1)) eqn:E1; [|discriminate].
    pose proof (length_drop (skip_ws r1) 1) as Hd1.
    destruct (parse_value f (drop 1 (skip_ws r1))) as [[v r3]|] eqn:Ev; [|discriminate].
    destruct (IHv _ _ _ Ev) as [Hl1 Hmono1].
    pose proof (skip_ws_length r3) as Hs.
    destruct (skip_ws r3) as [|c t] eqn:Es; [discriminate|]. cbn [length] in Hs.
    destruct (c =? 44)%N eqn:E2.
    { apply consFst_Some in H. destruct H as (l' & He & ->).
      destruct (IHm _ _ _ He) as [Hl2 Hmono2]. split; [lia|].
      intros [|g] Hf; [lia|]. cbn [parse_members].
      rewrite E0, Ek, E1. rewrite Hmono1 by lia. rewrite Es, E2.
      rewrite Hmono2 by lia. reflexivity. }
    destruct (c =? 125)%N eqn:E3; [|discriminate].
    injection H as <- <-. split; [lia|].
    intros [|g] Hf; [lia|]. cbn [parse_members].
    rewrite E0, Ek, E1. rewrite Hmono1 by lia. rewrite Es, E2, E3. reflexivity.
Qed.

(** [JSON_parse] does not depend on its choice of fuel: a text that the
    reader accepts whole on some fuel is accepted by [JSON_parse], with
    the same value. *)
Lemma JSON_parse_fuel s f v rest :
  parse_value f s = Some (v, rest) -> skip_ws rest = [] -> JSON_parse s = Some v.
Proof.
  intros H Hr. destruct (proj1 (parse_fuel f) _ _ _ H) as [Hl Hmono].
  unfold JSON_parse. rewrite Hmono by lia. rewrite Hr. reflexivity.
Qed.

(** ** [normalizeOutput] is idempotent *)

Section NormalizeIdempotent.
Import Run.

Lemma endsWith_last z a mid : endsWith [z] (a :: mid ++ [z]) = true.
Proof.
  unfold endsWith. change (a :: mid ++ [z]) with ((a :: mid) ++ [z]).
  rewrite rev_app_distr. cbn [rev app startsWith]. rewrite N.eqb_refl. reflexivity.
Qed.

(** A trimmed string of JSON shape opens with a brace, a bracket or a
    quote. *)
Lemma looksJsonLike_shape raw :
  trim raw = raw -> looksJsonLike raw = true ->
  exists c t, raw = c :: t /\ (c = 123%N \/ c = 91%N \/ c = 34%N).
Proof.
  intros Ht. unfold looksJsonLike. rewrite Ht.
  destruct raw as [|c t]; [discriminate|]. cbn [startsWith].
  intros H. exists c, t. split; [reflexivity|].
  apply orb_true_iff in H. destruct H as [H | H];
    [apply orb_true_iff in H; destruct H as [H | H]|];
    apply andb_true_iff in H; destruct H as [H _];
    apply andb_true_iff in H; destruct H as [H _];
    apply N.eqb_eq in H; auto.
Qed.

(** On such a string [normalizeOutput] is the JSON branch. *)
Lemma normalizeOutput_json raw :
  trim raw = raw -> looksJsonLike raw = true ->
  normalizeOutput raw =
  match JSON_parse raw with
  | Some v => stringify v
  | None => raw
  end.
Proof.
  intros Ht Hj. destruct (looksJsonLike_shape raw Ht Hj) as (c & t & -> & Hc).
  unfold normalizeOutput. rewrite Ht, Hj.
  assert (Hn : numericRe (c :: t) = false)
    by (destruct Hc as [-> | [-> | ->]]; reflexivity).
  rewrite Hn, andb_false_r.
  change (lit "null") with (110%N :: lit "ull").
  change (lit "true") with (116%N :: lit "rue").
  change (lit "false") with (102%N :: lit "alse").
  rewrite !str_neq_head by (destruct Hc as [-> | [-> | ->]]; discriminate).
  reflexivity.
Qed.

(** What [JSON.parse] returns is an ordinary value. *)
Lemma JSON_parse_wellFormed s v : JSON_parse s = Some v -> wellFormed v.
Proof.
  unfold JSON_parse.
  destruct (parse_value (2 * length s + 2) s) as [[w r]|] eqn:E; [|discriminate].
  destruct (skip_ws r); [|discriminate]. intros H. injection H as <-.
  apply (proj1 (parse_wellFormed _) _ _ _ E).
Qed.

(** Reading what was printed either fails or gives the value back. *)
Lemma JSON_parse_stringify v :
  wellFormed v ->
  JSON_parse (stringify v) = None \/ JSON_parse (stringify v) = Some (normJson v).
Proof.
  intros Hwf. unfold JSON_parse.
  pose proof (parse_value_printed v Hwf (2 * length (stringify v) + 2)%nat [] I) as H.
  rewrite app_nil_r in H. destruct H as [-> | ->]; [left | right]; reflexivity.
Qed.

(** The printed form of an ordinary value normalises to itself. *)
Lemma normalizeOutput_stringify v :
  wellFormed v -> normalizeOutput (stringify v) = stringify v.
Proof.
  intros Hwf.
  assert (G : forall a mid z,
            stringify v = a :: mid ++ [z] ->
            (a = 123%N /\ z = 125%N) \/ (a = 91%N /\ z = 93%N) \/ (a = 34%N /\ z = 34%N) ->
            normalizeOutput (stringify v) = stringify v).
  { intros a mid z E Haz.
    assert (Ht : trim (stringify v) = stringify v).
    { rewrite E. apply trim_printable_ends;
        destruct Haz as [[-> ->] | [[-> ->] | [-> ->]]]; reflexivity. }
    assert (Hj : looksJsonLike (stringify v) = true).
    { unfold looksJsonLike. rewrite Ht, E.
      destruct Haz as [[-> ->] | [[-> ->] | [-> ->]]];
        rewrite endsWith_last; reflexivity. }
    rewrite (normalizeOutput_json _ Ht Hj).
    destruct (JSON_parse_stringify v Hwf) as [-> | ->]; [reflexivity|].
    apply normJson_stringify. }
  destruct v as [|[|]|x|s|l|o].
  - vm_compute. reflexivity.
  - vm_compute. reflexivity.
  - vm_compute. reflexivity.
  - cbn [stringify]. destruct (isFinite x);
      [apply normalizeOutput_numberToString | vm_compute; reflexivity].
  - apply (G 34%N (quoteBody s) 34%N); [reflexivity | auto].
  - apply (G 91%N (stringifyItems l) 93%N); [reflexivity | auto].
  - apply (G 123%N (stringifyProps o) 125%N); [reflexivity | auto].
Qed.

(** The results of [normalizeOutput]: the trimmed input, a printed
    Number, or a printed ordinary value. *)
Lemma normalizeOutput_cases s :
  normalizeOutput s = trim s \/
  (exists x, normalizeOutput s = numberToString x) \/
  (exists v, wellFormed v /\ normalizeOutput s = stringify v).
Proof.
  unfold normalizeOutput.
  destruct (str_eqb (trim s) (lit "null")); [right; right; exists JNull; split; [exact I|reflexivity]|].
  destruct (str_eqb (trim s) (lit "true"));
    [right; right; exists (JBool true); split; [exact I|reflexivity]|].
  destruct (str_eqb (trim s) (lit "false"));
    [right; right; exists (JBool false); split; [exact I|reflexivity]|].
  destruct (negb (str_eqb (trim s) []) && negb (isNaN (StringToNumber (trim s)))
            && numericRe (trim s)); [right; left; eauto|].
  destruct (looksJsonLike (trim s)); [|left; reflexivity].
  destruct (JSON_parse (trim s)) as [v|] eqn:E; [|left; reflexivity].
  right; right. exists v. split; [apply (JSON_parse_wellFormed _ _ E) | reflexivity].
Qed.

Lemma normalizeOutput_idem s : normalizeOutput (normalizeOutput s) = normalizeOutput s.
Proof.
  destruct (normalizeOutput_cases s) as [E | [[x E] | (v & Hwf & E)]].
  - rewrite E at 1. rewrite normalizeOutput_trim. reflexivity.
  - rewrite E. apply normalizeOutput_numberToString.
  - rewrite E. apply normalizeOutput_stringify. exact Hwf.
Qed.

(** C2.  [normalizeOutput] is idempotent on every string, and it
    canonicalises: ["01"] and ["1"] both give ["1"]; ["  true  "] gives
    ["true"]; a string whose trimmed form has the shape of a JSON
    object, array or quoted string gives the compact JSON
    re-serialisation of what [JSON.parse] reads, and its trimmed form
    when parsing fails; every other string that is neither one of the
    three keywords nor a numeral gives its trimmed form. *)
Theorem normalizeOutput_idempotent_canonical :
  (forall s, normalizeOutput (normalizeOutput s) = normalizeOutput s) /\
  (normalizeOutput (lit "01") = lit "1" /\
   normalizeOutput (lit "1") = lit "1" /\
   normalizeOutput (lit "  true  ") = lit "true") /\
  (forall s, looksJsonLike (trim s) = true ->
     normalizeOutput s =
     match JSON_parse (trim s) with
     | Some v => stringify v
     | None => trim s
     end) /\
  (forall s, looksJsonLike (trim s) = false ->
     trim s <> lit "null" -> trim s <> lit "true" -> trim s <> lit "false" ->
     numericRe (trim s) = false ->
     normalizeOutput s = trim s).
Proof.
  split; [exact normalizeOutput_idem|].
  split; [repeat split; vm_compute; reflexivity|].
  split.
  - intros s Hj. rewrite <- normalizeOutput_trim.
    apply normalizeOutput_json; [apply trim_idem | exact Hj].
  - intros s Hj H1 H2 H3 Hn. rewrite <- normalizeOutput_trim.
    apply normalizeOutput_plain; [apply trim_idem | exact Hn | exact Hj].
Qed.

(** An object with white space and a string with text after the closing
    quote: the first is printed compactly, the second is kept. *)
Lemma normalizeOutput_idempotent_canonical_witness :
  normalizeOutput (tq " { `b` : [1, 2.50], `a` : null } ") = tq "{`b`:[1,2.5],`a`:null}" /\
  normalizeOutput (tq " `a` + `b` ") = tq "`a` + `b`" /\
  normalizeOutput (lit " 3 apples ") = lit "3 apples".
Proof.
  destruct normalizeOutput_idempotent_canonical as (_ & _ & Hjson & Hplain).
  split; [|split].
  - rewrite Hjson by (vm_compute; reflexivity). vm_compute. reflexivity.
  - rewrite Hjson by (vm_compute; reflexivity). vm_compute. reflexivity.
  - rewrite Hplain; [vm_compute; reflexivity | vm_compute; reflexivity | | | |
                      vm_compute; reflexivity]; vm_compute; discriminate.
Defined.

End NormalizeIdempotent.

(** * Part III: further properties of the code *)

(** ** The rate limiter: a refused client *)

Section LimiterRetry.
Import Limiter.

(** X1.  Once a call under a key is refused, every further call under
    that key up to the end of the window is refused as well, with nothing
    remaining and the same [resetAt]: retrying neither lets a client in
    nor moves the end of its window, while each retry is still
    counted. *)
Theorem rateLimit_refused_until_reset (buckets : Buckets) key L W t r b1 ts :
  rateLimit buckets t key L W = (r, b1) ->
  allowed r = false ->
  Forall (fun t' => t' <= rl_resetAt r) ts ->
  let rs := (calls b1 key L W ts).1 in
  let after := (calls b1 key L W ts).2 in
  length rs = length ts /\
  (forall i r', rs !! i = Some r' ->
     allowed r' = false /\ remaining r' = 0 /\ rl_resetAt r' = rl_resetAt r) /\
  exists n, b1 !! key = Some (mkBucket n (rl_resetAt r)) /\
    after !! key = Some (mkBucket (n + Z.of_nat (length ts)) (rl_resetAt r)).
Proof.
  intros E Hno Hts rs after.
  destruct (rateLimit_bucket buckets t key L W) as (b & Hb & Hr).
  rewrite E in Hb, Hr. cbn [fst snd] in Hb, Hr. subst r.
  cbn [allowed rl_resetAt] in *. apply Z.leb_gt in Hno.
  destruct b as [n R]. cbn [count resetAt] in *.
  destruct (calls b1 key L W ts) as [rs1 b2] eqn:Ec.
  subst rs after. cbn [fst snd].
  destruct (calls_in_window _ _ _ _ _ _ _ _ _ Hb Hts Ec) as [Hb2 Hrs].
  split; [eapply calls_length; eassumption|]. split.
  - intros i r' Hi. rewrite (Hrs _ _ Hi). cbn [allowed remaining rl_resetAt].
    split; [apply Z.leb_gt; lia|]. split; [lia|reflexivity].
  - exists n. auto.
Qed.

Lemma rateLimit_refused_until_reset_witness :
  let buckets : Buckets := <[runKey (lit "10.0.0.7") := mkBucket 2 1000]> ∅ in
  let key := runKey (lit "10.0.0.7") in
  let b1 := (rateLimit buckets 5 key 2 300).2 in
  Forall (fun r' => allowed r' = false /\ remaining r' = 0 /\ rl_resetAt r' = 1000)
    (calls b1 key 2 300 [6; 999; 1000]).1.
Proof.
  intros buckets key b1.
  destruct (rateLimit_refused_until_reset buckets key 2 300 5
              (rateLimit buckets 5 key 2 300).1 b1 [6; 999; 1000])
    as (_ & Hall & _).
  - reflexivity.
  - reflexivity.
  - repeat (apply Forall_cons_2; [vm_compute; discriminate|]). apply Forall_nil_2.
  - apply Forall_lookup_2. exact Hall.
Defined.

End LimiterRetry.

(** ** The client address *)

Lemma upToComma_app a rest : ~ In 44%N a -> upToComma (a ++ 44%N :: rest) = a.
Proof.
  induction a as [|c a IH]; intros Hn; cbn [app upToComma].
  - reflexivity.
  - replace (c =? 44)%N with false
      by (symmetry; apply N.eqb_neq; intros ->; apply Hn; left; reflexivity).
    rewrite IH; [reflexivity|]. intros Hin. apply Hn. right. exact Hin.
Qed.

Lemma upToComma_whole a : ~ In 44%N a -> upToComma a = a.
Proof.
  induction a as [|c a IH]; intros Hn; cbn [upToComma]; [reflexivity|].
  replace (c =? 44)%N with false
    by (symmetry; apply N.eqb_neq; intros ->; apply Hn; left; reflexivity).
  rewrite IH; [reflexivity|]. intros Hin. apply Hn. right. exact Hin.
Qed.

(** X2.  [getClientIp] takes the first entry of [x-forwarded-for],
    trimmed, whatever follows the first comma and whatever [x-real-ip]
    says; an entry that is blank gives the empty address, not
    [unknown].  Without a forwarded header it takes [x-real-ip], trimmed,
    and without both (absent or empty) it answers [unknown].  The address
    is always trimmed. *)
Theorem getClientIp_first_entry (req : Request) :
  (forall a rest, ~ In 44%N a ->
     xForwardedFor req = Some (a ++ 44%N :: rest) -> getClientIp req = trim a) /\
  (forall a, a <> [] -> ~ In 44%N a ->
     xForwardedFor req = Some a -> getClientIp req = trim a) /\
  (xForwardedFor req = None \/ xForwardedFor req = Some [] ->
     (forall xr, xr <> [] -> xRealIp req = Some xr -> getClientIp req = trim xr) /\
     (xRealIp req = None \/ xRealIp req = Some [] ->
        getClientIp req = lit "unknown")) /\
  trim (getClientIp req) = getClientIp req.
Proof.
  unfold getClientIp. split; [|split; [|split]].
  - intros a rest Hn ->.
    destruct (a ++ 44%N :: rest) as [|c xf] eqn:E;
      [destruct a; discriminate E|].
    rewrite <- E, upToComma_app by exact Hn. reflexivity.
  - intros a Hne Hn ->. destruct a as [|c xf]; [congruence|].
    rewrite upToComma_whole by exact Hn. reflexivity.
  - intros Hxf.
    assert (E : match xForwardedFor req with
                | Some (c :: xf) => true
                | _ => false
                end = false) by (destruct Hxf as [-> | ->]; reflexivity).
    destruct (xForwardedFor req) as [[|c xf]|]; try discriminate E; clear E Hxf.
    + split.
      * intros xr Hne ->. destruct xr; [congruence|reflexivity].
      * intros [-> | ->]; reflexivity.
    + split.
      * intros xr Hne ->. destruct xr; [congruence|reflexivity].
      * intros [-> | ->]; reflexivity.
  - destruct (xForwardedFor req) as [[|c xf]|]; [| apply trim_idem |];
      (destruct (xRealIp req) as [[|d xr]|];
         [vm_compute; reflexivity | apply trim_idem | vm_compute; reflexivity]).
Qed.

Lemma getClientIp_first_entry_witness :
  getClientIp (mkRequest (Some (lit " 203.0.113.9 , 10.0.0.1, 10.0.0.2"))
                         (Some (lit "198.51.100.4")) None) = lit "203.0.113.9" /\
  getClientIp (mkRequest (Some (lit " ,10.0.0.1")) None None) = [] /\
  getClientIp (mkRequest (Some []) (Some (lit " 198.51.100.4 ")) None) = lit "198.51.100.4".
Proof.
  split; [|split].
  - destruct (getClientIp_first_entry
                (mkRequest (Some (lit " 203.0.113.9 , 10.0.0.1, 10.0.0.2"))
                           (Some (lit "198.51.100.4")) None)) as (H & _).
    rewrite (H (lit " 203.0.113.9 ") (lit " 10.0.0.1, 10.0.0.2")).
    + vm_compute. reflexivity.
    + vm_compute. intuition discriminate.
    + reflexivity.
  - destruct (getClientIp_first_entry (mkRequest (Some (lit " ,10.0.0.1")) None None))
      as (H & _).
    rewrite (H (lit " ") (lit "10.0.0.1")).
    + vm_compute. reflexivity.
    + vm_compute. intuition discriminate.
    + reflexivity.
  - destruct (getClientIp_first_entry
                (mkRequest (Some []) (Some (lit " 198.51.100.4 ")) None))
      as (_ & _ & H & _).
    destruct H as [H _]; [right; reflexivity|].
    rewrite (H (lit " 198.51.100.4 ")).
    + vm_compute. reflexivity.
    + discriminate.
    + reflexivity.
Defined.

(** ** The execution gateway: what a request does to the world *)

Section RunWorld.
Context `{Platform}.
Import Run.

Ltac body_steps :=
  repeat match goal with
  | |- context [match ToString ?x with _ => _ end] =>
      destruct (ToString x) eqn:?
  | |- context [if ?b then _ else _] =>
      lazymatch b with
      | Z.gtb _ _ => destruct b eqn:?
      end
  | |- context [match JSON_parse ?x with _ => _ end] =>
      destruct (JSON_parse x) eqn:?
  | |- context [let '(_, _) := runOnPiston ?r ?p ?w in _] =>
      destruct (runOnPiston r p w) as [[?|?] ?] eqn:?
  | |- context [match trimmedStream ?x with _ => _ end] =>
      destruct (trimmedStream x) eqn:?
  end.

Lemma runOnPiston_buckets rt p w out w1 :
  runOnPiston rt p w = (out, w1) -> buckets w1 = buckets w.
Proof.
  unfold runOnPiston. destruct (sandbox _ _ _). intros E. inversion E. reflexivity.
Qed.

(** The loop body leaves the limiter's buckets alone. *)
Lemma runCase_buckets job i item w res w' :
  runCase job i item w = (res, w') -> buckets w' = buckets w.
Proof.
  unfold runCase.
  body_steps; intros E; inversion E; subst; try reflexivity;
    eapply runOnPiston_buckets; eassumption.
Qed.

(** The loop appends at most one sandbox call per case, each on the
    runtime of the request, and leaves the buckets alone. *)
Lemma runLoop_world job cases : forall i t w res w',
  runLoop job i cases t w = (res, w') ->
  buckets w' = buckets w /\
  exists added,
    sandboxCalls w' = sandboxCalls w ++ added /\
    (length added <= length cases)%nat /\
    Forall (fun c => c.1 = runtime job) added.
Proof.
  induction cases as [|c cases IH]; intros i t w res w' E; cbn [runLoop] in E.
  - injection E as <- <-. split; [reflexivity|]. exists [].
    rewrite app_nil_r. repeat split; [cbn; lia|constructor].
  - destruct (runCase job i c w) as [[r0|e] w1] eqn:Ec.
    + destruct (IH _ _ _ _ _ E) as (Hb & added & Hs & Hl & Hrt).
      pose proof (runCase_buckets _ _ _ _ _ _ Ec) as Hb1.
      split; [congruence|].
      destruct (runCase_calls _ _ _ _ _ _ Ec) as [Hc | [p Hc]].
      * exists added. rewrite Hs, Hc. repeat split; [cbn; lia|exact Hrt].
      * exists ((runtime job, p) :: added). rewrite Hs, Hc, <- app_assoc.
        repeat split; [cbn; lia|]. constructor; [reflexivity|exact Hrt].
    + injection E as <- <-.
      split; [eapply runCase_buckets; eassumption|].
      destruct (runCase_calls _ _ _ _ _ _ Ec) as [Hc | [p Hc]].
      * exists []. rewrite Hc, app_nil_r. repeat split; [cbn; lia|constructor].
      * exists [(runtime job, p)]. rewrite Hc.
        repeat split; [cbn; lia|]. constructor; [reflexivity|constructor].
Qed.

Lemma mapLanguage_pinned lang rt :
  mapLanguage lang = Ok rt ->
  In rt [mkRuntime (lit "javascript") (lit "18.15.0");
         mkRuntime (lit "typescript") (lit "5.0.3");
         mkRuntime (lit "python") (lit "3.10.0")].
Proof.
  unfold mapLanguage.
  destruct (if truthy lang then _ else _) as [l|e]; cbn [rbind]; [|discriminate].
  destruct (str_eqb l (lit "javascript")); [intros E; injection E as <-; cbn; auto|].
  destruct (str_eqb l (lit "typescript")); [intros E; injection E as <-; cbn; auto|].
  destruct (str_eqb l (lit "python")); intros E; injection E as <-; cbn; auto.
Qed.

Lemma POST_unfold req w :
  POST req w =
  let rl := Limiter.rateLimit (buckets w) (now w)
              (Limiter.runKey (getClientIp req)) 30 (5 * 60 * 1000) in
  let w0 := mkWorld rl.2 (now w) (sandboxCalls w) in
  if negb (Limiter.allowed rl.1) then
    (mkResponse 429
       (Some (intToString (ceilSeconds (Limiter.rl_resetAt rl.1 - clockAfter (now w)))))
       (ErrorBody (lit "Too many run requests. Try again later.")), w0)
  else
    match handle req w0 with
    | (Ok resp, w1) => (resp, w1)
    | (Throw _, w1) =>
        (mkResponse 500 None (ErrorBody (lit "Server error running code")), w1)
    end.
Proof.
  unfold POST. destruct (Limiter.rateLimit _ _ _ _ _). reflexivity.
Qed.

(** What the handler does once the request is let in: it throws, or
    answers 400 without touching the world, or runs the loop over the
    first twelve cases and answers 200 with the report. *)
Lemma handle_inv req w res w1 :
  handle req w = (res, w1) ->
  (exists e, res = Throw e) \/
  (exists msg, res = Ok (mkResponse 400 None (ErrorBody msg)) /\ w1 = w) \/
  (exists b c src rt t,
     jsonBody req = Some b /\
     let bo := if truthy (Some b) then b else JObj [] in
     let m := match getProp bo (lit "mode") with
              | None => JStr (lit "run")
              | Some v => v
              end in
     let fn := match getProp bo (lit "functionName") with
               | None => JStr (lit "solve")
               | Some v => v
               end in
     let visible := arrayOrEmpty (getProp bo (lit "testCases")) in
     let hiddenCases := arrayOrEmpty (getProp bo (lit "hiddenTestCases")) in
     let casesToRun := if isSubmit m then visible ++ hiddenCases else visible in
     getProp bo (lit "code") = Some (JStr (c :: src)) /\
     casesToRun <> [] /\
     mapLanguage (getProp bo (lit "language")) = Ok rt /\
     runLoop (mkJob (c :: src) fn m (length visible) rt) 0
       (take MAX_CASES_RUN casesToRun) (mkTally [] 0) w = (Ok t, w1) /\
     res = Ok (mkResponse 200 None
                 (Report m (passedCount t) (Z.of_nat (length (results t)))
                    (passedCount t =? Z.of_nat (length (results t)))
                    (now w1 - now w) (results t)))).
Proof.
  unfold handle.
  destruct (jsonBody req) as [b|] eqn:Eb; [|intros E; inversion E; left; eexists; reflexivity].
  set (bo := if truthy (Some b) then b else JObj []).
  destruct (getProp bo (lit "code")) as [[| | |[|c src]| |]|] eqn:Ecode;
    try solve [intros E; inversion E; subst; right; left; eexists; split; reflexivity].
  destruct (Z.of_nat (length (c :: src)) >? MAX_CODE_CHARS);
    [intros E; inversion E; subst; right; left; eexists; split; reflexivity|].
  set (m := match getProp bo (lit "mode") with
            | Some v => v
            | None => JStr (lit "run")
            end).
  set (visible := arrayOrEmpty (getProp bo (lit "testCases"))).
  set (hiddenCases := arrayOrEmpty (getProp bo (lit "hiddenTestCases"))).
  set (casesToRun := if isSubmit m then visible ++ hiddenCases else visible).
  destruct casesToRun as [|c0 cs] eqn:Ecases;
    [intros E; inversion E; subst; right; left; eexists; split; reflexivity|].
  rewrite <- Ecases.
  destruct (mapLanguage _) as [rt|e] eqn:Ert; [|intros E; inversion E; left; eexists; reflexivity].
  destruct (runLoop _ 0 _ _ _) as [[t|e] w2] eqn:Eloop;
    [|intros E; inversion E; left; eexists; reflexivity].
  intros E. inversion E; subst res w1; clear E.
  right; right. exists b, c, src, rt, t.
  split; [reflexivity|]. cbn zeta.
  split; [exact Ecode|].
  split; [change (casesToRun <> []); rewrite Ecases; discriminate|].
  split; [exact Ert|]. split; [exact Eloop|reflexivity].
Qed.

(** The handler leaves the buckets alone and appends at most twelve
    sandbox calls, all on one of the three pinned runtimes. *)
Lemma handle_world req w res w1 :
  handle req w = (res, w1) ->
  buckets w1 = buckets w /\
  exists added rt,
    sandboxCalls w1 = sandboxCalls w ++ added /\
    (length added <= MAX_CASES_RUN)%nat /\
    In rt [mkRuntime (lit "javascript") (lit "18.15.0");
           mkRuntime (lit "typescript") (lit "5.0.3");
           mkRuntime (lit "python") (lit "3.10.0")] /\
    Forall (fun c => c.1 = rt) added.
Proof.
  assert (Same : forall w0 : World,
            buckets w0 = buckets w0 /\
            exists added rt,
              sandboxCalls w0 = sandboxCalls w0 ++ added /\
              (length added <= MAX_CASES_RUN)%nat /\
              In rt [mkRuntime (lit "javascript") (lit "18.15.0");
                     mkRuntime (lit "typescript") (lit "5.0.3");
                     mkRuntime (lit "python") (lit "3.10.0")] /\
              Forall (fun c => c.1 = rt) added).
  { intros w0. split; [reflexivity|].
    exists [], (mkRuntime (lit "javascript") (lit "18.15.0")).
    rewrite app_nil_r. repeat split; [cbn; lia|cbn; auto|constructor]. }
  unfold handle.
  destruct (jsonBody req) as [b|]; [|intros E; inversion E; subst; apply Same].
  set (bo := if truthy (Some b) then b else JObj []).
  destruct (getProp bo (lit "code")) as [[| | |[|c src]| |]|];
    try solve [intros E; inversion E; subst; apply Same].
  destruct (Z.of_nat (length (c :: src)) >? MAX_CODE_CHARS);
    [intros E; inversion E; subst; apply Same|].
  set (cases := if isSubmit _ then _ else _).
  destruct cases as [|c0 cs] eqn:Ecases;
    [intros E; inversion E; subst; apply Same|].
  rewrite <- Ecases.
  destruct (mapLanguage _) as [rt|e] eqn:Ert;
    [|intros E; inversion E; subst; apply Same].
  destruct (runLoop _ 0 _ _ _) as [r w2] eqn:Eloop.
  destruct (runLoop_world _ _ _ _ _ _ _ Eloop) as (Hb & added & Hs & Hl & Hrt).
  cbn [runtime] in Hrt. rewrite length_take in Hl.
  assert (G : buckets w2 = buckets w /\
            exists added rt,
              sandboxCalls w2 = sandboxCalls w ++ added /\
              (length added <= MAX_CASES_RUN)%nat /\
              In rt [mkRuntime (lit "javascript") (lit "18.15.0");
                     mkRuntime (lit "typescript") (lit "5.0.3");
                     mkRuntime (lit "python") (lit "3.10.0")] /\
              Forall (fun c => c.1 = rt) added).
  { split; [exact Hb|]. exists added, rt.
    repeat split; [exact Hs|lia|exact (mapLanguage_pinned _ _ Ert)|exact Hrt]. }
  destruct r as [t|e]; intros E; inversion E; subst; exact G.
Qed.

Lemma POST_cases req w :
  let rl := Limiter.rateLimit (buckets w) (now w)
              (Limiter.runKey (getClientIp req)) 30 (5 * 60 * 1000) in
  let w0 := mkWorld rl.2 (now w) (sandboxCalls w) in
  (Limiter.allowed rl.1 = false /\
   POST req w =
     (mkResponse 429
        (Some (intToString (ceilSeconds (Limiter.rl_resetAt rl.1 - clockAfter (now w)))))
        (ErrorBody (lit "Too many run requests. Try again later.")), w0)) \/
  (Limiter.allowed rl.1 = true /\
   exists res w1, handle req w0 = (res, w1) /\
     POST req w =
       (match res with
        | Ok resp => resp
        | Throw _ => mkResponse 500 None (ErrorBody (lit "Server error running code"))
        end, w1)).
Proof.
  intros rl w0. rewrite POST_unfold. cbn zeta. fold rl. fold w0.
  destruct (Limiter.allowed rl.1); cbn [negb]; [right|left; auto].
  split; [reflexivity|]. destruct (handle req w0) as [[resp|e] w1]; eauto.
Qed.

(** A call is refused exactly on a bucket that is still open and has
    reached the limit. *)
Lemma rateLimit_refused_iff (bs : Limiter.Buckets) t key L W :
  1 <= L ->
  (Limiter.allowed (Limiter.rateLimit bs t key L W).1 = false <->
   exists b, bs !! key = Some b /\ t <= Limiter.resetAt b /\ L <= Limiter.count b) /\
  (forall b, bs !! key = Some b -> t <= Limiter.resetAt b ->
     Limiter.rl_resetAt (Limiter.rateLimit bs t key L W).1 = Limiter.resetAt b).
Proof.
  intros HL. split.
  - destruct (bs !! key) as [b|] eqn:Eb.
    + destruct (Z_le_gt_dec t (Limiter.resetAt b)) as [Hin | Hout].
      * rewrite (rateLimit_in_window _ _ _ _ _ _ Eb Hin). cbn [fst Limiter.allowed].
        rewrite Z.leb_gt. split.
        -- intros Hc. exists b. repeat split; [exact Hin|lia].
        -- intros (b' & Hb' & _ & Hc). injection Hb' as <-. lia.
      * rewrite (rateLimit_expired _ _ _ _ _ _ Eb) by lia. cbn [fst Limiter.allowed].
        rewrite Z.leb_gt. split; [lia|].
        intros (b' & Hb' & Ht & _). injection Hb' as <-. lia.
    + rewrite (rateLimit_fresh _ _ _ _ _ Eb). cbn [fst Limiter.allowed].
      rewrite Z.leb_gt. split; [lia|]. intros (b' & Hb' & _). discriminate Hb'.
  - intros b Eb Hin. rewrite (rateLimit_in_window _ _ _ _ _ _ Eb Hin). reflexivity.
Qed.

Lemma ceilSeconds_nonneg ms : 0 <= ms -> 0 <= ceilSeconds ms.
Proof.
  intros Hms. unfold ceilSeconds.
  assert ((- ms) / 1000 <= 0) by (apply Z.div_le_upper_bound; lia). lia.
Qed.

(** X3.  A run request is answered 429 exactly when the caller's bucket
    is still open (the clock reading taken inside [rateLimit] has not
    passed its [resetAt]) and already counts thirty requests.  The
    refusal makes no sandbox call, and its [Retry-After] is the number
    of seconds, rounded up, from a second reading of the clock to that
    [resetAt]: it is not negative as long as the second reading has not
    passed [resetAt]. *)
Theorem POST_refused_iff req w :
  let key := Limiter.runKey (getClientIp req) in
  (status (POST req w).1 = 429 <->
     exists b, buckets w !! key = Some b /\
       now w <= Limiter.resetAt b /\ 30 <= Limiter.count b) /\
  (status (POST req w).1 = 429 ->
     sandboxCalls (POST req w).2 = sandboxCalls w /\
     body (POST req w).1 = ErrorBody (lit "Too many run requests. Try again later.") /\
     exists b, buckets w !! key = Some b /\
       retryAfter (POST req w).1 =
         Some (intToString (ceilSeconds (Limiter.resetAt b - clockAfter (now w)))) /\
       (clockAfter (now w) <= Limiter.resetAt b ->
        0 <= ceilSeconds (Limiter.resetAt b - clockAfter (now w)))).
Proof.
  cbv zeta.
  destruct (rateLimit_refused_iff (buckets w) (now w)
              (Limiter.runKey (getClientIp req)) 30 (5 * 60 * 1000))
    as [Hiff Hreset]; [lia|].
  destruct (POST_cases req w) as [[Hno E] | (Hyes & res & w1 & Eh & E)];
    rewrite E; cbn [fst snd status body retryAfter sandboxCalls].
  - apply Hiff in Hno. split; [tauto|]. intros _.
    destruct Hno as (b & Hb & Hin & Hc).
    split; [reflexivity|]. split; [reflexivity|].
    exists b. rewrite (Hreset _ Hb Hin).
    repeat split; [exact Hb|]. intros Hlate. apply ceilSeconds_nonneg. lia.
  - assert (Hs : status match res with
                        | Ok resp => resp
                        | Throw _ =>
                            mkResponse 500 None (ErrorBody (lit "Server error running code"))
                        end <> 429).
    { destruct (handle_inv _ _ _ _ Eh)
        as [[e ->] | [(msg & -> & _) | (b & c & src & rt & t & _ & Hr)]];
        [cbn; lia | cbn; lia |].
      cbn zeta in Hr. destruct Hr as (_ & _ & _ & _ & ->). cbn. lia. }
    split; [|intros E'; contradiction].
    split; [intros E'; contradiction|].
    intros Hex. apply Hiff in Hex. congruence.
Qed.

Lemma POST_buckets req w :
  buckets (POST req w).2 =
  (Limiter.rateLimit (buckets w) (now w)
     (Limiter.runKey (getClientIp req)) 30 (5 * 60 * 1000)).2.
Proof.
  destruct (POST_cases req w) as [[Hno E] | (Hyes & res & w1 & Eh & E)];
    rewrite E; cbn [snd]; [reflexivity|].
  destruct (handle_world _ _ _ _ Eh) as [Hb _]. rewrite Hb. reflexivity.
Qed.

(** X4.  Every run request, whatever its answer (200, 400, 429 or 500),
    is counted once in the bucket of its client, and no other bucket is
    touched: not that of another address, and no bucket of the
    generation gateway. *)
Theorem POST_counts_every_request req w :
  let key := Limiter.runKey (getClientIp req) in
  let before :=
    match buckets w !! key with
    | Some b0 => if now w >? Limiter.resetAt b0 then 0 else Limiter.count b0
    | None => 0
    end in
  (exists b, buckets (POST req w).2 !! key = Some b /\
     Limiter.count b = before + 1) /\
  (forall k', k' <> key -> buckets (POST req w).2 !! k' = buckets w !! k') /\
  (forall ip, buckets (POST req w).2 !! Limiter.genKey ip
              = buckets w !! Limiter.genKey ip).
Proof.
  intros key before. rewrite POST_buckets. fold key.
  assert (Hframe : forall k', k' <> key ->
            (Limiter.rateLimit (buckets w) (now w) key 30 (5 * 60 * 1000)).2 !! k'
            = buckets w !! k').
  { intros k' Hk. unfold Limiter.rateLimit. cbn [snd].
    apply lookup_insert_ne. congruence. }
  split; [|split; [exact Hframe|]].
  - unfold Limiter.rateLimit; cbn [snd]. eexists. split; [apply lookup_insert_eq|].
    subst before. cbn [Limiter.count Limiter.resetAt].
    destruct (buckets w !! key) as [b0|]; cbn [Limiter.count Limiter.resetAt].
    + destruct (now w >? Limiter.resetAt b0); reflexivity.
    + destruct (now w >? now w + 5 * 60 * 1000); reflexivity.
  - intros ip. apply Hframe. intros E. symmetry in E.
    exact (runKey_genKey _ _ E).
Qed.

(** X5.  A run request that the limiter lets in is turned away before
    any case runs when its body is not JSON (500), when [code] is absent,
    not a string or empty (400), when it is longer than 40000 characters
    (400), and when there is no case to run (400): in run mode that is a
    request without visible cases, whatever its hidden ones.  A 400 makes
    no sandbox call and takes no time. *)
Theorem POST_rejects_before_running req w :
  Limiter.allowed
    (Limiter.rateLimit (buckets w) (now w)
       (Limiter.runKey (getClientIp req)) 30 (5 * 60 * 1000)).1 = true ->
  let reject msg := mkResponse 400 None (ErrorBody msg) in
  (jsonBody req = None ->
     (POST req w).1 = mkResponse 500 None (ErrorBody (lit "Server error running code")) /\
     sandboxCalls (POST req w).2 = sandboxCalls w) /\
  (forall b, jsonBody req = Some b ->
     let bo := if truthy (Some b) then b else JObj [] in
     let m := match getProp bo (lit "mode") with
              | None => JStr (lit "run")
              | Some v => v
              end in
     let visible := arrayOrEmpty (getProp bo (lit "testCases")) in
     let hiddenCases := arrayOrEmpty (getProp bo (lit "hiddenTestCases")) in
     ((forall c src, getProp bo (lit "code") <> Some (JStr (c :: src))) ->
        (POST req w).1 = reject (lit "code is required")) /\
     (forall s, getProp bo (lit "code") = Some (JStr s) ->
        40000 < Z.of_nat (length s) ->
        (POST req w).1 = reject (lit "Code is too long")) /\
     (forall s, getProp bo (lit "code") = Some (JStr s) -> s <> [] ->
        Z.of_nat (length s) <= 40000 ->
        (if isSubmit m then visible ++ hiddenCases else visible) = [] ->
        (POST req w).1 = reject (lit "testCases are required"))) /\
  (status (POST req w).1 = 400 ->
     sandboxCalls (POST req w).2 = sandboxCalls w /\ now (POST req w).2 = now w).
Proof.
  intros Hyes reject.
  destruct (POST_cases req w) as [[Hno _] | (_ & res & w1 & Eh & E)];
    [congruence|].
  rewrite E. cbn [fst snd]. clear E.
  set (w0 := mkWorld _ (now w) (sandboxCalls w)) in Eh.
  split; [|split].
  - intros Hb. unfold handle in Eh. rewrite Hb in Eh. injection Eh as <- <-.
    split; reflexivity.
  - intros b Hb. unfold handle in Eh. rewrite Hb in Eh. cbv zeta in Eh.
    set (bo := if truthy (Some b) then b else JObj []) in *. split; [|split].
    + intros Hc.
      destruct (getProp bo (lit "code")) as [[| | |[|c src]| |]|];
        try (injection Eh as <- <-; reflexivity).
      exfalso. apply (Hc c src). reflexivity.
    + intros s Hs Hlen. rewrite Hs in Eh.
      destruct s as [|c src]; [cbn in Hlen; lia|].
      unfold MAX_CODE_CHARS in Eh. rewrite gtb_true in Eh by lia.
      injection Eh as <- <-. reflexivity.
    + intros s Hs Hne Hlen Hcases. rewrite Hs in Eh.
      destruct s as [|c src]; [congruence|].
      unfold MAX_CODE_CHARS in Eh. rewrite gtb_false in Eh by lia.
      rewrite Hcases in Eh.
      injection Eh as <- <-. reflexivity.
  - destruct (handle_inv _ _ _ _ Eh)
      as [[e ->] | [(msg & -> & ->) | (b & c & src & rt & t & _ & Hr)]].
    + cbn. lia.
    + intros _. split; reflexivity.
    + cbn zeta in Hr. destruct Hr as (_ & _ & _ & _ & ->). cbn. lia.
Qed.

(** X6.  A run request makes at most twelve sandbox calls, at most one
    per entry of its report, all of them on the same runtime, which is
    one of the three pinned ones; the calls made before are kept as they
    were.  A request answered 400 or 429 makes none. *)
Theorem POST_sandbox_calls req w :
  exists added rt,
    sandboxCalls (POST req w).2 = sandboxCalls w ++ added /\
    (length added <= 12)%nat /\
    In rt [mkRuntime (lit "javascript") (lit "18.15.0");
           mkRuntime (lit "typescript") (lit "5.0.3");
           mkRuntime (lit "python") (lit "3.10.0")] /\
    Forall (fun c => c.1 = rt) added /\
    (status (POST req w).1 = 429 \/ status (POST req w).1 = 400 -> added = []) /\
    (forall m pc total allp ms rs,
       body (POST req w).1 = Report m pc total allp ms rs ->
       (length added <= length rs)%nat).
Proof.
  destruct (POST_cases req w) as [[Hno E] | (_ & res & w1 & Eh & E)];
    rewrite E; cbn [fst snd status body sandboxCalls].
  - exists [], (mkRuntime (lit "javascript") (lit "18.15.0")).
    rewrite app_nil_r. repeat split; [cbn; lia|cbn; auto|constructor|discriminate].
  - set (w0 := mkWorld _ (now w) (sandboxCalls w)) in Eh.
    destruct (handle_world _ _ _ _ Eh) as (_ & added & rt & Hs & Hl & Hrt & Hall).
    cbn [sandboxCalls] in Hs. exists added, rt.
    split; [exact Hs|]. split; [exact Hl|]. split; [exact Hrt|].
    split; [exact Hall|].
    destruct (handle_inv _ _ _ _ Eh)
      as [[e ->] | [(msg & -> & ->) | (b & c & src & rt' & t & _ & Hr)]].
    + split; [cbn; lia|discriminate].
    + split; [|discriminate]. intros _.
      apply (app_inv_head (sandboxCalls w0)). rewrite app_nil_r.
      symmetry. exact Hs.
    + cbn zeta in Hr. destruct Hr as (_ & _ & _ & Hloop & ->).
      split; [cbn; lia|].
      intros m pc total allp ms rs Hbody. cbn in Hbody. injection Hbody as _ _ _ _ _ <-.
      destruct (runLoop_world _ _ _ _ _ _ _ Hloop) as (_ & added' & Hs' & Hl' & _).
      destruct (runLoop_entries _ _ _ _ _ _ _ Hloop) as (rs & Hres & Hlen & _).
      cbn [results app] in Hres. rewrite Hres, Hlen.
      rewrite Hs in Hs'. apply app_inv_head in Hs'. subst added'. exact Hl'.
Qed.

Lemma captured_length s : Z.of_nat (length (captured s)) <= 8015.
Proof.
  unfold captured, MAX_STDOUT_CHARS.
  destruct (Z.of_nat (length s) >? 8000) eqn:E.
  - rewrite length_app, length_take.
    change (length (10%N :: lit "...[truncated]")) with 15%nat. lia.
  - rewrite Z.gtb_ltb in E. apply Z.ltb_ge in E. lia.
Qed.

Lemma runCase_output_capped job i item w r w' :
  runCase job i item w = (Ok r, w') -> Z.of_nat (length (actualOutput r)) <= 8015.
Proof.
  unfold runCase.
  body_steps; intros E; inversion E; subst; cbn [actualOutput length];
    try lia; apply captured_length.
Qed.

(** X7.  No entry of a report carries more than 8015 characters of
    output: the 8000 the gateway keeps and its truncation marker. *)
Theorem POST_output_capped req w m pc total allp ms rs :
  body (POST req w).1 = Report m pc total allp ms rs ->
  forall r, In r rs -> Z.of_nat (length (actualOutput r)) <= 8015.
Proof.
  destruct (POST_cases req w) as [[Hno E] | (_ & res & w1 & Eh & E)];
    rewrite E; cbn [fst body]; [discriminate|].
  destruct (handle_inv _ _ _ _ Eh)
    as [[e ->] | [(msg & -> & _) | (b & c & src & rt' & t & _ & Hr)]];
    [discriminate | discriminate |].
  cbn zeta in Hr. destruct Hr as (_ & _ & _ & Hloop & ->).
  intros Hbody. cbn in Hbody. injection Hbody as _ _ _ _ _ <-.
  destruct (runLoop_entries _ _ _ _ _ _ _ Hloop) as (rs & Hres & _ & _ & Hk).
  cbn [results app] in Hres. rewrite Hres.
  intros r Hin. apply list_elem_of_In, list_elem_of_lookup in Hin.
  destruct Hin as [k Hr].
  destruct (Hk _ _ Hr) as (item & wa & wb & _ & Hrun).
  exact (runCase_output_capped _ _ _ _ _ _ Hrun).
Qed.

Lemma filter_all_length {A} (f : A -> bool) l :
  (length (List.filter f l) <= length l)%nat /\
  (length (List.filter f l) = length l <-> Forall (fun x => f x = true) l).
Proof.
  induction l as [|x l [IHle IHeq]]; cbn [List.filter length].
  - split; [lia|]. split; [constructor|reflexivity].
  - destruct (f x) eqn:E; cbn [length]; (split; [lia|]).
    + split.
      * intros Hl. constructor; [exact E|]. apply IHeq. lia.
      * intros Hall. inversion Hall; subst. f_equal. apply IHeq. assumption.
    + split; [lia|]. intros Hall. inversion Hall; subst. congruence.
Qed.

(** X8.  The report of a run request is consistent: it has between one
    and twelve entries, [total] counts them, [passedCount] counts those
    that passed and so lies between zero and [total], and [allPassed]
    holds exactly when every entry passed; a report is never empty, so
    [allPassed] never holds for want of cases. *)
Theorem POST_report_consistent req w m pc total allp ms rs :
  body (POST req w).1 = Report m pc total allp ms rs ->
  status (POST req w).1 = 200 /\
  (1 <= length rs <= 12)%nat /\
  total = Z.of_nat (length rs) /\
  pc = Z.of_nat (length (List.filter passed rs)) /\
  0 <= pc <= total /\
  (allp = true <-> Forall (fun r => passed r = true) rs).
Proof.
  destruct (POST_cases req w) as [[Hno E] | (_ & res & w1 & Eh & E)];
    rewrite E; cbn [fst body status]; [discriminate|].
  destruct (handle_inv _ _ _ _ Eh)
    as [[e ->] | [(msg & -> & _) | (b & c & src & rt' & t & _ & Hr)]];
    [discriminate | discriminate |].
  cbn zeta in Hr. destruct Hr as (_ & Hne & _ & Hloop & ->).
  intros Hbody. cbn in Hbody. injection Hbody as _ <- <- <- _ <-.
  destruct (runLoop_entries _ _ _ _ _ _ _ Hloop) as (rs & Hres & Hlen & Hpc & _).
  cbn [results passedCount app] in Hres, Hpc. rewrite Hres in *.
  rewrite length_take in Hlen. unfold MAX_CASES_RUN in Hlen.
  destruct (filter_all_length passed rs) as [Hle Heq].
  split; [reflexivity|]. split.
  - destruct (if isSubmit _ then _ else _) as [|c0 cs]; [congruence|].
    cbn [length] in Hlen. lia.
  - split; [reflexivity|]. split; [lia|]. split; [lia|].
    rewrite <- Heq, Z.eqb_eq. lia.
Qed.

(** X9.  A run request is always answered, with one of the statuses 200,
    400, 429 and 500: the report goes with 200 and nothing else, the
    [Retry-After] header with 429 and nothing else, and a 500 says no
    more than that the server failed. *)
Theorem POST_status_codes req w :
  let resp := (POST req w).1 in
  In (status resp) [200; 400; 429; 500] /\
  (status resp = 200 <->
     exists m pc total allp ms rs, body resp = Report m pc total allp ms rs) /\
  (status resp = 429 <-> retryAfter resp <> None) /\
  (status resp = 500 ->
     body resp = ErrorBody (lit "Server error running code")).
Proof.
  intros resp. subst resp.
  destruct (POST_cases req w) as [[Hno E] | (_ & res & w1 & Eh & E)];
    rewrite E; cbn [fst body status retryAfter].
  - split; [cbn; auto|]. split; [split; [discriminate|]|].
    + intros (m & pc & total & allp & ms & rs & Hb). discriminate Hb.
    + split; [split; [discriminate|reflexivity]|discriminate].
  - destruct (handle_inv _ _ _ _ Eh)
      as [[e ->] | [(msg & -> & _) | (b & c & src & rt' & t & _ & Hr)]].
    + split; [cbn; auto|]. split; [split; [discriminate|]|].
      * intros (m & pc & total & allp & ms & rs & Hb). discriminate Hb.
      * split; [split; [discriminate|intros Hn; exfalso; apply Hn; reflexivity]|].
        reflexivity.
    + cbn [status body retryAfter].
      split; [cbn; auto|]. split; [split; [discriminate|]|].
      * intros (m & pc & total & allp & ms & rs & Hb). discriminate Hb.
      * split; [split; [discriminate|intros Hn; exfalso; apply Hn; reflexivity]|].
        discriminate.
    + cbn zeta in Hr. destruct Hr as (_ & _ & _ & _ & ->).
      cbn [status body retryAfter].
      split; [cbn; auto|]. split; [split; [eauto 10|reflexivity]|].
      split; [split; [discriminate|intros Hn; exfalso; apply Hn; reflexivity]|].
      discriminate.
Qed.

End RunWorld.

(** ** The execution gateway on further examples *)

Section RunWorldExamples.
Import Run Demo.

(** The first call is answered with [ 4 ] and exit code 0, the second
    with [4] and exit code 1. *)
Let plat : Platform :=
  platform [(reply (lit " 4 ") 0, 20); (reply (lit "4") 1, 30)] None.

Let two : list json := repeat (testCase (lit "2") (lit "4")) 2.

Lemma POST_refused_iff_witness :
  let w := mkWorld (<[Limiter.runKey (lit "203.0.113.9") := Limiter.mkBucket 30 1500]> ∅)
             1000 [] in
  let out := @POST plat (request (runBody "run" two [])) w in
  status out.1 = 429 /\ sandboxCalls out.2 = [] /\ retryAfter out.1 = Some (lit "1").
Proof.
  intros w out.
  destruct (@POST_refused_iff plat (request (runBody "run" two [])) w) as [Hiff Himp].
  assert (Hst : status out.1 = 429).
  { apply Hiff. exists (Limiter.mkBucket 30 1500).
    split; [reflexivity|]. split; [vm_compute; discriminate|cbn; lia]. }
  split; [exact Hst|].
  destruct (Himp Hst) as (Hcalls & _ & b & Hb & Hretry & _).
  split; [exact Hcalls|].
  injection Hb as <-. exact Hretry.
Defined.

Lemma POST_counts_every_request_witness :
  let out := @POST plat (request (JObj [])) world0 in
  status out.1 = 400 /\
  exists b, buckets out.2 !! Limiter.runKey (lit "203.0.113.9") = Some b /\
            Limiter.count b = 1.
Proof.
  intros out. split; [vm_compute; reflexivity|].
  destruct (@POST_counts_every_request plat (request (JObj [])) world0) as [Hb _].
  exact Hb.
Defined.

Lemma POST_rejects_before_running_witness :
  (@POST plat (request (runBody "run" [] two)) world0).1
    = mkResponse 400 None (ErrorBody (lit "testCases are required")) /\
  (@POST plat (request (JObj [(lit "code", JArr [])])) world0).1
    = mkResponse 400 None (ErrorBody (lit "code is required")).
Proof.
  split.
  - destruct (@POST_rejects_before_running plat (request (runBody "run" [] two)) world0
                eq_refl) as (_ & H & _).
    destruct (H _ eq_refl) as (_ & _ & Hcases).
    apply (Hcases (lit "export function solve(x) { return x + 2; }"));
      [reflexivity | discriminate | vm_compute; discriminate | reflexivity].
  - destruct (@POST_rejects_before_running plat
                (request (JObj [(lit "code", JArr [])])) world0 eq_refl)
      as (_ & H & _).
    destruct (H _ eq_refl) as (Hcode & _).
    apply Hcode. intros c src. discriminate.
Defined.

Lemma POST_output_capped_witness :
  match body (@POST plat (request (runBody "run" two [])) world0).1 with
  | Report _ _ _ _ _ rs =>
      Forall (fun r => Z.of_nat (length (actualOutput r)) <= 8015) rs
  | ErrorBody _ => False
  end.
Proof.
  destruct (body (@POST plat (request (runBody "run" two [])) world0).1)
    as [e|m pc total allp ms rs] eqn:E; [vm_compute in E; discriminate E|].
  apply Forall_forall. intros r Hin. apply list_elem_of_In in Hin.
  exact (@POST_output_capped plat _ _ _ _ _ _ _ _ E r Hin).
Defined.

Lemma POST_report_consistent_witness :
  match body (@POST plat (request (runBody "submit" two two)) world0).1 with
  | Report _ pc total allp _ rs =>
      0 <= pc <= total /\ (1 <= length rs <= 12)%nat /\
      (allp = true <-> Forall (fun r => passed r = true) rs)
  | ErrorBody _ => False
  end.
Proof.
  destruct (body (@POST plat (request (runBody "submit" two two)) world0).1)
    as [e|m pc total allp ms rs] eqn:E; [vm_compute in E; discriminate E|].
  destruct (@POST_report_consistent plat _ _ _ _ _ _ _ _ E)
    as (_ & Hlen & _ & _ & Hpc & Hall).
  auto.
Defined.

End RunWorldExamples.

(** ** [normalizeOutput]: the shape of the result *)

Section NormalizeShape.
Import Run.

Lemma roundQ_not_NaN neg v : isNaN (roundQ neg v) = false.
Proof.
  unfold roundQ. destruct (Qnum (Qred v) <=? 0); [reflexivity|].
  destruct (_ =? 0); [reflexivity|].
  destruct (_ || _); [reflexivity|].
  destruct (strip2 _ _). reflexivity.
Qed.

Lemma forallb_printable l :
  forallb (fun c => (33 <=? c)%N && (c <=? 126)%N) l = true -> Forall printable l.
Proof.
  induction l as [|c l IH]; cbn [forallb]; [constructor|].
  rewrite !andb_true_iff, !N.leb_le. intros [Hc Hl].
  constructor; [exact Hc|apply IH; exact Hl].
Qed.

(** What [String] prints for a Number has no white space in it. *)
Lemma numberToString_printable x : Forall printable (numberToString x).
Proof.
  assert (Hnan : Forall printable (lit "NaN"))
    by (apply forallb_printable; vm_compute; reflexivity).
  destruct x as [|z|neg m e|neg]; cbn [numberToString].
  - exact Hnan.
  - apply forallb_printable; vm_compute; reflexivity.
  - destruct (shortest m e) as [[s n]|]; [|exact Hnan].
    apply Forall_app. split; [apply signStr_printable|].
    set (ds := digits (Z.to_N s)).
    assert (Hd : forallb isDigit ds = true) by apply digits_isDigit.
    assert (Hne : ds <> []) by apply digits_nonempty.
    destruct (formatNumber_shape ds n Hd Hne)
      as [(ip & fp & -> & _ & Hdi & Hdf & _) | (d & r & Hds & ->)].
    + apply decimalString_printable; assumption.
    + rewrite Hds in Hd. cbn [forallb] in Hd. apply andb_true_iff in Hd.
      destruct Hd as [Hd0 Hdr].
      apply Forall_app. split;
        [apply decimalString_printable; [cbn; rewrite Hd0; reflexivity|exact Hdr]|].
      apply Forall_cons_2; [unfold printable; lia|]. apply Forall_app. split.
      * destruct (n - 1 <? 0); (apply Forall_cons_2; [unfold printable; lia|]);
          apply Forall_nil_2.
      * apply digits_printable, digits_isDigit.
  - apply Forall_app. split; [apply signStr_printable|].
    apply forallb_printable; vm_compute; reflexivity.
Qed.

(** What [JSON.stringify] prints neither starts nor ends with white
    space. *)
Lemma stringify_trimmed v : trim (stringify v) = stringify v.
Proof.
  destruct v as [|[|]|x|s|l|o].
  - vm_compute. reflexivity.
  - vm_compute. reflexivity.
  - vm_compute. reflexivity.
  - cbn [stringify]. destruct (isFinite x); [|vm_compute; reflexivity].
    apply trim_printable, numberToString_printable.
  - apply (trim_printable_ends 34%N (quoteBody s) 34%N); reflexivity.
  - rewrite stringify_arr. apply trim_printable_ends; reflexivity.
  - rewrite stringify_obj. apply trim_printable_ends; reflexivity.
Qed.

(** X10.  The result of [normalizeOutput] is trimmed, and it is empty
    exactly for an input that is empty or white space only: nothing else
    compares equal to an absent expected output. *)
Theorem normalizeOutput_trimmed s :
  trim (normalizeOutput s) = normalizeOutput s /\
  (normalizeOutput s = [] <-> forallb isWhiteSpace s = true).
Proof.
  split.
  - destruct (normalizeOutput_cases s) as [E | [[x E] | (v & _ & E)]]; rewrite E.
    + apply trim_idem.
    + apply trim_printable, numberToString_printable.
    + apply stringify_trimmed.
  - rewrite <- trim_nil_iff. split.
    + intros Hn.
      destruct (normalizeOutput_cases s) as [E | [[x E] | (v & _ & E)]];
        rewrite Hn in E.
      * symmetry. exact E.
      * destruct (numberToString_head x) as (c & r & Hc & _). congruence.
      * destruct (stringify_head v) as (c & r & Hc & _). congruence.
    + intros Ht. unfold normalizeOutput. rewrite Ht. reflexivity.
Qed.

(** A string the regular expression of [normalizeOutput] accepts is a
    signed decimal numeral. *)
Lemma numericRe_shape raw :
  numericRe raw = true ->
  exists neg ip fp,
    raw = signStr neg ++ decimalString ip fp /\
    ip <> [] /\ forallb isDigit ip = true /\ forallb isDigit fp = true.
Proof.
  unfold numericRe.
  assert (Hm : raw = signStr (stripMinus raw).1 ++ (stripMinus raw).2).
  { unfold stripMinus. destruct raw as [|c r]; [reflexivity|].
    destruct (c =? 45)%N eqn:E; [apply N.eqb_eq in E; subst c|]; reflexivity. }
  destruct (stripMinus raw) as [neg s1]. cbn [fst snd] in *.
  destruct (span_digits s1) as [ds rest] eqn:Es.
  destruct (span_digits_digits _ _ _ Es) as (-> & Hd & _).
  destruct ds as [|d ds]; [discriminate|].
  destruct rest as [|c r2].
  - intros _. exists neg, (d :: ds), []. unfold decimalString.
    split; [exact Hm|]. split; [discriminate|]. split; [exact Hd|reflexivity].
  - destruct (c =? 46)%N eqn:Ec; [|discriminate]. apply N.eqb_eq in Ec. subst c.
    destruct (span_digits r2) as [fs rest2] eqn:Ef.
    destruct (span_digits_digits _ _ _ Ef) as (-> & Hf & _).
    destruct fs as [|f fs]; [discriminate|].
    destruct rest2; [|discriminate]. intros _.
    exists neg, (d :: ds), (f :: fs). unfold decimalString.
    rewrite app_nil_r in Hm.
    split; [exact Hm|]. split; [discriminate|]. split; [exact Hd|exact Hf].
Qed.

(** X11.  On every input whose trimmed form the regular expression
    accepts, [normalizeOutput] takes the number branch and returns
    [String(Number(raw))]: the two guards in front of the expression
    never fire, since such a string is not empty and never reads as
    NaN. *)
Theorem normalizeOutput_numeral s :
  numericRe (trim s) = true ->
  normalizeOutput s = numberToString (StringToNumber (trim s)) /\
  trim s <> [] /\
  isNaN (StringToNumber (trim s)) = false.
Proof.
  intros Hre.
  destruct (numericRe_shape _ Hre) as (neg & ip & fp & Hraw & Hne & Hi & Hf).
  assert (Hnan : isNaN (StringToNumber (trim s)) = false).
  { rewrite Hraw, StringToNumber_decimal by assumption.
    unfold decimalValue. apply roundQ_not_NaN. }
  destruct ip as [|d ip]; [congruence|].
  assert (Hd : (48 <= d <= 57)%N)
    by (cbn in Hi; apply andb_true_iff in Hi; destruct Hi as [Hi _];
        apply isDigit_range in Hi; exact Hi).
  assert (Hhead : exists c r, trim s = c :: r /\ (c = 45%N \/ (48 <= c <= 57)%N)).
  { rewrite Hraw. destruct neg; cbn [signStr app decimalString]; eauto. }
  destruct Hhead as (c & r & Hcr & Hc).
  split; [|split; [rewrite Hcr; discriminate|exact Hnan]].
  unfold normalizeOutput. rewrite Hnan, Hre, Hcr.
  change (lit "null") with (110%N :: lit "ull").
  change (lit "true") with (116%N :: lit "rue").
  change (lit "false") with (102%N :: lit "alse").
  rewrite !str_neq_head by lia.
  replace (str_eqb (c :: r) []) with false
    by (symmetry; apply str_eqb_neq; discriminate).
  reflexivity.
Qed.

Lemma normalizeOutput_numeral_witness :
  normalizeOutput (lit "  -007.50 ") = lit "-7.5" /\
  isNaN (StringToNumber (lit "-007.50")) = false.
Proof.
  destruct (normalizeOutput_numeral (lit "  -007.50 ")) as (E & _ & Hnan).
  - vm_compute. reflexivity.
  - split; [rewrite E; vm_compute; reflexivity | exact Hnan].
Defined.

(** X12.  What [JSON.stringify] prints for an ordinary value is returned
    as it is.  So when the expected output is JSON text that
    [JSON.parse] reads as [v], a printed value [v'] compares equal to it
    exactly when [v'] and [v] are printed alike: the layout of the
    expected text plays no part, the order of the properties does. *)
Theorem normalizeOutput_printed_value expected v v' :
  looksJsonLike (trim expected) = true ->
  JSON_parse (trim expected) = Some v ->
  wellFormed v' ->
  normalizeOutput (stringify v') = stringify v' /\
  normalizeOutput expected = stringify v /\
  (normalizeOutput (stringify v') = normalizeOutput expected <->
   stringify v' = stringify v).
Proof.
  intros Hj Hp Hwf.
  assert (E1 : normalizeOutput (stringify v') = stringify v')
    by (apply normalizeOutput_stringify; exact Hwf).
  assert (E2 : normalizeOutput expected = stringify v).
  { rewrite <- normalizeOutput_trim.
    rewrite (normalizeOutput_json _ (trim_idem _) Hj), Hp. reflexivity. }
  rewrite E1, E2. tauto.
Qed.

(** Names that are no array indices and occur once are in the order of
    an ordinary object. *)
Lemma orderedKeys_names ks :
  bool_decide (NoDup ks) = true ->
  forallb (fun k => match arrayIndex k with
                    | None => true
                    | Some _ => false
                    end) ks = true ->
  orderedKeys ks.
Proof.
  intros Hnd Hnames. apply bool_decide_eq_true in Hnd.
  induction ks as [|k ks IH]; cbn [orderedKeys]; [exact I|].
  apply NoDup_cons in Hnd. destruct Hnd as [Hk Hnd].
  cbn [forallb] in Hnames. apply andb_true_iff in Hnames.
  destruct Hnames as [Hn Hrest].
  split; [intros Hin; apply Hk, list_elem_of_In; exact Hin|].
  split; [apply IH; assumption|].
  destruct (arrayIndex k); [discriminate Hn|].
  intros k' Hin. rewrite forallb_forall in Hrest. specialize (Hrest _ Hin).
  destruct (arrayIndex k'); [discriminate Hrest|reflexivity].
Qed.

Lemma normalizeOutput_printed_value_witness :
  let expected := tq " { `a` : [1, 2],  `b` : `x` } " in
  let same := JObj [(lit "a", JArr [JNum (roundQ false 1); JNum (roundQ false 2)]);
                    (lit "b", JStr (lit "x"))] in
  let swapped := JObj [(lit "b", JStr (lit "x"));
                       (lit "a", JArr [JNum (roundQ false 1); JNum (roundQ false 2)])] in
  normalizeOutput (stringify same) = normalizeOutput expected /\
  normalizeOutput (stringify swapped) <> normalizeOutput expected.
Proof.
  intros expected same swapped.
  destruct (JSON_parse (trim expected)) as [v|] eqn:Ev;
    [|apply (f_equal (fun o => match o with Some _ => true | None => false end)) in Ev;
      vm_compute in Ev; discriminate Ev].
  assert (Hj : looksJsonLike (trim expected) = true) by (vm_compute; reflexivity).
  assert (Hv : stringify v = tq "{`a`:[1,2],`b`:`x`}").
  { apply (f_equal (fun o => match o with Some w => stringify w | None => [] end)) in Ev.
    cbv beta iota in Ev. rewrite <- Ev. vm_compute. reflexivity. }
  assert (Hwf : forall o,
            bool_decide (NoDup (map fst o)) = true ->
            forallb (fun k => match arrayIndex k with
                              | None => true
                              | Some _ => false
                              end) (map fst o) = true ->
            Forall (fun kv => wellFormed kv.2) o -> wellFormed (JObj o)).
  { intros o H1 H2 H3. apply wellFormed_obj. split;
      [apply orderedKeys_names; assumption|exact H3]. }
  split.
  - destruct (normalizeOutput_printed_value expected v same Hj Ev) as (_ & _ & H).
    + apply Hwf; [vm_compute; reflexivity|vm_compute; reflexivity|].
      repeat constructor.
    + apply H. rewrite Hv. vm_compute. reflexivity.
  - destruct (normalizeOutput_printed_value expected v swapped Hj Ev) as (_ & _ & H).
    + apply Hwf; [vm_compute; reflexivity|vm_compute; reflexivity|].
      repeat constructor.
    + intros E. apply H in E. rewrite Hv in E.
      apply (f_equal (fun s => str_eqb s (tq "{`a`:[1,2],`b`:`x`}"))) in E.
      vm_compute in E. discriminate E.
Defined.

End NormalizeShape.
